(** * rag-pipeline: chunk offsets, embedding, persistence, retrieval, evaluation

    A shallow embedding of the TypeScript sources
      - [src/utils/chunk.ts]    (findChunkOffsets, chunkDocument, chunkDocuments)
      - [src/utils/embed.ts]    (embedChunks)
      - [src/utils/database.ts] (insertDocument, insertDocumentChunks,
                                 insertDocuments, searchByVector)
      - [src/retrieve.ts]       (retrieve)
      - [src/eval.ts]           (evaluateChunk, runEval)
    together with the properties the specification states about them.

    Conventions.
    - A JavaScript string is the list of its UTF-16 code units ([list N]).
    - A JavaScript integer-valued [number] is a [Z]; [-1] is the "not found"
      value of [indexOf], as in the source.
    - A call that may throw returns a [result]; external collaborators (the
      text splitter, the embedding provider, the LLM judge) are parameters. *)

From Stdlib Require Import List ZArith NArith Lia Bool String Ascii QArith Qabs.
From Stdlib Require Import Sorting.Sorted Sorting.Permutation Qround DecimalString.
Import ListNotations.
Local Open Scope Z_scope.

(* ------------------------------------------------------------------ *)
(** ** Thrown errors *)

Inductive error : Type :=
| Error (message : string)
| TypeError (message : string).

Inductive result (A : Type) : Type :=
| Ok (value : A)
| Err (e : error).
Arguments Ok {A} value.
Arguments Err {A} e.

Definition bindR {A B : Type} (r : result A) (k : A -> result B) : result B :=
  match r with
  | Ok a => k a
  | Err e => Err e
  end.

Declare Scope result_scope.
Delimit Scope result_scope with result.
Notation "'let?' x ':=' r 'in' k" := (bindR r (fun x => k))
  (at level 10, x pattern, r at level 100, k at level 200) : result_scope.
Local Open Scope result_scope.

(** [for (const x of xs) { st = body(st, x) }] where the body may throw. *)
Fixpoint forOf {S X : Type} (body : S -> X -> result S) (xs : list X) (st : S)
  : result S :=
  match xs with
  | [] => Ok st
  | x :: xs' => let? st' := body st x in forOf body xs' st'
  end.

(* ------------------------------------------------------------------ *)
(** ** JavaScript strings *)

Module JSString.

Definition t : Type := list N.

(** A literal with code units below 256. *)
Definition lit (s : string) : t := map N_of_ascii (list_ascii_of_string s).

Definition length (s : t) : Z := Z.of_nat (List.length s).

Fixpoint startsWith (s search : t) {struct search} : bool :=
  match search, s with
  | [], _ => true
  | _ :: _, [] => false
  | a :: search', b :: s' => N.eqb a b && startsWith s' search'
  end.

(** The scan of [StringIndexOf]: the least [k + j] such that [search] is a
  prefix of the [j]-th suffix of [s], or [-1]. *)
Fixpoint scanFrom (s search : t) (k : Z) : Z :=
  if startsWith s search then k
  else match s with
       | [] => -1
       | _ :: s' => scanFrom s' search (k + 1)
       end.

(** [s.indexOf(search, position)]: the position is clamped to
  [0 .. s.length] before the scan. *)
Definition indexOf (s search : t) (position : Z) : Z :=
  let start := Z.min (Z.max position 0) (length s) in
  scanFrom (skipn (Z.to_nat start) s) search start.

(** ECMAScript WhiteSpace and LineTerminator code units. *)
Definition isWhiteSpace (c : N) : bool :=
  ((9 <=? c) && (c <=? 13) || (c =? 32) || (c =? 160) || (c =? 5760)
   || (8192 <=? c) && (c <=? 8202) || (c =? 8232) || (c =? 8233)
   || (c =? 8239) || (c =? 8287) || (c =? 12288) || (c =? 65279))%N.

Fixpoint trimStart (s : t) : t :=
  match s with
  | [] => []
  | c :: s' => if isWhiteSpace c then trimStart s' else s
  end.

Definition trimEnd (s : t) : t := rev (trimStart (rev s)).

Definition trim (s : t) : t := trimEnd (trimStart s).

(** [s.slice(from, to)], which is what the specification writes
  [s[from:to]]: negative indices count from the end, both are clamped. *)
Definition slice (s : t) (from to : Z) : t :=
  let len := length s in
  let rel i := if i <? 0 then Z.max (len + i) 0 else Z.min i len in
  let a := rel from in
  let b := rel to in
  firstn (Z.to_nat (Z.max (b - a) 0)) (skipn (Z.to_nat a) s).

End JSString.

Abbreviation jsstring := JSString.t.

(* ------------------------------------------------------------------ *)
(** ** chunk.ts: data model *)

Module Document.
Record t : Type := mk
  { filePath : jsstring; content : jsstring; category : jsstring }.
End Document.

Module Chunk.
Record Metadata : Type := mkMetadata
  { filePath : jsstring; chunkIndex : Z; startOffset : Z; endOffset : Z }.
Record t : Type := mk { content : jsstring; metadata : Metadata }.
End Chunk.

Record ChunkConfig : Type := mkChunkConfig
  { chunkSize : Z; chunkOverlap : Z }.

(** The element type of the array [findChunkOffsets] returns. *)
Module RawOffsets.
Record t : Type := mk { startOffset : Z; endOffset : Z }.
End RawOffsets.

(** The one method of [RecursiveCharacterTextSplitter] the code calls:
    [splitText], which may reject. *)
Definition Splitter : Type := jsstring -> result (list jsstring).

(* ------------------------------------------------------------------ *)
(** ** chunk.ts: findChunkOffsets *)

(** One iteration of the [for (const chunk of chunks)] loop; the state is
    the pair of the mutable [offsets] array and [previousEnd]. *)
Definition findChunkOffsets_body (content : jsstring) (chunkOverlap : Z)
  (st : list RawOffsets.t * Z) (chunk : jsstring) : list RawOffsets.t * Z :=
  let '(offsets, previousEnd) := st in
  let searchStart := Z.max 0 (previousEnd - chunkOverlap) in
  let startOffset := JSString.indexOf content chunk searchStart in
  let startOffset :=
    if (startOffset =? -1) && (searchStart >? 0)
    then JSString.indexOf content chunk 0
    else startOffset in
  let startOffset :=
    if startOffset =? -1 then searchStart else startOffset in
  let endOffset :=
    Z.min (startOffset + JSString.length chunk) (JSString.length content) in
  (offsets ++ [RawOffsets.mk startOffset endOffset], endOffset).

Definition findChunkOffsets (content : jsstring) (chunks : list jsstring)
  (chunkOverlap : Z) : list RawOffsets.t :=
  fst (fold_left (findChunkOffsets_body content chunkOverlap) chunks ([], 0)).

(* ------------------------------------------------------------------ *)
(** ** chunk.ts: chunkDocument, chunkDocuments *)

(** The chunk pushed by one iteration of the second loop of [chunkDocument]
    (lines 122-143), for the raw split, its raw offsets and the current
    value of the [chunkIndex] counter. *)
Definition pushedChunk (content filePath : jsstring) (chunkIndex : Z)
  (rawSplit : jsstring) (rawOffsets : RawOffsets.t) : Chunk.t :=
  let trimmedSplit := JSString.trim rawSplit in
  let leadingTrim :=
    JSString.length rawSplit - JSString.length (JSString.trimStart rawSplit) in
  let trailingTrim :=
    JSString.length rawSplit - JSString.length (JSString.trimEnd rawSplit) in
  let startOffset :=
    Z.min (RawOffsets.startOffset rawOffsets + leadingTrim)
          (JSString.length content) in
  let endOffset :=
    Z.min (RawOffsets.endOffset rawOffsets - trailingTrim)
          (JSString.length content) in
  let safeEndOffset := Z.max startOffset endOffset in
  Chunk.mk trimmedSplit
    (Chunk.mkMetadata filePath chunkIndex startOffset safeEndOffset).

(** One iteration of [for (let i = 0; i < splits.length; i++)]; the state is
    the [chunks] array and the [chunkIndex] counter.  Reading a property of
    [undefined] throws a TypeError. *)
Definition chunkDocument_body (content filePath : jsstring)
  (splits : list jsstring) (offsets : list RawOffsets.t)
  (st : list Chunk.t * Z) (i : nat) : result (list Chunk.t * Z) :=
  let '(chunks, chunkIndex) := st in
  match nth_error splits i with
  | None => Err (TypeError "Cannot read properties of undefined (reading 'trim')")
  | Some rawSplit =>
      if JSString.length (JSString.trim rawSplit) =? 0 then Ok st
      else
        match nth_error offsets i with
        | None =>
            Err (TypeError "Cannot read properties of undefined (reading 'startOffset')")
        | Some rawOffsets =>
            Ok (chunks ++ [pushedChunk content filePath chunkIndex rawSplit rawOffsets],
                chunkIndex + 1)
        end
  end.

Definition nonBlank (split : jsstring) : bool :=
  JSString.length (JSString.trim split) >? 0.

Section Chunking.

(** [createMarkdownSplitter] builds the LangChain splitter; the library is
  not part of the repository, and its constructor may throw. *)
Variable createMarkdownSplitter : ChunkConfig -> result Splitter.

(** [splitter] is the optional third argument: when it is absent the
  default [createMarkdownSplitter(config)] is evaluated on entry. *)
Definition chunkDocument (document : Document.t) (config : ChunkConfig)
  (splitter : option Splitter) : result (list Chunk.t) :=
  let? splitter :=
    match splitter with
    | Some s => Ok s
    | None => createMarkdownSplitter config
    end in
  let chunkOverlap := chunkOverlap config in
  let content := Document.content document in
  let filePath := Document.filePath document in
  let trimmedContent := JSString.trim content in
  if JSString.length trimmedContent =? 0 then Ok []
  else
    let? rawSplits := splitter content in
    let splits := filter nonBlank rawSplits in
    if (Z.of_nat (List.length splits) =? 0) then Ok []
    else
      let offsets := findChunkOffsets content splits chunkOverlap in
      let? st :=
        forOf (chunkDocument_body content filePath splits offsets)
              (seq 0 (List.length splits)) ([], 0) in
      Ok (fst st).

(** [chunkDocuments]; the configuration read from the environment by
  [getChunkConfig] is the first argument. *)
Definition chunkDocuments (config : ChunkConfig) (documents : list Document.t)
  : result (list Chunk.t) :=
  let? splitter := createMarkdownSplitter config in
  forOf (fun allChunks document =>
           let? chunks := chunkDocument document config (Some splitter) in
           Ok (allChunks ++ chunks))
        documents [].

End Chunking.

(** The constructor of LangChain's [TextSplitter], which
    [RecursiveCharacterTextSplitter.fromLanguage] runs on the fields it is
    given: it throws when [chunkOverlap >= chunkSize]. *)
Definition TextSplitter_constructor (config : ChunkConfig) : result unit :=
  if chunkOverlap config >=? chunkSize config
  then Err (Error "Cannot have chunkOverlap >= chunkSize")
  else Ok tt.

(** [createMarkdownSplitter(config)] (lines 77-85): the constructor runs,
    and the splitter is the library's for the configuration; what its
    [splitText] returns is the parameter [splitText]. *)
Definition createMarkdownSplitter (splitText : ChunkConfig -> Splitter)
  (config : ChunkConfig) : result Splitter :=
  let? _ := TextSplitter_constructor config in
  Ok (splitText config).

(* ------------------------------------------------------------------ *)
(** ** Effects: a state-and-exception monad

    [SE St A] is a computation that reads and updates a state [St] and
    either returns an [A] or throws.  [St] is the state of the embedding
    provider and the judge model ([World] below) or of the database. *)

Definition SE (St A : Type) : Type := St -> result A * St.

Definition ret {St A : Type} (a : A) : SE St A := fun s => (Ok a, s).

Definition throw {St A : Type} (e : error) : SE St A := fun s => (Err e, s).

Definition bind {St A B : Type} (m : SE St A) (k : A -> SE St B) : SE St B :=
  fun s =>
    match m s with
    | (Ok a, s') => k a s'
    | (Err e, s') => (Err e, s')
    end.

(** [try { body } catch (error) { handler(error) }] *)
Definition tryCatch {St A : Type} (body : SE St A) (handler : error -> SE St A)
  : SE St A :=
  fun s =>
    match body s with
    | (Ok a, s') => (Ok a, s')
    | (Err e, s') => handler e s'
    end.

Declare Scope se_scope.
Delimit Scope se_scope with se.
Notation "x <- m ;; k" := (bind m (fun x => k))
  (at level 61, m at next level, right associativity) : se_scope.
Notation "m ;;; k" := (bind m (fun _ => k))
  (at level 61, right associativity) : se_scope.

(** [for (const x of xs) { acc = await body(acc, x) }] *)
Fixpoint forOfSE {St S X : Type} (body : S -> X -> SE St S) (xs : list X)
  (acc : S) : SE St S :=
  match xs with
  | [] => ret acc
  | x :: xs' => (acc' <- body acc x ;; forOfSE body xs' acc')%se
  end.

(* ------------------------------------------------------------------ *)
(** ** embed.ts *)

(** An embedding vector.  Its components are only stored and handed to the
    distance operator of the store. *)
Definition vector : Type := list Q.

Module EmbeddedChunk.
Record t : Type := mk
  { content : jsstring; metadata : Chunk.Metadata; embedding : vector }.

(** The object spread [{ ...chunk, embedding }]. *)
Definition spread (chunk : Chunk.t) (embedding : vector) : t :=
  mk (Chunk.content chunk) (Chunk.metadata chunk) embedding.

(** The [Chunk] an [EmbeddedChunk] extends. *)
Definition toChunk (e : t) : Chunk.t := Chunk.mk (content e) (metadata e).
End EmbeddedChunk.

Record EmbedConfig : Type := mkEmbedConfig { modelId : jsstring }.

Section Embedding.

(** The state of the world outside the process (provider quotas, network,
  model state) and the Bedrock call [generateEmbedding(client, text,
  modelId)], which may throw. *)
Variable World : Type.
Variable generateEmbedding : jsstring -> jsstring -> SE World vector.

Definition embedChunks_body (config : EmbedConfig)
  (embeddedChunks : list EmbeddedChunk.t) (chunk : Chunk.t)
  : SE World (list EmbeddedChunk.t) :=
  (embedding <- generateEmbedding (Chunk.content chunk) (modelId config) ;;
   ret (embeddedChunks ++ [EmbeddedChunk.spread chunk embedding]))%se.

(** [embedChunks]; the configuration read by [getEmbedConfig] is the first
  argument. *)
Definition embedChunks (config : EmbedConfig) (chunks : list Chunk.t)
  : SE World (list EmbeddedChunk.t) :=
  forOfSE (embedChunks_body config) chunks [].

End Embedding.

Arguments embedChunks_body {World} generateEmbedding config embeddedChunks chunk.
Arguments embedChunks {World} generateEmbedding config chunks.

(* ------------------------------------------------------------------ *)
(** ** database.ts: the store *)

Module DocumentInput.
Record t : Type := mk
  { content : jsstring; category : jsstring; filePath : jsstring }.
End DocumentInput.

Module DocumentChunkInput.
Record t : Type := mk
  { content : jsstring; chunkIndex : Z; startOffset : Z; endOffset : Z;
    embedding : vector }.
End DocumentChunkInput.

Module DocumentWithChunksInput.
Record t : Type := mk
  { document : DocumentInput.t; chunks : list DocumentChunkInput.t }.
End DocumentWithChunksInput.

(** Rows of the two tables of [init.sql] (the [created_at] timestamps are
    left out). *)
Module DocumentRow.
Record t : Type := mk
  { id : Z; content : jsstring; category : jsstring; filePath : jsstring }.
End DocumentRow.

Module DocumentChunkRow.
Record t : Type := mk
  { id : Z; documentId : Z; content : jsstring; chunkIndex : Z;
    startOffset : Z; endOffset : Z; embedding : vector }.
End DocumentChunkRow.

Record Tables : Type := mkTables
  { document : list DocumentRow.t;
    document_chunk : list DocumentChunkRow.t }.

(** The database as the code sees it: the committed tables (what every
    other reader sees), the working copy of the transaction opened on the
    client obtained by [getClient] (if one is open), and the two SERIAL
    sequences, which a rollback does not rewind. *)
Record Database : Type := mkDatabase
  { committed : Tables;
    transaction : option Tables;
    document_id_seq : Z;
    document_chunk_id_seq : Z }.

(** The two INSERT statements with their parameters. *)
Inductive Insert : Type :=
| INSERT_document (doc : DocumentInput.t)
| INSERT_document_chunk (documentId : Z) (chunk : DocumentChunkInput.t).

Module SearchResult.
Record t : Type := mk
  { id : Z; documentId : Z; content : jsstring; category : jsstring;
    filePath : jsstring; chunkIndex : Z; startOffset : Z; endOffset : Z;
    similarity : Q }.
End SearchResult.

(** The tables a statement on the transactional client works on. *)
Definition workingTables (db : Database) : Tables :=
  match transaction db with
  | Some t => t
  | None => committed db
  end.

(** Store the result of a statement: into the open transaction, or
    directly into the committed tables (autocommit). *)
Definition setWorkingTables (db : Database) (t : Tables) : Database :=
  match transaction db with
  | Some _ => mkDatabase (committed db) (Some t)
                (document_id_seq db) (document_chunk_id_seq db)
  | None => mkDatabase t None (document_id_seq db) (document_chunk_id_seq db)
  end.

Definition query_BEGIN : SE Database unit :=
  fun db =>
    match transaction db with
    | Some _ => (Ok tt, db)
    | None => (Ok tt, mkDatabase (committed db) (Some (committed db))
                        (document_id_seq db) (document_chunk_id_seq db))
    end.

Definition query_COMMIT : SE Database unit :=
  fun db =>
    (Ok tt, mkDatabase (workingTables db) None
              (document_id_seq db) (document_chunk_id_seq db)).

Definition query_ROLLBACK : SE Database unit :=
  fun db =>
    (Ok tt, mkDatabase (committed db) None
              (document_id_seq db) (document_chunk_id_seq db)).

Section Store.

(** Whether the server rejects an INSERT in the current state of the
  tables (a violated constraint, such as an embedding whose dimension is
  not the [vector(1024)] of the schema). *)
Variable rejects : Tables -> Insert -> bool.

(** [client.query(sql, params)] for [INSERT INTO document ... RETURNING id];
  with [inTransaction = false] the statement runs on a fresh pooled
  client and commits on its own. *)
Definition query_INSERT_document (inTransaction : bool)
  (doc : DocumentInput.t) : SE Database Z :=
  fun db =>
    let tables := if inTransaction then workingTables db else committed db in
    if rejects tables (INSERT_document doc)
    then (Err (Error "insert into document failed"), db)
    else
      let id := document_id_seq db in
      let row := DocumentRow.mk id (DocumentInput.content doc)
                   (DocumentInput.category doc) (DocumentInput.filePath doc) in
      let tables' := mkTables (document tables ++ [row])
                       (document_chunk tables) in
      let db' := mkDatabase (committed db) (transaction db) (id + 1)
                   (document_chunk_id_seq db) in
      (Ok id,
       if inTransaction then setWorkingTables db' tables'
       else mkDatabase tables' (transaction db') (document_id_seq db')
              (document_chunk_id_seq db')).

(** [client.query(sql, params)] for [INSERT INTO document_chunk ...
  RETURNING id]. *)
Definition query_INSERT_document_chunk (inTransaction : bool)
  (documentId : Z) (chunk : DocumentChunkInput.t) : SE Database Z :=
  fun db =>
    let tables := if inTransaction then workingTables db else committed db in
    if rejects tables (INSERT_document_chunk documentId chunk)
    then (Err (Error "insert into document_chunk failed"), db)
    else
      let id := document_chunk_id_seq db in
      let row := DocumentChunkRow.mk id documentId
                   (DocumentChunkInput.content chunk)
                   (DocumentChunkInput.chunkIndex chunk)
                   (DocumentChunkInput.startOffset chunk)
                   (DocumentChunkInput.endOffset chunk)
                   (DocumentChunkInput.embedding chunk) in
      let tables' := mkTables (document tables)
                       (document_chunk tables ++ [row]) in
      let db' := mkDatabase (committed db) (transaction db)
                   (document_id_seq db) (id + 1) in
      (Ok id,
       if inTransaction then setWorkingTables db' tables'
       else mkDatabase tables' (transaction db') (document_id_seq db')
              (document_chunk_id_seq db')).

(** [insertDocument(doc, client?)]: [client = true] is the caller's
  transactional client, [false] the branch that takes its own client
  from the pool. *)
Definition insertDocument (doc : DocumentInput.t) (client : bool)
  : SE Database Z :=
  if client then query_INSERT_document true doc
  else query_INSERT_document false doc.

(** [insertDocumentChunks(documentId, chunks, client?)] *)
Definition insertDocumentChunks (documentId : Z)
  (chunks : list DocumentChunkInput.t) (client : bool)
  : SE Database (list Z) :=
  if Z.of_nat (List.length chunks) =? 0 then ret []
  else
    forOfSE (fun insertedIds chunk =>
               (id <- query_INSERT_document_chunk client documentId chunk ;;
                ret (insertedIds ++ [id]))%se)
            chunks [].

(** The loop of [insertDocuments]; [ids] is the array being filled. *)
Definition insertDocuments_body (ids : list Z)
  (doc : DocumentWithChunksInput.t) : SE Database (list Z) :=
  (documentId <- insertDocument (DocumentWithChunksInput.document doc) true ;;
   let ids := ids ++ [documentId] in
   insertDocumentChunks documentId (DocumentWithChunksInput.chunks doc) true ;;;
   ret ids)%se.

(** [insertDocuments(docs)]: one BEGIN before the loop over all the
  documents, one COMMIT after it, ROLLBACK in the catch clause.  Taking
  the client from the pool and the three transaction commands are taken
  to succeed; the INSERT statements are the ones that may be rejected. *)
Definition insertDocuments (docs : list DocumentWithChunksInput.t)
  : SE Database (list Z) :=
  if Z.of_nat (List.length docs) =? 0 then ret []
  else
    tryCatch
      (query_BEGIN ;;;
       ids <- forOfSE insertDocuments_body docs [] ;;
       query_COMMIT ;;;
       ret ids)%se
      (fun error => (query_ROLLBACK ;;; throw error)%se).

End Store.

(* ------------------------------------------------------------------ *)
(** ** database.ts: searchByVector *)

Definition jsstring_eqb (a b : jsstring) : bool :=
  if list_eq_dec N.eq_dec a b then true else false.

(** Insertion of [x] in a list ordered by ascending [key]; [x] goes in
    front of the rows with the same key. *)
Fixpoint insertBy {A : Type} (key : A -> Q) (x : A) (l : list A) : list A :=
  match l with
  | [] => [x]
  | y :: l' => if Qle_bool (key x) (key y) then x :: l else y :: insertBy key x l'
  end.

(** [ORDER BY key] (ascending); rows with equal keys keep their order. *)
Definition ORDER_BY {A : Type} (key : A -> Q) (rows : list A) : list A :=
  fold_right (insertBy key) [] rows.

(** [LIMIT n]; the server refuses a negative count. *)
Definition LIMIT {A : Type} (n : Z) (rows : list A) : result (list A) :=
  if n <? 0 then Err (Error "LIMIT must not be negative")
  else Ok (firstn (Z.to_nat n) rows).

Section Search.

(** pgvector's cosine distance operator [<=>], on the vectors it is
  defined for. *)
Variable cosine_distance : vector -> vector -> Q.

(** The access path of [ORDER BY dc.embedding <=> $1]: [init.sql] declares
  an [ivfflat] index on [document_chunk.embedding], an approximate index
  whose scan reads only the lists nearest to the query vector.
  [indexScan tables embedding dc] tells whether the scan for [embedding]
  reaches the row [dc]; a sequential scan reaches every row. *)
Variable indexScan : Tables -> vector -> DocumentChunkRow.t -> bool.

(** What the connection or the server raises while the statement runs, if
  anything: no connection, pgvector's error for a query vector that has
  not the dimension of the column, ... *)
Variable queryError : Tables -> vector -> Z -> option jsstring -> option error.

(** The rows of [document_chunk] the scan reaches. *)
Definition SCAN (embedding : vector) (t : Tables) : Tables :=
  mkTables (document t) (filter (indexScan t embedding) (document_chunk t)).

(** [FROM document_chunk dc JOIN document d ON d.id = dc.document_id] *)
Definition JOIN (t : Tables) : list (DocumentChunkRow.t * DocumentRow.t) :=
  flat_map
    (fun dc =>
       map (fun d => (dc, d))
           (filter (fun d => DocumentRow.id d =? DocumentChunkRow.documentId dc)
                   (document t)))
    (document_chunk t).

(** [dc.embedding IS NOT NULL]: the column is declared NOT NULL in
  [init.sql] and the row type has no null embedding. *)
Definition IS_NOT_NULL (e : vector) : bool := true.

(** [WHERE dc.embedding IS NOT NULL AND ($3::text IS NULL OR d.category = $3)] *)
Definition WHERE (category : option jsstring)
  (row : DocumentChunkRow.t * DocumentRow.t) : bool :=
  IS_NOT_NULL (DocumentChunkRow.embedding (fst row))
  && match category with
     | None => true
     | Some c => jsstring_eqb (DocumentRow.category (snd row)) c
     end.

(** The SELECT list, with [1 - (dc.embedding <=> $1) as similarity]. *)
Definition SELECT (embedding : vector)
  (row : DocumentChunkRow.t * DocumentRow.t) : SearchResult.t :=
  let (dc, d) := row in
  SearchResult.mk (DocumentChunkRow.id dc) (DocumentChunkRow.documentId dc)
    (DocumentChunkRow.content dc) (DocumentRow.category d)
    (DocumentRow.filePath d) (DocumentChunkRow.chunkIndex dc)
    (DocumentChunkRow.startOffset dc) (DocumentChunkRow.endOffset dc)
    (1 - cosine_distance (DocumentChunkRow.embedding dc) embedding)%Q.

(** [searchByVector(embedding, limit, category)], run on a fresh client:
  it reads the committed tables, and throws what the query throws. *)
Definition searchByVector (embedding : vector) (limit : Z)
  (category : option jsstring) (db : Database)
  : result (list SearchResult.t) :=
  match queryError (committed db) embedding limit category with
  | Some e => Err e
  | None =>
      let rows :=
        filter (WHERE category) (JOIN (SCAN embedding (committed db))) in
      let ordered :=
        ORDER_BY (fun row =>
                    cosine_distance (DocumentChunkRow.embedding (fst row))
                      embedding)
                 rows in
      let? limited := LIMIT limit ordered in
      Ok (map (SELECT embedding) limited)
  end.

End Search.

(* ------------------------------------------------------------------ *)
(** ** retrieve.ts and eval.ts *)

Record RetrieveConfig : Type := mkRetrieveConfig { topK : Z }.

Module RetrieveResult.
Record t : Type := mk { query : jsstring; results : list SearchResult.t }.
End RetrieveResult.

Module ChunkEvaluation.
Record t : Type := mk
  { chunkIndex : Z; filePath : jsstring; relevance : Z; sufficiency : Z;
    reasoning : jsstring }.
End ChunkEvaluation.

Module EvalResult.
Record t : Type := mk
  { query : jsstring; chunks : list ChunkEvaluation.t;
    avgRelevance : Q; avgSufficiency : Q }.
End EvalResult.

(** What [parseJudgeResponse] returns. *)
Record JudgeScores : Type := mkJudgeScores
  { judgedRelevance : Z; judgedSufficiency : Z; judgedReasoning : jsstring }.

(** [evaluations.reduce((sum, e) => sum + f(e), 0) / evaluations.length],
    or 0 for no evaluation. *)
Definition average (f : ChunkEvaluation.t -> Z)
  (evaluations : list ChunkEvaluation.t) : Q :=
  if Z.of_nat (List.length evaluations) >? 0
  then Qdiv (inject_Z (fold_left (fun sum e => sum + f e) evaluations 0))
            (inject_Z (Z.of_nat (List.length evaluations)))
  else 0%Q.

(** The evaluation recorded by the catch clause of [runEval]. *)
Definition failedEvaluation (result : SearchResult.t) : ChunkEvaluation.t :=
  ChunkEvaluation.mk (SearchResult.chunkIndex result)
    (SearchResult.filePath result) 1 1
    (JSString.lit "Evaluation failed; defaulted to lowest scores.").

Section Retrieval.

Variable World : Type.
Variable generateEmbedding : jsstring -> jsstring -> SE World vector.
Variable cosine_distance : vector -> vector -> Q.
Variable indexScan : Tables -> vector -> DocumentChunkRow.t -> bool.
Variable queryError : Tables -> vector -> Z -> option jsstring -> option error.

(** The judge: the Bedrock call of [evaluateChunk] with its prompt, up to
  the joined text of the response; and [parseJudgeResponse].  Either may
  throw. *)
Variable invokeJudge : jsstring -> SearchResult.t -> SE World jsstring.
Variable parseJudgeResponse : jsstring -> result JudgeScores.

(** [console.warn] in the catch clause of [runEval], for the displayed
  chunk number and the caught error. *)
Variable consoleWarn : Z -> error -> World -> World.

(** [retrieve(query, category)]; the configurations read from the
  environment and the database are arguments. *)
Definition retrieve (retrieveConfig : RetrieveConfig)
  (embedConfig : EmbedConfig) (db : Database)
  (query : jsstring) (category : option jsstring)
  : SE World RetrieveResult.t :=
  (embedding <- generateEmbedding query (modelId embedConfig) ;;
   results <- (fun w =>
                 (searchByVector cosine_distance indexScan queryError
                    embedding (topK retrieveConfig) category db, w)) ;;
   ret (RetrieveResult.mk query results))%se.

Definition evaluateChunk (query : jsstring) (chunk : SearchResult.t)
  : SE World ChunkEvaluation.t :=
  (responseText <- invokeJudge query chunk ;;
   parsed <- (fun w => (parseJudgeResponse responseText, w)) ;;
   ret (ChunkEvaluation.mk (SearchResult.chunkIndex chunk)
          (SearchResult.filePath chunk) (judgedRelevance parsed)
          (judgedSufficiency parsed) (judgedReasoning parsed)))%se.

(** One iteration of [for (const result of retrievalResult.results)]. *)
Definition runEval_body (query : jsstring)
  (evaluations : list ChunkEvaluation.t) (result : SearchResult.t)
  : SE World (list ChunkEvaluation.t) :=
  tryCatch
    (evaluation <- evaluateChunk query result ;;
     ret (evaluations ++ [evaluation]))%se
    (fun error w =>
       (Ok (evaluations ++ [failedEvaluation result]),
        consoleWarn (SearchResult.chunkIndex result + 1) error w)).

Definition runEval (retrieveConfig : RetrieveConfig)
  (embedConfig : EmbedConfig) (db : Database)
  (query : jsstring) (category : option jsstring)
  : SE World EvalResult.t :=
  (retrievalResult <- retrieve retrieveConfig embedConfig db query category ;;
   evaluations <- forOfSE (runEval_body query)
                    (RetrieveResult.results retrievalResult) [] ;;
   ret (EvalResult.mk query evaluations
          (average ChunkEvaluation.relevance evaluations)
          (average ChunkEvaluation.sufficiency evaluations)))%se.

End Retrieval.

Arguments retrieve {World} generateEmbedding cosine_distance indexScan
  queryError retrieveConfig embedConfig db query category.
Arguments evaluateChunk {World} invokeJudge parseJudgeResponse query chunk.
Arguments runEval_body {World} invokeJudge parseJudgeResponse consoleWarn query
  evaluations result.
Arguments runEval {World} generateEmbedding cosine_distance indexScan
  queryError invokeJudge parseJudgeResponse consoleWarn retrieveConfig
  embedConfig db query category.

(* ------------------------------------------------------------------ *)
(** ** The offset resolver as the specification words it *)

(** [frag] occurs in [text] at position [i]. *)
Definition occursAt (text frag : jsstring) (i : Z) : Prop :=
  exists pre post : jsstring,
    text = pre ++ frag ++ post /\ JSString.length pre = i.

(** [i] is the first occurrence of [frag] at or after [from]. *)
Definition firstOccurrenceFrom (text frag : jsstring) (from i : Z) : Prop :=
  from <= i /\ occursAt text frag i /\
  forall j, from <= j < i -> ~ occursAt text frag j.

Definition noOccurrenceFrom (text frag : jsstring) (from : Z) : Prop :=
  forall j, from <= j -> ~ occursAt text frag j.

(** The start offset of a fragment: the anchored search, else the unanchored
    retry when [searchStart > 0], else [searchStart] itself. *)
Inductive resolvedStart (text frag : jsstring) (searchStart : Z) : Z -> Prop :=
| start_anchored i :
    firstOccurrenceFrom text frag searchStart i ->
    resolvedStart text frag searchStart i
| start_unanchored i :
    noOccurrenceFrom text frag searchStart ->
    searchStart > 0 ->
    firstOccurrenceFrom text frag 0 i ->
    resolvedStart text frag searchStart i
| start_placeholder :
    noOccurrenceFrom text frag searchStart ->
    (searchStart > 0 -> noOccurrenceFrom text frag 0) ->
    resolvedStart text frag searchStart searchStart.

(** [resolved text overlap previousEnd fragments offsets]: the algorithm of
    the Offset Resolver, started with the given [previousEnd]. *)
Inductive resolved (text : jsstring) (chunkOverlap : Z)
  : Z -> list jsstring -> list RawOffsets.t -> Prop :=
| resolved_nil previousEnd :
    resolved text chunkOverlap previousEnd [] []
| resolved_cons previousEnd frag frags start offsets :
    resolvedStart text frag (Z.max 0 (previousEnd - chunkOverlap)) start ->
    resolved text chunkOverlap
      (Z.min (start + JSString.length frag) (JSString.length text))
      frags offsets ->
    resolved text chunkOverlap previousEnd (frag :: frags)
      (RawOffsets.mk start
         (Z.min (start + JSString.length frag) (JSString.length text))
       :: offsets).

(* ------------------------------------------------------------------ *)
(** ** Auxiliary notions used to state the properties *)

Definition allWhiteSpace (s : jsstring) : Prop :=
  forallb JSString.isWhiteSpace s = true.

(** A string that is empty or starts with a character that is not white
    space. *)
Definition startsBlack (s : jsstring) : Prop :=
  match s with
  | [] => True
  | c :: _ => JSString.isWhiteSpace c = false
  end.

(** A string that is empty or ends with a character that is not white
    space. *)
Definition endsBlack (s : jsstring) : Prop := startsBlack (rev s).

(** The chunks of the splits paired with their raw offsets, numbered from
    [k]. *)
Fixpoint chunksFrom (content filePath : jsstring) (k : Z)
  (splits : list jsstring) (offsets : list RawOffsets.t) : list Chunk.t :=
  match splits, offsets with
  | s :: splits', o :: offsets' =>
      pushedChunk content filePath k s o
      :: chunksFrom content filePath (k + 1) splits' offsets'
  | _, _ => []
  end.

(** The list of chunks [chunkDocument] returns for a document that is not
    blank, from the raw splits of the splitter. *)
Definition chunksOf (document : Document.t) (config : ChunkConfig)
  (rawSplits : list jsstring) : list Chunk.t :=
  let splits := filter nonBlank rawSplits in
  chunksFrom (Document.content document) (Document.filePath document) 0
    splits
    (findChunkOffsets (Document.content document) splits (chunkOverlap config)).

(** The value of [previousEnd] when the loop of [findChunkOffsets] reaches
    the fragment of index [i]. *)
Definition previousEndAt (offsets : list RawOffsets.t) (i : nat) : Z :=
  match i with
  | O => 0
  | S i' => match nth_error offsets i' with
            | Some o => RawOffsets.endOffset o
            | None => 0
            end
  end.

(** Rows in ascending order of [key]. *)
Definition ascending {A : Type} (key : A -> Q) (a b : A) : Prop :=
  (key a <= key b)%Q.

(** Descending similarity: each result is at least as similar as every
    later one. *)
Definition bySimilarityDescending (a b : SearchResult.t) : Prop :=
  (SearchResult.similarity b <= SearchResult.similarity a)%Q.

Section EvaluationOutcome.

Variable World : Type.
Variable invokeJudge : jsstring -> SearchResult.t -> SE World jsstring.
Variable parseJudgeResponse : jsstring -> result JudgeScores.
Variable consoleWarn : Z -> error -> World -> World.

(** [evaluatedEach query w results evaluations w']: starting in world [w],
  the retrieved chunks were judged one after the other; a chunk whose
  evaluation returned has that evaluation, a chunk whose evaluation
  threw has the default one and a warning was printed. *)
Inductive evaluatedEach (query : jsstring)
: World -> list SearchResult.t -> list ChunkEvaluation.t -> World -> Prop :=
| evaluated_none w : evaluatedEach query w [] [] w
| evaluated_returned w result evaluation w1 results evaluations w2 :
  evaluateChunk invokeJudge parseJudgeResponse query result w = (Ok evaluation, w1) ->
  evaluatedEach query w1 results evaluations w2 ->
  evaluatedEach query w (result :: results) (evaluation :: evaluations) w2
| evaluated_threw w result e w1 results evaluations w2 :
  evaluateChunk invokeJudge parseJudgeResponse query result w = (Err e, w1) ->
  evaluatedEach query
    (consoleWarn (SearchResult.chunkIndex result + 1) e w1)
    results evaluations w2 ->
  evaluatedEach query w (result :: results)
    (failedEvaluation result :: evaluations) w2.

End EvaluationOutcome.

Arguments evaluatedEach {World} invokeJudge parseJudgeResponse consoleWarn query
  _ _ _ _.

(** The rows [insertDocumentChunks] adds for the chunks of the document
    [documentId], the first one with the given [id]. *)
Fixpoint chunkRows (documentId id : Z) (chunks : list DocumentChunkInput.t)
  : list DocumentChunkRow.t :=
  match chunks with
  | [] => []
  | chunk :: chunks' =>
      DocumentChunkRow.mk id documentId
        (DocumentChunkInput.content chunk) (DocumentChunkInput.chunkIndex chunk)
        (DocumentChunkInput.startOffset chunk) (DocumentChunkInput.endOffset chunk)
        (DocumentChunkInput.embedding chunk)
      :: chunkRows documentId (id + 1) chunks'
  end.

(** All the rows of a batch of documents with their chunks, for the given
    next values of the two sequences. *)
Fixpoint batchRows (documentId chunkId : Z)
  (docs : list DocumentWithChunksInput.t) : Tables :=
  match docs with
  | [] => mkTables [] []
  | doc :: docs' =>
      let d := DocumentWithChunksInput.document doc in
      let chunks := DocumentWithChunksInput.chunks doc in
      let rest :=
        batchRows (documentId + 1) (chunkId + Z.of_nat (List.length chunks))
          docs' in
      mkTables
        (DocumentRow.mk documentId (DocumentInput.content d)
           (DocumentInput.category d) (DocumentInput.filePath d)
         :: document rest)
        (chunkRows documentId chunkId chunks ++ document_chunk rest)
  end.

Definition addRows (t rows : Tables) : Tables :=
  mkTables (document t ++ document rows)
           (document_chunk t ++ document_chunk rows).

(* ------------------------------------------------------------------ *)
(** ** Concrete inputs for the examples *)

(** A splitter whose [splitText] returns the given fragments. *)
Definition fixedSplitter (splits : list jsstring) : Splitter :=
  fun _ => Ok splits.

(** A splitter whose [splitText] throws on every text. *)
Definition throwingSplitter : Splitter :=
  fun _ => Err (Error "splitText failed").

(** A splitter factory that refuses [chunkOverlap >= chunkSize]. *)
Definition checkingFactory (splitter : Splitter)
  : ChunkConfig -> result Splitter :=
  fun config =>
    if chunkOverlap config >=? chunkSize config
    then Err (Error "Cannot have chunkOverlap >= chunkSize")
    else Ok splitter.

(** Scenario 1 of the specification. *)
Definition doc_sentences : Document.t :=
  Document.mk (JSString.lit "faq.md") (JSString.lit "A. B. C.")
    (JSString.lit "general").
Definition splits_sentences : list jsstring :=
  [JSString.lit "A."; JSString.lit "B."; JSString.lit "C."].

(** Scenario 2: a repeated heading. *)
Definition text_headings : jsstring :=
  JSString.lit "# Intro" ++ [10%N] ++ JSString.lit "text" ++ [10%N]
  ++ JSString.lit "# Intro" ++ [10%N] ++ JSString.lit "more".
Definition splits_headings : list jsstring :=
  [JSString.lit "# Intro" ++ [10%N] ++ JSString.lit "text";
   JSString.lit "# Intro" ++ [10%N] ++ JSString.lit "more"].

(** Four one-character fragments, each found just before the previous
    one within the overlap window. *)
Definition doc_backwards : Document.t :=
  Document.mk (JSString.lit "faq.md") (JSString.lit "xxdcba")
    (JSString.lit "general").
Definition splits_backwards : list jsstring :=
  [JSString.lit "a"; JSString.lit "b"; JSString.lit "c"; JSString.lit "d"].

(** Raw splits that keep their surrounding white space. *)
Definition doc_padded : Document.t :=
  Document.mk (JSString.lit "shipping/slips.md") (JSString.lit "Hi.  Yo. ")
    (JSString.lit "shipping").
Definition splits_padded : list jsstring :=
  [JSString.lit "Hi. "; JSString.lit "   "; JSString.lit " Yo. "].

(** A splitter that collapses runs of white space: its fragment is not a
    substring of the document. *)
Definition doc_spaced : Document.t :=
  Document.mk (JSString.lit "faq.md") (JSString.lit "a  b")
    (JSString.lit "general").
Definition splits_normalized : list jsstring := [JSString.lit "a b"].

(** Fragments in document order that share more text than
    [chunkOverlap] allows: the second one starts inside the first. *)
Definition doc_repeated : Document.t :=
  Document.mk (JSString.lit "faq.md") (JSString.lit "xy ab xy")
    (JSString.lit "general").
Definition splits_repeated : list jsstring :=
  [JSString.lit "ab xy"; JSString.lit "xy"].

(** The dimension constraint of [embedding vector(1024)] in [init.sql]. *)
Definition schemaRejects (_ : Tables) (statement : Insert) : bool :=
  match statement with
  | INSERT_document _ => false
  | INSERT_document_chunk _ chunk =>
      negb (Nat.eqb (List.length (DocumentChunkInput.embedding chunk)) 1024)
  end.

Definition emptyDatabase : Database :=
  mkDatabase (mkTables [] []) None 1 1.

Definition input_good : DocumentWithChunksInput.t :=
  DocumentWithChunksInput.mk
    (DocumentInput.mk (JSString.lit "A.") (JSString.lit "general")
       (JSString.lit "a.md"))
    [DocumentChunkInput.mk (JSString.lit "A.") 0 0 2 (repeat 0%Q 1024)].

Definition input_bad : DocumentWithChunksInput.t :=
  DocumentWithChunksInput.mk
    (DocumentInput.mk (JSString.lit "B.") (JSString.lit "general")
       (JSString.lit "b.md"))
    [DocumentChunkInput.mk (JSString.lit "B.") 0 0 2 [0%Q; 0%Q; 0%Q]].

(** The vector of dimension 1024 with a 1 at position [i]. *)
Definition axis (i : nat) : vector :=
  repeat 0%Q i ++ 1%Q :: repeat 0%Q (1023 - i).

(** A store with one document and two chunks, a provider that counts its
    calls, and a judge that fails on the chunk of index 1. *)
Definition storedDatabase : Database :=
  mkDatabase
    (mkTables
       [DocumentRow.mk 1 (JSString.lit "A. B.") (JSString.lit "shipping")
          (JSString.lit "shipping/a.md")]
       [DocumentChunkRow.mk 1 1 (JSString.lit "A.") 0 0 2 (axis 0);
        DocumentChunkRow.mk 2 1 (JSString.lit "B.") 1 3 5 (axis 1)])
    None 2 3.

Definition countingEmbedding : jsstring -> jsstring -> SE nat vector :=
  fun _ _ calls => (Ok (axis 1), S calls).

(** A query plan that scans the table sequentially, and an index whose scan
    reads one list only: the rows whose embedding starts as the query
    vector does. *)
Definition sequentialScan : Tables -> vector -> DocumentChunkRow.t -> bool :=
  fun _ _ _ => true.

Definition oneListScan : Tables -> vector -> DocumentChunkRow.t -> bool :=
  fun _ embedding dc =>
    Qeq_bool (hd 0%Q (DocumentChunkRow.embedding dc)) (hd 0%Q embedding).

(** A server that raises pgvector's error for a query vector that has not
    the dimension of the column, and nothing else. *)
Definition dimensionError
  : Tables -> vector -> Z -> option jsstring -> option error :=
  fun _ embedding _ _ =>
    if Nat.eqb (List.length embedding) 1024 then None
    else Some (Error "different vector dimensions").

(** A stand-in for the distance: the sum of the absolute differences. *)
Fixpoint sampleDistance (a b : vector) : Q :=
  match a, b with
  | x :: a', y :: b' => (Qabs (x - y) + sampleDistance a' b')%Q
  | _, _ => 0%Q
  end.

Definition flakyJudge : jsstring -> SearchResult.t -> SE nat jsstring :=
  fun _ chunk calls =>
    if SearchResult.chunkIndex chunk =? 1
    then (Err (Error "ThrottlingException"), S calls)
    else (Ok (JSString.lit "{}"), S calls).

Definition sampleParse : jsstring -> result JudgeScores :=
  fun _ => Ok (mkJudgeScores 4 3 (JSString.lit "fine")).

Definition silentWarn : Z -> error -> nat -> nat := fun _ _ calls => calls.

(* ------------------------------------------------------------------ *)
(** ** Arrays of strings: join, split; numbers as text *)

(** [parts.join(separator)] *)
Fixpoint join (separator : jsstring) (parts : list jsstring) : jsstring :=
  match parts with
  | [] => []
  | p :: parts' =>
      match parts' with
      | [] => p
      | _ :: _ => p ++ separator ++ join separator parts'
      end
  end.

(** [s.split(separator)] for a separator of one code unit. *)
Fixpoint String_split (separator : N) (s : jsstring) : list jsstring :=
  match s with
  | [] => [[]]
  | c :: s' =>
      if N.eqb c separator then [] :: String_split separator s'
      else match String_split separator s' with
           | part :: parts => (c :: part) :: parts
           | [] => [[c]]
           end
  end.

(** The text of an integer-valued number, as a template literal prints it. *)
Definition Number_toString (z : Z) : jsstring :=
  JSString.lit (NilZero.string_of_int (Z.to_int z)).

(* ------------------------------------------------------------------ *)
(** ** cli.ts *)

Module ParsedArgs.
Record t : Type := mk { query : option jsstring; category : option jsstring }.
End ParsedArgs.

(** [getQueryFromArgs(args)]; [None] is [null]. *)
Definition getQueryFromArgs (args : list jsstring) : option jsstring :=
  let relevantArgs := skipn 2 args in
  if Z.of_nat (List.length relevantArgs) =? 0 then None
  else Some (JSString.trim (join (JSString.lit " ") relevantArgs)).

(** The loop of [parseArgs] from the current index on: [relevantArgs] is
    what is left from index [i]; a ["--category"] that has a successor takes
    it as the category and skips it. *)
Fixpoint parseArgs_loop (relevantArgs : list jsstring)
  (category : option jsstring) (queryParts : list jsstring)
  {struct relevantArgs} : option jsstring * list jsstring :=
  match relevantArgs with
  | [] => (category, queryParts)
  | arg :: rest =>
      match jsstring_eqb arg (JSString.lit "--category"), rest with
      | true, next :: rest' => parseArgs_loop rest' (Some next) queryParts
      | _, _ =>
          if negb (JSString.startsWith arg (JSString.lit "--"))
          then parseArgs_loop rest category (queryParts ++ [arg])
          else parseArgs_loop rest category queryParts
      end
  end.

Definition parseArgs (args : list jsstring) : ParsedArgs.t :=
  let relevantArgs := skipn 2 args in
  let '(category, queryParts) := parseArgs_loop relevantArgs None [] in
  ParsedArgs.mk
    (if Z.of_nat (List.length queryParts) >? 0
     then Some (JSString.trim (join (JSString.lit " ") queryParts))
     else None)
    category.

(* ------------------------------------------------------------------ *)
(** ** eval.ts: reading the judge's answer *)

(** A JavaScript number: a finite value (every double is a rational), NaN or
    an infinity. *)
Inductive JSNumber : Type :=
| Finite (q : Q)
| NaN
| PositiveInfinity
| NegativeInfinity.

(** What [JSON.parse] returns. *)
#[local] Unset Elimination Schemes.
Inductive Json : Type :=
| JNull
| JBool (b : bool)
| JNumber (n : JSNumber)
| JString (s : jsstring)
| JArray (items : list Json)
| JObject (properties : list (jsstring * Json)).
#[local] Set Elimination Schemes.

Module Judge.

(** [record.key] for one of the keys the code reads ([relevance],
    [sufficiency], [reasoning]); [None] is [undefined].  An array has none
    of them. *)
Definition getProperty (value : Json) (key : jsstring) : option Json :=
  match value with
  | JObject properties =>
      match find (fun kv => jsstring_eqb (fst kv) key) properties with
      | Some kv => Some (snd kv)
      | None => None
      end
  | _ => None
  end.

(** The rest of [s] after its first [c]. *)
Fixpoint afterFirst (c : N) (s : jsstring) : option jsstring :=
  match s with
  | [] => None
  | x :: s' => if N.eqb x c then Some s' else afterFirst c s'
  end.

(** The prefix of [s] up to and including its last [c]. *)
Fixpoint throughLast (c : N) (s : jsstring) : option jsstring :=
  match s with
  | [] => None
  | x :: s' =>
      match throughLast c s' with
      | Some p => Some (x :: p)
      | None => if N.eqb x c then Some [x] else None
      end
  end.

(** [extractJson]: [text.match(/\{[\s\S]*\}/)].  The match starts at the
    first ["{"] (no later start can match if that one cannot) and the greedy
    star runs to the last ["}"] after it; 123 and 125 are the two braces. *)
Definition extractJson (text : jsstring) : option jsstring :=
  match afterFirst 123 text with
  | None => None
  | Some rest =>
      match throughLast 125 rest with
      | None => None
      | Some body => Some (123%N :: body)
      end
  end.

(** [Math.round]: the nearest integer, ties towards plus infinity. *)
Definition Math_round (q : Q) : Z := Qfloor (q + (1 # 2)).

Section Parsing.

(** [JSON.parse], and [Number(value)] for a value that is not a number
    ([None] is [undefined]). *)
Variable JSON_parse : jsstring -> result Json.
Variable Number : option Json -> JSNumber.

Definition normalizeScore (value : option Json) (fieldName : string)
  : result Z :=
  let numericValue :=
    match value with
    | Some (JNumber n) => n
    | _ => Number value
    end in
  match numericValue with
  | Finite q =>
      let rounded := Math_round q in
      Ok (Z.min 5 (Z.max 1 rounded))
  | _ => Err (Error ("Invalid " ++ fieldName ++ " score."))
  end.

Definition parseJudgeResponse (text : jsstring) : result JudgeScores :=
  let trimmed := JSString.trim text in
  let? parsed :=
    match JSON_parse trimmed with
    | Ok value => Ok value
    | Err _ =>
        match extractJson trimmed with
        | None => Err (Error "No JSON object found in judge response.")
        | Some extracted => JSON_parse extracted
        end
    end in
  match parsed with
  | JArray _ | JObject _ =>
      let? relevance :=
        normalizeScore (getProperty parsed (JSString.lit "relevance"))
          "relevance" in
      let? sufficiency :=
        normalizeScore (getProperty parsed (JSString.lit "sufficiency"))
          "sufficiency" in
      Ok (mkJudgeScores relevance sufficiency
            match getProperty parsed (JSString.lit "reasoning") with
            | Some (JString reasoning) => JSString.trim reasoning
            | _ => JSString.lit "No reasoning provided."
            end)
  | _ => Err (Error "Judge response is not a JSON object.")
  end.

End Parsing.

End Judge.

(* ------------------------------------------------------------------ *)
(** ** generate.ts *)

Module GenerateResult.
Record t : Type := mk
  { query : jsstring; response : jsstring; context : list SearchResult.t;
    contextCount : Z }.
End GenerateResult.

(** The loop of [formatContextForPrompt] from index [i] on. *)
Fixpoint formatContextForPrompt_loop (i : Z) (results : list SearchResult.t)
  (contextParts : list jsstring) : list jsstring :=
  match results with
  | [] => contextParts
  | result :: results' =>
      formatContextForPrompt_loop (i + 1) results'
        (contextParts
         ++ [JSString.lit "[Document " ++ Number_toString (i + 1)
             ++ JSString.lit "] (Source: " ++ SearchResult.filePath result
             ++ JSString.lit ")";
             SearchResult.content result;
             []])
  end.

Definition formatContextForPrompt (results : list SearchResult.t) : jsstring :=
  if Z.of_nat (List.length results) =? 0
  then JSString.lit "No relevant context found."
  else join [10%N] (formatContextForPrompt_loop 0 results []).

Definition buildUserPrompt (query context : jsstring) : jsstring :=
  JSString.lit "Context from documentation:" ++ [10%N]
  ++ JSString.lit "---" ++ [10%N]
  ++ context ++ [10%N]
  ++ JSString.lit "---" ++ [10%N]
  ++ [10%N]
  ++ JSString.lit "Question: " ++ query ++ [10%N]
  ++ [10%N]
  ++ JSString.lit
       "Please answer the question based on the context provided above.".

Section Generation.

Variable World : Type.
Variable generateEmbedding : jsstring -> jsstring -> SE World vector.
Variable cosine_distance : vector -> vector -> Q.
Variable indexScan : Tables -> vector -> DocumentChunkRow.t -> bool.
Variable queryError : Tables -> vector -> Z -> option jsstring -> option error.

(** The Bedrock call of [generateResponse] for a user prompt (the system
    prompt and the model settings are fixed), up to the joined text of the
    response; it may throw. *)
Variable invokeClaude : jsstring -> SE World jsstring.

(** [console.warn] in the catch clause of [generate]. *)
Variable warnRetrievalFailed : World -> World.

Definition generateResponse (query : jsstring) (context : list SearchResult.t)
  : SE World jsstring :=
  let formattedContext := formatContextForPrompt context in
  let userPrompt := buildUserPrompt query formattedContext in
  invokeClaude userPrompt.

(** [generate(query)]: retrieval runs without a category. *)
Definition generate (retrieveConfig : RetrieveConfig)
  (embedConfig : EmbedConfig) (db : Database) (query : jsstring)
  : SE World GenerateResult.t :=
  (retrieveResult <-
     tryCatch
       (retrieve generateEmbedding cosine_distance indexScan queryError
          retrieveConfig embedConfig db query None)
       (fun error w =>
          (Ok (RetrieveResult.mk query []), warnRetrievalFailed w)) ;;
   response <- generateResponse query (RetrieveResult.results retrieveResult) ;;
   ret (GenerateResult.mk query response
          (RetrieveResult.results retrieveResult)
          (Z.of_nat (List.length (RetrieveResult.results retrieveResult)))))%se.

End Generation.

Arguments generateResponse {World} invokeClaude query context.
Arguments generate {World} generateEmbedding cosine_distance indexScan
  queryError invokeClaude warnRetrievalFailed retrieveConfig embedConfig db
  query.

(* ------------------------------------------------------------------ *)
(** ** database.ts: getDocumentById *)

(** [getDocumentById(id)]: the first row of [SELECT ... WHERE id = $1] on
    the committed tables, or [null]. *)
Definition getDocumentById (id : Z) (db : Database) : option DocumentRow.t :=
  match filter (fun d => DocumentRow.id d =? id) (document (committed db)) with
  | [] => None
  | row :: _ => Some row
  end.

(* ------------------------------------------------------------------ *)
(** ** ingest.ts *)

Section Paths.

(** [path.dirname] and the code unit of [path.sep]. *)
Variable path_dirname : jsstring -> jsstring.
Variable path_sep : N.

Definition extractCategory (relativePath : jsstring) : jsstring :=
  let dir := path_dirname relativePath in
  if jsstring_eqb dir (JSString.lit ".") || jsstring_eqb dir []
  then JSString.lit "general"
  else
    let parts := String_split path_sep dir in
    match parts with
    | part :: _ => part
    | [] => []
    end.

End Paths.

(** A [Map] with string keys, in insertion order. *)
Definition JSMap (V : Type) : Type := list (jsstring * V).

Fixpoint Map_get {V : Type} (m : JSMap V) (key : jsstring) : option V :=
  match m with
  | [] => None
  | (k, v) :: m' => if jsstring_eqb k key then Some v else Map_get m' key
  end.

Fixpoint Map_set {V : Type} (m : JSMap V) (key : jsstring) (value : V)
  : JSMap V :=
  match m with
  | [] => [(key, value)]
  | (k, v) :: m' =>
      if jsstring_eqb k key then (k, value) :: m'
      else (k, v) :: Map_set m' key value
  end.

(** One iteration of the first loop of [buildDocumentInputs];
    [existing.push(chunk)] grows the array held by the map. *)
Definition buildDocumentInputs_body
  (chunksByFilePath : JSMap (list EmbeddedChunk.t)) (chunk : EmbeddedChunk.t)
  : JSMap (list EmbeddedChunk.t) :=
  let filePath := Chunk.filePath (EmbeddedChunk.metadata chunk) in
  match Map_get chunksByFilePath filePath with
  | Some existing => Map_set chunksByFilePath filePath (existing ++ [chunk])
  | None => Map_set chunksByFilePath filePath [chunk]
  end.

Definition toChunkInput (chunk : EmbeddedChunk.t) : DocumentChunkInput.t :=
  DocumentChunkInput.mk (EmbeddedChunk.content chunk)
    (Chunk.chunkIndex (EmbeddedChunk.metadata chunk))
    (Chunk.startOffset (EmbeddedChunk.metadata chunk))
    (Chunk.endOffset (EmbeddedChunk.metadata chunk))
    (EmbeddedChunk.embedding chunk).

Definition buildDocumentInputs (documents : list Document.t)
  (embeddedChunks : list EmbeddedChunk.t) : list DocumentWithChunksInput.t :=
  let chunksByFilePath :=
    fold_left buildDocumentInputs_body embeddedChunks [] in
  filter
    (fun doc =>
       Z.of_nat (List.length (DocumentWithChunksInput.chunks doc)) >? 0)
    (map (fun document =>
            let docChunks :=
              match Map_get chunksByFilePath (Document.filePath document) with
              | Some chunks => chunks
              | None => []
              end in
            DocumentWithChunksInput.mk
              (DocumentInput.mk (Document.content document)
                 (Document.category document) (Document.filePath document))
              (map toChunkInput docChunks))
         documents).

(** Computations on the provider and the database together. *)
Definition onWorld {W D A : Type} (m : SE W A) : SE (W * D) A :=
  fun s => let (r, w') := m (fst s) in (r, (w', snd s)).

Definition onDatabase {W D A : Type} (m : SE D A) : SE (W * D) A :=
  fun s => let (r, d') := m (snd s) in (r, (fst s, d')).

Definition fromResult {St A : Type} (r : result A) : SE St A :=
  fun s => (r, s).

Section Ingest.

Variable World : Type.
Variable generateEmbedding : jsstring -> jsstring -> SE World vector.
Variable createMarkdownSplitter : ChunkConfig -> result Splitter.
Variable rejects : Tables -> Insert -> bool.

(** The file system: [fs.existsSync] and [loadDocuments] on the resolved
    docs directory; reading may throw. *)
Variable existsSync : jsstring -> bool.
Variable loadDocuments : jsstring -> result (list Document.t).

(** [getDocsDirectory]: [DOCS_DIRECTORY] unset or empty throws. *)
Definition getDocsDirectory (DOCS_DIRECTORY : option jsstring)
  : result jsstring :=
  match DOCS_DIRECTORY with
  | None | Some [] =>
      Err (Error "DOCS_DIRECTORY env var is required to run ingest.")
  | Some docsDirectory => Ok docsDirectory
  end.

(** [ingest()]; the environment ([DOCS_DIRECTORY] and the two
    configurations) is an argument. *)
Definition ingest (DOCS_DIRECTORY : option jsstring)
  (chunkConfig : ChunkConfig) (embedConfig : EmbedConfig)
  : SE (World * Database) (list Document.t) :=
  (docsDir <- fromResult (getDocsDirectory DOCS_DIRECTORY) ;;
   if negb (existsSync docsDir) then ret []
   else
     documents <- fromResult (loadDocuments docsDir) ;;
     if Z.of_nat (List.length documents) =? 0 then ret []
     else
       chunks <- fromResult
                   (chunkDocuments createMarkdownSplitter chunkConfig documents) ;;
       if Z.of_nat (List.length chunks) =? 0 then ret documents
       else
         embeddedChunks <- onWorld (embedChunks generateEmbedding embedConfig
                                      chunks) ;;
         let docsToInsert := buildDocumentInputs documents embeddedChunks in
         onDatabase (insertDocuments rejects docsToInsert) ;;;
         ret documents)%se.

End Ingest.

Arguments ingest {World} generateEmbedding createMarkdownSplitter rejects
  existsSync loadDocuments DOCS_DIRECTORY chunkConfig embedConfig.

(* ------------------------------------------------------------------ *)
(** ** Fragments that occur in document order *)

(** [placedInOrder text overlap previousEnd frags positions]: each fragment
    occurs in [text] at its position, which is not before the end of the
    previous fragment (initially [previousEnd]) minus [overlap]. *)
Inductive placedInOrder (text : jsstring) (chunkOverlap : Z)
  : Z -> list jsstring -> list Z -> Prop :=
| placed_nil previousEnd : placedInOrder text chunkOverlap previousEnd [] []
| placed_cons previousEnd frag frags position positions :
    occursAt text frag position ->
    previousEnd - chunkOverlap <= position ->
    placedInOrder text chunkOverlap (position + JSString.length frag)
      frags positions ->
    placedInOrder text chunkOverlap previousEnd (frag :: frags)
      (position :: positions).

(** Both scores of an evaluation are from 1 to 5. *)
Definition scoresInRange (evaluation : ChunkEvaluation.t) : Prop :=
  1 <= ChunkEvaluation.relevance evaluation <= 5 /\
  1 <= ChunkEvaluation.sufficiency evaluation <= 5.

(* ------------------------------------------------------------------ *)
(** ** Concrete inputs for the further examples *)

Definition doc_blank : Document.t :=
  Document.mk (JSString.lit "empty.md") (JSString.lit "   ")
    (JSString.lit "general").

(** A command line without options. *)
Definition args_plain : list jsstring :=
  [JSString.lit "node"; JSString.lit "retrieve.js"; JSString.lit "packing";
   JSString.lit "slips"].

(** A parser that accepts exactly the text ["{x}"], and a [Number] that
    reads every string as 3. *)
Definition sampleJSON_parse (text : jsstring) : result Json :=
  if jsstring_eqb text (JSString.lit "{x}")
  then Ok (JObject
             [(JSString.lit "relevance", JNumber (Finite (7 # 1)));
              (JSString.lit "sufficiency", JString (JSString.lit "3"));
              (JSString.lit "reasoning", JString (JSString.lit " close "))])
  else Err (Error "Unexpected token").

Definition sampleNumber (value : option Json) : JSNumber :=
  match value with
  | Some (JString _) => Finite (3 # 1)
  | _ => NaN
  end.

(** A judge that answers with prose around the JSON. *)
Definition chattyJudge : jsstring -> SearchResult.t -> SE nat jsstring :=
  fun _ chunk calls =>
    if SearchResult.chunkIndex chunk =? 1
    then (Err (Error "ThrottlingException"), S calls)
    else (Ok (JSString.lit "Here it is: {x} Thanks."), S calls).

(** A provider set to return embeddings of dimension 256. *)
Definition shortEmbedding : jsstring -> jsstring -> SE nat vector :=
  fun _ _ calls => (Ok (repeat 1%Q 256), S calls).

Definition failingEmbedding : jsstring -> jsstring -> SE nat vector :=
  fun _ _ calls => (Err (Error "AccessDeniedException"), S calls).

Definition sampleClaude : jsstring -> SE nat jsstring :=
  fun _ calls => (Ok (JSString.lit "I do not know."), S calls).

(** A document with two chunks whose embeddings are [axis 0] and
    [axis 1]. *)
Definition input_axes : DocumentWithChunksInput.t :=
  DocumentWithChunksInput.mk
    (DocumentInput.mk (JSString.lit "A. B.") (JSString.lit "shipping")
       (JSString.lit "shipping/a.md"))
    [DocumentChunkInput.mk (JSString.lit "A.") 0 0 2 (axis 0);
     DocumentChunkInput.mk (JSString.lit "B.") 1 3 5 (axis 1)].

Definition embedded_a0 : EmbeddedChunk.t :=
  EmbeddedChunk.mk (JSString.lit "A.")
    (Chunk.mkMetadata (JSString.lit "a.md") 0 0 2) [1%Q].
Definition embedded_b0 : EmbeddedChunk.t :=
  EmbeddedChunk.mk (JSString.lit "B.")
    (Chunk.mkMetadata (JSString.lit "b.md") 0 0 2) [2%Q].
Definition embedded_a1 : EmbeddedChunk.t :=
  EmbeddedChunk.mk (JSString.lit "C.")
    (Chunk.mkMetadata (JSString.lit "a.md") 1 3 5) [3%Q].
Definition docs_ab : list Document.t :=
  [Document.mk (JSString.lit "a.md") (JSString.lit "A. C.")
     (JSString.lit "general");
   Document.mk (JSString.lit "b.md") (JSString.lit "B.")
     (JSString.lit "general")].

(* ================================================================== *)
(** * Properties *)

(* ------------------------------------------------------------------ *)
(** ** Strings: length, startsWith, indexOf *)

Lemma length_nonneg (s : jsstring) : 0 <= JSString.length s.
Proof. unfold JSString.length. lia. Qed.

Lemma length_app (a b : jsstring) :
  JSString.length (a ++ b) = JSString.length a + JSString.length b.
Proof. unfold JSString.length. rewrite List.length_app. lia. Qed.

Lemma length_zero_nil (s : jsstring) : JSString.length s = 0 -> s = [].
Proof. destruct s; [reflexivity | unfold JSString.length; simpl; lia]. Qed.

Lemma startsWith_iff (s search : jsstring) :
  JSString.startsWith s search = true <-> exists post, s = search ++ post.
Proof.
  revert s. induction search as [|a search IH]; intros s; simpl.
  - split; [intros _; exists s; reflexivity | reflexivity].
  - destruct s as [|b s].
    + split; [discriminate | intros [post H]; discriminate].
    + rewrite andb_true_iff, N.eqb_eq, IH. split.
      * intros [-> [post ->]]. exists post. reflexivity.
      * intros [post H]. injection H as -> ->. split; [reflexivity | eauto].
Qed.

(** Two decompositions of one text with prefixes of the same length. *)
Lemma app_eq_same_length (pre pre' rest rest' : jsstring) :
  pre ++ rest = pre' ++ rest' ->
  JSString.length pre = JSString.length pre' ->
  pre = pre' /\ rest = rest'.
Proof.
  unfold JSString.length. revert pre'.
  induction pre as [|a pre IH]; intros [|b pre'] H L; simpl in *;
    try lia; [auto|].
  injection H as -> H. destruct (IH pre' H) as [-> ->]; [lia | auto].
Qed.

Lemma occursAt_prefix_iff (pre s frag : jsstring) :
  occursAt (pre ++ s) frag (JSString.length pre) <->
  JSString.startsWith s frag = true.
Proof.
  rewrite startsWith_iff. split.
  - intros (pre' & post & H & L).
    destruct (app_eq_same_length pre pre' s (frag ++ post) H) as [_ ->];
      [congruence | eauto].
  - intros [post ->]. exists pre, post. auto.
Qed.

Lemma occursAt_range (text frag : jsstring) (i : Z) :
  occursAt text frag i ->
  0 <= i /\ i + JSString.length frag <= JSString.length text.
Proof.
  intros (pre & post & -> & <-). rewrite !length_app.
  pose proof (length_nonneg pre). pose proof (length_nonneg post). lia.
Qed.

(** What the scan returns, for a text [pre ++ s] scanned from [length pre]. *)
Lemma scanFrom_spec (s : jsstring) :
  forall (pre search : jsstring),
    let k := JSString.length pre in
    let r := JSString.scanFrom s search k in
    (r = -1 /\ noOccurrenceFrom (pre ++ s) search k) \/
    firstOccurrenceFrom (pre ++ s) search k r.
Proof.
  induction s as [|c s IH]; intros pre search; cbn zeta; simpl.
  - destruct (JSString.startsWith [] search) eqn:E.
    + right. split; [lia|]. split; [|intros; lia].
      apply occursAt_prefix_iff. assumption.
    + left. split; [reflexivity|]. intros j Hj Hocc.
      pose proof (occursAt_range _ _ _ Hocc) as [_ Hr].
      pose proof (length_nonneg search). rewrite length_app in Hr.
      change (JSString.length []) with 0 in Hr.
      assert (j = JSString.length pre) by lia. subst j.
      apply occursAt_prefix_iff in Hocc. congruence.
  - destruct (JSString.startsWith (c :: s) search) eqn:E.
    + right. split; [lia|]. split; [|intros; lia].
      apply occursAt_prefix_iff. assumption.
    + assert (Hk : JSString.length pre + 1 = JSString.length (pre ++ [c])).
      { rewrite length_app. reflexivity. }
      assert (Ht : pre ++ c :: s = (pre ++ [c]) ++ s).
      { rewrite <- app_assoc. reflexivity. }
      assert (Hno : ~ occursAt (pre ++ c :: s) search (JSString.length pre)).
      { intros Hocc. apply occursAt_prefix_iff in Hocc. congruence. }
      rewrite Hk, Ht.
      destruct (IH (pre ++ [c]) search) as [[Hr Hnone] | (Hle & Hocc & Hmin)].
      * left. split; [assumption|]. intros j Hj Hocc.
        destruct (Z.eq_dec j (JSString.length pre)) as [-> | Hne].
        -- apply Hno. rewrite Ht. assumption.
        -- apply (Hnone j); [lia | assumption].
      * right. split; [lia|]. split; [assumption|].
        intros j Hj Hocc'.
        destruct (Z.eq_dec j (JSString.length pre)) as [-> | Hne].
        -- apply Hno. rewrite Ht. assumption.
        -- apply (Hmin j); [lia | assumption].
Qed.

Lemma firstn_length_Z (s : jsstring) (n : Z) :
  0 <= n <= JSString.length s ->
  JSString.length (firstn (Z.to_nat n) s) = n.
Proof.
  unfold JSString.length. intros H. rewrite List.length_firstn. lia.
Qed.

(** [indexOf] from a position inside the text: [-1] and no occurrence at or
    after the position, or the first occurrence at or after it. *)
Lemma indexOf_spec (s search : jsstring) (position : Z) :
  0 <= position <= JSString.length s ->
  (JSString.indexOf s search position = -1 /\
   noOccurrenceFrom s search position) \/
  firstOccurrenceFrom s search position (JSString.indexOf s search position).
Proof.
  intros H. unfold JSString.indexOf.
  replace (Z.min (Z.max position 0) (JSString.length s)) with position by lia.
  pose proof (scanFrom_spec (skipn (Z.to_nat position) s)
                (firstn (Z.to_nat position) s) search) as S.
  cbn zeta in S. rewrite firstn_skipn, firstn_length_Z in S by assumption.
  exact S.
Qed.

(** [indexOf] of a non-empty string from a position past the end. *)
Lemma indexOf_past_end (s search : jsstring) (position : Z) :
  JSString.length s < position -> search <> [] ->
  JSString.indexOf s search position = -1 /\
  noOccurrenceFrom s search position.
Proof.
  intros H Hne. split.
  - unfold JSString.indexOf.
    replace (Z.min (Z.max position 0) (JSString.length s))
      with (JSString.length s) by lia.
    unfold JSString.length. rewrite Nat2Z.id, skipn_all.
    destruct search; [congruence | reflexivity].
  - intros j Hj Hocc. apply occursAt_range in Hocc.
    pose proof (length_nonneg search). lia.
Qed.

(** The two cases together: every search the resolver makes. *)
Lemma indexOf_cases (s search : jsstring) (position : Z) :
  0 <= position ->
  position <= JSString.length s \/ search <> [] ->
  (JSString.indexOf s search position = -1 /\
   noOccurrenceFrom s search position) \/
  firstOccurrenceFrom s search position (JSString.indexOf s search position).
Proof.
  intros H0 H.
  destruct (Z_le_gt_dec position (JSString.length s)) as [Hle | Hgt].
  - apply indexOf_spec. lia.
  - destruct H as [H | H]; [lia|]. left. apply indexOf_past_end; [lia | assumption].
Qed.

Lemma indexOf_lower (s search : jsstring) (position : Z) :
  -1 <= JSString.indexOf s search position.
Proof.
  unfold JSString.indexOf.
  set (start := Z.min (Z.max position 0) (JSString.length s)).
  assert (H0 : 0 <= start <= JSString.length s).
  { pose proof (length_nonneg s). subst start. lia. }
  pose proof (scanFrom_spec (skipn (Z.to_nat start) s)
                (firstn (Z.to_nat start) s) search) as S.
  cbn zeta in S. rewrite firstn_length_Z in S by assumption.
  destruct S as [[-> _] | [Hle _]]; lia.
Qed.

Lemma firstOccurrence_unique (text frag : jsstring) (from i j : Z) :
  firstOccurrenceFrom text frag from i ->
  firstOccurrenceFrom text frag from j -> i = j.
Proof.
  intros (Hi & Oi & Mi) (Hj & Oj & Mj).
  destruct (Z.lt_trichotomy i j) as [L | [E | L]]; [|assumption|].
  - exfalso. apply (Mj i); [lia | assumption].
  - exfalso. apply (Mi j); [lia | assumption].
Qed.

Lemma firstOccurrence_not_none (text frag : jsstring) (from i : Z) :
  firstOccurrenceFrom text frag from i ->
  noOccurrenceFrom text frag from -> False.
Proof. intros (Hi & Oi & _) Hn. exact (Hn i Hi Oi). Qed.

Lemma firstOccurrence_nonneg (text frag : jsstring) (from i : Z) :
  firstOccurrenceFrom text frag from i -> 0 <= i.
Proof. intros (_ & O & _). apply occursAt_range in O. lia. Qed.

(* ------------------------------------------------------------------ *)
(** ** findChunkOffsets *)

Section Resolver.

Variable content : jsstring.
Variable chunkOverlap : Z.

Local Abbreviation body := (findChunkOffsets_body content chunkOverlap).

(** The loop only ever appends to [offsets]. *)
Lemma findChunkOffsets_loop_acc (chunks : list jsstring) :
  forall (acc : list RawOffsets.t) (previousEnd : Z),
    fold_left body chunks (acc, previousEnd) =
    (acc ++ fst (fold_left body chunks ([], previousEnd)),
     snd (fold_left body chunks ([], previousEnd))).
Proof.
  induction chunks as [|chunk chunks IH]; intros acc previousEnd; simpl.
  - rewrite app_nil_r. reflexivity.
  - rewrite IH.
    rewrite (IH [_]). simpl. rewrite <- app_assoc. reflexivity.
Qed.

(** One iteration: the start offset it picks is the one the specification
  describes. *)
Lemma findChunkOffsets_body_resolves
  (acc : list RawOffsets.t) (previousEnd : Z) (chunk : jsstring) :
  Z.max 0 (previousEnd - chunkOverlap) <= JSString.length content
  \/ chunk <> [] ->
  exists start,
    resolvedStart content chunk (Z.max 0 (previousEnd - chunkOverlap)) start
    /\ body (acc, previousEnd) chunk =
       (acc ++ [RawOffsets.mk start
                  (Z.min (start + JSString.length chunk)
                         (JSString.length content))],
        Z.min (start + JSString.length chunk) (JSString.length content)).
Proof.
  intros Hpre. unfold findChunkOffsets_body.
  set (searchStart := Z.max 0 (previousEnd - chunkOverlap)) in *.
  assert (H0 : 0 <= searchStart) by (subst searchStart; lia).
  destruct (indexOf_cases content chunk searchStart H0 Hpre)
    as [[E Hnone] | Hfirst].
  - rewrite E. simpl (-1 =? -1). simpl andb.
    destruct (searchStart >? 0) eqn:G.
    + assert (Hz : 0 <= 0 <= JSString.length content)
        by (pose proof (length_nonneg content); lia).
      destruct (indexOf_spec content chunk 0 Hz) as [[E0 Hnone0] | Hfirst0].
      * rewrite E0. simpl (-1 =? -1). exists searchStart. split; [|reflexivity].
        apply start_placeholder; auto.
      * pose proof (firstOccurrence_nonneg _ _ _ _ Hfirst0) as Hnn.
        destruct (Z.eqb_spec (JSString.indexOf content chunk 0) (-1)); [lia|].
        eexists. split; [|reflexivity].
        apply start_unanchored; [assumption | lia | assumption].
    + simpl (-1 =? -1). exists searchStart. split; [|reflexivity].
      apply start_placeholder; [assumption | lia].
  - pose proof (firstOccurrence_nonneg _ _ _ _ Hfirst) as Hnn.
    destruct (Z.eqb_spec (JSString.indexOf content chunk searchStart) (-1));
      [lia|].
    simpl andb. cbv iota.
    destruct (Z.eqb_spec (JSString.indexOf content chunk searchStart) (-1));
      [lia|].
    eexists. split; [|reflexivity]. apply start_anchored. assumption.
Qed.

Lemma min_le_length (a : Z) : Z.min a (JSString.length content) <= JSString.length content.
Proof. lia. Qed.

(** The whole loop, from any [previousEnd]. *)
Lemma findChunkOffsets_loop_resolves (chunks : list jsstring) :
  forall previousEnd,
    (0 <= chunkOverlap /\ previousEnd <= JSString.length content)
    \/ Forall (fun c => c <> []) chunks ->
    resolved content chunkOverlap previousEnd chunks
      (fst (fold_left body chunks ([], previousEnd))).
Proof.
  induction chunks as [|chunk chunks IH]; intros previousEnd Hpre;
    cbn [fold_left].
  - constructor.
  - destruct (findChunkOffsets_body_resolves [] previousEnd chunk)
      as (start & Hstart & Hbody).
    { destruct Hpre as [[Hov Hle] | Hall].
      - left. pose proof (length_nonneg content). lia.
      - right. inversion Hall. assumption. }
    rewrite Hbody, findChunkOffsets_loop_acc. simpl.
    constructor; [assumption|]. apply IH.
    destruct Hpre as [[Hov Hle] | Hall].
    + left. split; [assumption | apply min_le_length].
    + right. inversion Hall. assumption.
Qed.

Lemma resolvedStart_unique (frag : jsstring) (searchStart a b : Z) :
  resolvedStart content frag searchStart a ->
  resolvedStart content frag searchStart b -> a = b.
Proof.
  intros Ha Hb.
  destruct Ha as [a Fa | a Na Ga Fa | Na Pa];
    destruct Hb as [b Fb | b Nb Gb Fb | Nb Pb].
  - exact (firstOccurrence_unique _ _ _ _ _ Fa Fb).
  - exfalso. exact (firstOccurrence_not_none _ _ _ _ Fa Nb).
  - exfalso. exact (firstOccurrence_not_none _ _ _ _ Fa Nb).
  - exfalso. exact (firstOccurrence_not_none _ _ _ _ Fb Na).
  - exact (firstOccurrence_unique _ _ _ _ _ Fa Fb).
  - exfalso. exact (firstOccurrence_not_none _ _ _ _ Fa (Pb Ga)).
  - exfalso. exact (firstOccurrence_not_none _ _ _ _ Fb Na).
  - exfalso. exact (firstOccurrence_not_none _ _ _ _ Fb (Pa Gb)).
  - reflexivity.
Qed.

Lemma resolved_unique (chunks : list jsstring) :
  forall previousEnd offsets offsets',
    resolved content chunkOverlap previousEnd chunks offsets ->
    resolved content chunkOverlap previousEnd chunks offsets' ->
    offsets = offsets'.
Proof.
  induction chunks as [|chunk chunks IH]; intros previousEnd offsets offsets' H H';
    inversion H; subst; inversion H'; subst; [reflexivity|].
  match goal with
  | A : resolvedStart _ _ _ ?x, B : resolvedStart _ _ _ ?y |- _ =>
      assert (x = y) by (eapply resolvedStart_unique; eassumption); subst
  end.
  f_equal. eapply IH; eassumption.
Qed.

Lemma findChunkOffsets_body_push
  (acc : list RawOffsets.t) (previousEnd : Z) (chunk : jsstring) :
  exists o e, body (acc, previousEnd) chunk = (acc ++ [o], e).
Proof. unfold findChunkOffsets_body. eexists. eexists. reflexivity. Qed.

Lemma findChunkOffsets_loop_length (chunks : list jsstring) :
  forall acc previousEnd,
    List.length (fst (fold_left body chunks (acc, previousEnd))) =
    (List.length acc + List.length chunks)%nat.
Proof.
  induction chunks as [|chunk chunks IH]; intros acc previousEnd;
    cbn [fold_left].
  - simpl. lia.
  - destruct (findChunkOffsets_body_push acc previousEnd chunk) as (o & e & ->).
    rewrite IH, List.length_app. simpl. lia.
Qed.

Lemma findChunkOffsets_length (chunks : list jsstring) :
  List.length (findChunkOffsets content chunks chunkOverlap) = List.length chunks.
Proof. unfold findChunkOffsets. apply findChunkOffsets_loop_length. Qed.

End Resolver.

(** The offsets [findChunkOffsets] returns are resolved from
    [previousEnd = 0]. *)
Lemma findChunkOffsets_resolved
  (content : jsstring) (chunks : list jsstring) (chunkOverlap : Z) :
  0 <= chunkOverlap \/ Forall (fun c => c <> []) chunks ->
  resolved content chunkOverlap 0 chunks
    (findChunkOffsets content chunks chunkOverlap).
Proof.
  intros Hpre. apply findChunkOffsets_loop_resolves.
  destruct Hpre as [Hov | Hall]; [left | right; assumption].
  split; [assumption | apply length_nonneg].
Qed.

(** C1 — the offset resolver is the algorithm of the specification: for a
    non-negative [chunkOverlap] (or, for any [chunkOverlap], fragments that
    are all non-empty), [findChunkOffsets] returns one [{start,end}] pair per
    fragment, in order, where with [previousEnd] initially 0 each start is
    the first occurrence at or after [searchStart = max(0, previousEnd -
    chunkOverlap)], else (when [searchStart > 0]) the first occurrence from
    position 0, else [searchStart] itself, [end = min(start +
    fragment.length, content.length)] and [previousEnd] becomes [end]; and
    that list of pairs is the only one the algorithm allows. *)
Theorem findChunkOffsets_is_resolver
  (content : jsstring) (chunks : list jsstring) (chunkOverlap : Z) :
  0 <= chunkOverlap \/ Forall (fun c => c <> []) chunks ->
  resolved content chunkOverlap 0 chunks
    (findChunkOffsets content chunks chunkOverlap)
  /\ forall offsets,
       resolved content chunkOverlap 0 chunks offsets ->
       offsets = findChunkOffsets content chunks chunkOverlap.
Proof.
  intros Hpre.
  pose proof (findChunkOffsets_resolved content chunks chunkOverlap Hpre) as R.
  split; [exact R|].
  intros offsets H. eapply resolved_unique; eassumption.
Qed.

(* ------------------------------------------------------------------ *)
(** ** Strings: trimStart, trimEnd, trim, slice *)

Lemma trimStart_decompose (s : jsstring) :
  exists l, s = l ++ JSString.trimStart s /\ allWhiteSpace l.
Proof.
  induction s as [|c s (l & E & W)]; simpl.
  - exists []. split; reflexivity.
  - destruct (JSString.isWhiteSpace c) eqn:C.
    + exists (c :: l). split.
      * simpl. f_equal. exact E.
      * unfold allWhiteSpace. simpl. rewrite C. exact W.
    + exists []. split; reflexivity.
Qed.

Lemma trimStart_startsBlack (s : jsstring) : startsBlack (JSString.trimStart s).
Proof.
  induction s as [|c s IH]; simpl; [exact I|].
  destruct (JSString.isWhiteSpace c) eqn:C; [exact IH | exact C].
Qed.

Lemma trimStart_fixed (s : jsstring) : startsBlack s -> JSString.trimStart s = s.
Proof. destruct s as [|c s]; simpl; [reflexivity | intros ->; reflexivity]. Qed.

Lemma trimStart_skips (l s : jsstring) :
  allWhiteSpace l -> JSString.trimStart (l ++ s) = JSString.trimStart s.
Proof.
  unfold allWhiteSpace. induction l as [|c l IH]; simpl; [reflexivity|].
  intros H. apply andb_true_iff in H as [-> H]. exact (IH H).
Qed.

Lemma allWhiteSpace_rev (l : jsstring) : allWhiteSpace l -> allWhiteSpace (rev l).
Proof.
  unfold allWhiteSpace. rewrite !forallb_forall. intros H x Hx.
  apply H. apply in_rev. exact Hx.
Qed.

Lemma trimEnd_decompose (s : jsstring) :
  exists r, s = JSString.trimEnd s ++ r /\ allWhiteSpace r.
Proof.
  destruct (trimStart_decompose (rev s)) as (l & E & W).
  exists (rev l). split; [|apply allWhiteSpace_rev; exact W].
  unfold JSString.trimEnd. rewrite <- rev_app_distr, <- E, rev_involutive.
  reflexivity.
Qed.

Lemma trimEnd_skips (s r : jsstring) :
  allWhiteSpace r -> JSString.trimEnd (s ++ r) = JSString.trimEnd s.
Proof.
  intros W. unfold JSString.trimEnd. rewrite rev_app_distr, trimStart_skips;
    [reflexivity | apply allWhiteSpace_rev; exact W].
Qed.

Lemma trimEnd_endsBlack (s : jsstring) : endsBlack (JSString.trimEnd s).
Proof.
  unfold endsBlack, JSString.trimEnd. rewrite rev_involutive.
  apply trimStart_startsBlack.
Qed.

Lemma trimEnd_fixed (s : jsstring) : endsBlack s -> JSString.trimEnd s = s.
Proof.
  intros H. unfold JSString.trimEnd. rewrite trimStart_fixed by exact H.
  apply rev_involutive.
Qed.

Lemma endsBlack_app (l m : jsstring) : m <> [] -> endsBlack m -> endsBlack (l ++ m).
Proof.
  unfold endsBlack. rewrite rev_app_distr. intros Hne H.
  destruct (rev m) as [|c m'] eqn:E.
  - exfalso. apply Hne. rewrite <- (rev_involutive m), E. reflexivity.
  - exact H.
Qed.

Lemma startsBlack_prefix (m r : jsstring) : m <> [] -> startsBlack (m ++ r) -> startsBlack m.
Proof. destruct m; [congruence | simpl; auto]. Qed.

(** A string with some black character splits into its leading white space,
    its trimmed content and its trailing white space. *)
Lemma trim_decompose (s : jsstring) :
  JSString.trim s <> [] ->
  exists l r,
    s = l ++ JSString.trim s ++ r /\
    JSString.trimStart s = JSString.trim s ++ r /\
    JSString.trimEnd s = l ++ JSString.trim s.
Proof.
  intros Hne.
  destruct (trimStart_decompose s) as (l & El & Wl).
  destruct (trimEnd_decompose (JSString.trimStart s)) as (r & Er & Wr).
  fold (JSString.trim s) in Er.
  exists l, r. split; [rewrite <- Er; exact El|]. split; [exact Er|].
  rewrite El at 1. rewrite Er at 1.
  rewrite app_assoc, trimEnd_skips by exact Wr.
  apply trimEnd_fixed. apply endsBlack_app; [exact Hne|].
  apply trimEnd_endsBlack.
Qed.

Lemma trim_idempotent (s : jsstring) :
  JSString.trim (JSString.trim s) = JSString.trim s.
Proof.
  destruct (list_eq_dec N.eq_dec (JSString.trim s) []) as [E | Hne].
  - rewrite E. reflexivity.
  - destruct (trim_decompose s Hne) as (l & r & _ & Es & _).
    unfold JSString.trim at 1.
    rewrite (trimStart_fixed (JSString.trim s)).
    + apply trimEnd_fixed. apply trimEnd_endsBlack.
    + apply (startsBlack_prefix _ r Hne). rewrite <- Es.
      apply trimStart_startsBlack.
Qed.

(** The slice between the ends of a middle part is that part. *)
Lemma slice_middle (a m b : jsstring) :
  JSString.slice (a ++ m ++ b) (JSString.length a)
    (JSString.length a + JSString.length m) = m.
Proof.
  unfold JSString.slice. cbv zeta.
  pose proof (length_nonneg a). pose proof (length_nonneg m).
  pose proof (length_nonneg b).
  rewrite !length_app.
  destruct (Z.ltb_spec (JSString.length a) 0); [lia|].
  destruct (Z.ltb_spec (JSString.length a + JSString.length m) 0); [lia|].
  replace (Z.min (JSString.length a)
             (JSString.length a + (JSString.length m + JSString.length b)))
    with (JSString.length a) by lia.
  replace (Z.max
             (Z.min (JSString.length a + JSString.length m)
                (JSString.length a + (JSString.length m + JSString.length b))
              - JSString.length a) 0)
    with (JSString.length m) by lia.
  unfold JSString.length. rewrite !Nat2Z.id.
  rewrite skipn_app, skipn_all, Nat.sub_diag. simpl.
  rewrite firstn_app, firstn_all, Nat.sub_diag. simpl.
  apply app_nil_r.
Qed.

(* ------------------------------------------------------------------ *)
(** ** chunkDocument: what the second loop builds *)

Lemma nonBlank_nonempty (s : jsstring) : nonBlank s = true -> s <> [].
Proof. intros H ->. discriminate H. Qed.

Lemma nonBlank_trim (s : jsstring) : nonBlank s = true -> JSString.trim s <> [].
Proof. unfold nonBlank. intros H E. rewrite E in H. discriminate H. Qed.

Lemma filter_nonBlank_Forall (rawSplits : list jsstring) :
  Forall (fun s => nonBlank s = true) (filter nonBlank rawSplits).
Proof. apply Forall_forall. intros s H. apply filter_In in H. tauto. Qed.

Section ChunkLoop.

Variables content filePath : jsstring.

Lemma chunkDocument_loop_from (rest : list jsstring) :
  forall (pre : list jsstring) (opre orest : list RawOffsets.t)
         (acc : list Chunk.t),
    List.length opre = List.length pre ->
    List.length orest = List.length rest ->
    Forall (fun s => nonBlank s = true) rest ->
    forOf (chunkDocument_body content filePath (pre ++ rest) (opre ++ orest))
          (seq (List.length pre) (List.length rest))
          (acc, Z.of_nat (List.length pre)) =
    Ok (acc ++ chunksFrom content filePath (Z.of_nat (List.length pre)) rest orest,
        Z.of_nat (List.length pre + List.length rest)).
Proof.
  induction rest as [|s rest IH]; intros pre opre orest acc Lp Lr Hall.
  - simpl. rewrite app_nil_r, Nat.add_0_r. reflexivity.
  - destruct orest as [|o orest]; [discriminate Lr|].
    inversion Hall as [|? ? Hs Hrest]; subst.
    cbn [List.length seq forOf]. unfold chunkDocument_body at 1.
    rewrite nth_error_app2, Nat.sub_diag by lia. cbn [nth_error].
    unfold nonBlank in Hs.
    destruct (Z.eqb_spec (JSString.length (JSString.trim s)) 0) as [E|_];
      [rewrite E in Hs; discriminate Hs|].
    rewrite nth_error_app2, Lp, Nat.sub_diag by lia. cbn [nth_error bindR].
    specialize (IH (pre ++ [s]) (opre ++ [o]) orest
                  (acc ++ [pushedChunk content filePath
                             (Z.of_nat (List.length pre)) s o])).
    rewrite <- !app_assoc in IH. cbn [app] in IH.
    rewrite !List.length_app in IH. cbn [List.length] in IH.
    replace (List.length pre + 1)%nat with (S (List.length pre)) in IH by lia.
    rewrite Nat2Z.inj_succ in IH. unfold Z.succ in IH.
    rewrite IH; [|lia | simpl in Lr; lia | exact Hrest].
    cbn [chunksFrom]. do 2 f_equal. lia.
Qed.

Lemma chunkDocument_loop (splits : list jsstring) (offsets : list RawOffsets.t) :
  List.length offsets = List.length splits ->
  Forall (fun s => nonBlank s = true) splits ->
  forOf (chunkDocument_body content filePath splits offsets)
        (seq 0 (List.length splits)) ([], 0) =
  Ok (chunksFrom content filePath 0 splits offsets,
      Z.of_nat (List.length splits)).
Proof.
  intros L Hall.
  exact (chunkDocument_loop_from splits [] [] offsets [] eq_refl L Hall).
Qed.

Lemma chunksFrom_lookup (splits : list jsstring) :
  forall (offsets : list RawOffsets.t) (k : Z) (i : nat) (c : Chunk.t),
    nth_error (chunksFrom content filePath k splits offsets) i = Some c ->
    exists s o,
      nth_error splits i = Some s /\ nth_error offsets i = Some o /\
      c = pushedChunk content filePath (k + Z.of_nat i) s o.
Proof.
  induction splits as [|s splits IH]; intros [|o offsets] k i c H;
    try (destruct i; discriminate H).
  destruct i as [|i]; simpl in H.
  - injection H as <-. exists s, o. rewrite Z.add_0_r. auto.
  - destruct (IH offsets (k + 1) i c H) as (s' & o' & Hs & Ho & ->).
    exists s', o'. repeat split; try assumption. f_equal. lia.
Qed.

Lemma chunksFrom_length (splits : list jsstring) :
  forall (offsets : list RawOffsets.t) (k : Z),
    List.length offsets = List.length splits ->
    List.length (chunksFrom content filePath k splits offsets) =
    List.length splits.
Proof.
  induction splits as [|s splits IH]; intros [|o offsets] k L;
    try discriminate L; simpl; [reflexivity|].
  rewrite IH; [reflexivity | simpl in L; lia].
Qed.

Lemma chunksFrom_chunkIndex (splits : list jsstring) :
  forall (offsets : list RawOffsets.t) (k : nat),
    map (fun c => Chunk.chunkIndex (Chunk.metadata c))
        (chunksFrom content filePath (Z.of_nat k) splits offsets) =
    map Z.of_nat
        (seq k (List.length
                  (chunksFrom content filePath (Z.of_nat k) splits offsets))).
Proof.
  induction splits as [|s splits IH]; intros [|o offsets] k; simpl;
    try reflexivity.
  f_equal. replace (Z.of_nat k + 1) with (Z.of_nat (S k)) by lia. apply IH.
Qed.

End ChunkLoop.

Section ChunkDocument.

Variable createMarkdownSplitter : ChunkConfig -> result Splitter.

Local Abbreviation chunkDocument' := (chunkDocument createMarkdownSplitter).

(** With a splitter passed in, [chunkDocument] in closed form. *)
Lemma chunkDocument_closed_form
  (document : Document.t) (config : ChunkConfig) (splitter : Splitter) :
  chunkDocument' document config (Some splitter) =
  if JSString.length (JSString.trim (Document.content document)) =? 0
  then Ok []
  else match splitter (Document.content document) with
       | Ok rawSplits => Ok (chunksOf document config rawSplits)
       | Err e => Err e
       end.
Proof.
  unfold chunkDocument, chunksOf. cbn [bindR].
  destruct (JSString.length (JSString.trim (Document.content document)) =? 0);
    [reflexivity|].
  destruct (splitter (Document.content document)) as [rawSplits | e];
    [|reflexivity].
  cbn [bindR].
  destruct (Z.eqb_spec (Z.of_nat (List.length (filter nonBlank rawSplits))) 0)
    as [E | _].
  - destruct (filter nonBlank rawSplits); [reflexivity | discriminate E].
  - rewrite chunkDocument_loop;
      [reflexivity | apply findChunkOffsets_length
       | apply filter_nonBlank_Forall].
Qed.

(** Without a splitter, the default one is built first. *)
Lemma chunkDocument_default_splitter
  (document : Document.t) (config : ChunkConfig) :
  chunkDocument' document config None =
  match createMarkdownSplitter config with
  | Ok splitter => chunkDocument' document config (Some splitter)
  | Err e => Err e
  end.
Proof.
  unfold chunkDocument.
  destruct (createMarkdownSplitter config); reflexivity.
Qed.

(** Every successful call is one with some splitter, on a blank document
  or on the raw splits that splitter returned. *)
Lemma chunkDocument_Ok_inv
  (document : Document.t) (config : ChunkConfig) (splitter : option Splitter)
  (chunks : list Chunk.t) :
  chunkDocument' document config splitter = Ok chunks ->
  (JSString.trim (Document.content document) = [] /\ chunks = []) \/
  (JSString.trim (Document.content document) <> [] /\
   exists sp rawSplits,
     (splitter = Some sp \/
      splitter = None /\ createMarkdownSplitter config = Ok sp) /\
     sp (Document.content document) = Ok rawSplits /\
     chunks = chunksOf document config rawSplits).
Proof.
  assert (K : forall sp, chunkDocument' document config (Some sp) = Ok chunks ->
    (JSString.trim (Document.content document) = [] /\ chunks = []) \/
    (JSString.trim (Document.content document) <> [] /\
     exists rawSplits, sp (Document.content document) = Ok rawSplits /\
                       chunks = chunksOf document config rawSplits)).
  { intros sp. rewrite chunkDocument_closed_form.
    destruct (Z.eqb_spec
                (JSString.length (JSString.trim (Document.content document))) 0)
      as [E | Hne].
    - intros [= <-]. left. split; [apply length_zero_nil; exact E | reflexivity].
    - destruct (sp (Document.content document)) as [rawSplits | e];
        [|discriminate].
      intros [= <-]. right. split.
      + intros E. rewrite E in Hne. apply Hne. reflexivity.
      + exists rawSplits. auto. }
  destruct splitter as [sp|].
  - intros H. destruct (K sp H) as [L | (Hne & raw & Hs & ->)]; [left; exact L|].
    right. split; [exact Hne|]. exists sp, raw. auto.
  - rewrite chunkDocument_default_splitter.
    destruct (createMarkdownSplitter config) as [sp|e] eqn:C; [|discriminate].
    intros H. destruct (K sp H) as [L | (Hne & raw & Hs & ->)]; [left; exact L|].
    right. split; [exact Hne|]. exists sp, raw. auto.
Qed.

End ChunkDocument.

(* ------------------------------------------------------------------ *)
(** ** Bounds of the offsets *)

Lemma findChunkOffsets_body_nonneg (content : jsstring) (chunkOverlap : Z)
  (acc : list RawOffsets.t) (previousEnd : Z) (chunk : jsstring) :
  exists o e,
    findChunkOffsets_body content chunkOverlap (acc, previousEnd) chunk =
    (acc ++ [o], e) /\ 0 <= RawOffsets.startOffset o.
Proof.
  unfold findChunkOffsets_body. eexists. eexists. split; [reflexivity|].
  cbn [RawOffsets.startOffset].
  set (searchStart := Z.max 0 (previousEnd - chunkOverlap)).
  pose proof (indexOf_lower content chunk searchStart).
  pose proof (indexOf_lower content chunk 0).
  destruct ((JSString.indexOf content chunk searchStart =? -1)
            && (searchStart >? 0));
    match goal with |- context [?x =? -1] => destruct (Z.eqb_spec x (-1)) end;
    lia.
Qed.

Lemma findChunkOffsets_loop_nonneg (content : jsstring) (chunkOverlap : Z)
  (chunks : list jsstring) :
  forall acc previousEnd,
    Forall (fun o => 0 <= RawOffsets.startOffset o) acc ->
    Forall (fun o => 0 <= RawOffsets.startOffset o)
      (fst (fold_left (findChunkOffsets_body content chunkOverlap) chunks
              (acc, previousEnd))).
Proof.
  induction chunks as [|chunk chunks IH]; intros acc previousEnd Hacc;
    cbn [fold_left]; [exact Hacc|].
  destruct (findChunkOffsets_body_nonneg content chunkOverlap acc previousEnd chunk)
    as (o & e & -> & Ho).
  apply IH. apply Forall_app. split; [exact Hacc | constructor; auto].
Qed.

Lemma findChunkOffsets_start_nonneg (content : jsstring)
  (chunks : list jsstring) (chunkOverlap : Z) (o : RawOffsets.t) :
  In o (findChunkOffsets content chunks chunkOverlap) ->
  0 <= RawOffsets.startOffset o.
Proof.
  intros H.
  pose proof (findChunkOffsets_loop_nonneg content chunkOverlap chunks [] 0
                (Forall_nil _)) as F.
  rewrite Forall_forall in F. exact (F o H).
Qed.

Lemma trimStart_length_le (s : jsstring) :
  JSString.length (JSString.trimStart s) <= JSString.length s.
Proof.
  destruct (trimStart_decompose s) as (l & E & _).
  rewrite E at 2. rewrite length_app. pose proof (length_nonneg l). lia.
Qed.

Lemma pushedChunk_bounds (content filePath : jsstring) (k : Z)
  (s : jsstring) (o : RawOffsets.t) :
  0 <= RawOffsets.startOffset o ->
  let m := Chunk.metadata (pushedChunk content filePath k s o) in
  0 <= Chunk.startOffset m /\
  Chunk.startOffset m <= Chunk.endOffset m /\
  Chunk.endOffset m <= JSString.length content.
Proof.
  intros H. unfold pushedChunk. cbn.
  pose proof (trimStart_length_le s). pose proof (length_nonneg content). lia.
Qed.

(** C6 — every chunk returned by [chunkDocument] has
    [0 <= startOffset <= endOffset <= document.content.length], the length
    being that of the original, untrimmed text; this holds for every
    configuration and every splitter. *)
Theorem chunkDocument_offsets_in_bounds
  (createMarkdownSplitter : ChunkConfig -> result Splitter)
  (document : Document.t) (config : ChunkConfig) (splitter : option Splitter)
  (chunks : list Chunk.t) (c : Chunk.t) :
  chunkDocument createMarkdownSplitter document config splitter = Ok chunks ->
  In c chunks ->
  0 <= Chunk.startOffset (Chunk.metadata c) /\
  Chunk.startOffset (Chunk.metadata c) <= Chunk.endOffset (Chunk.metadata c) /\
  Chunk.endOffset (Chunk.metadata c) <= JSString.length (Document.content document).
Proof.
  intros H Hin.
  destruct (chunkDocument_Ok_inv _ _ _ _ _ H)
    as [[_ ->] | (_ & sp & raw & _ & _ & ->)]; [destruct Hin|].
  apply In_nth_error in Hin as [i Hi].
  apply chunksFrom_lookup in Hi as (s & o & _ & Ho & ->).
  apply pushedChunk_bounds.
  apply nth_error_In in Ho.
  exact (findChunkOffsets_start_nonneg _ _ _ _ Ho).
Qed.

(* ------------------------------------------------------------------ *)
(** ** Chunk indices *)

(** C7 — the [chunkIndex] values of the chunks returned by [chunkDocument]
    are exactly 0, 1, ..., n-1 in order, there is one chunk per raw split
    that is not blank (the discarded ones take no index), and a document
    whose trimmed content is empty yields zero chunks. *)
Theorem chunkDocument_chunkIndex_contiguous
  (createMarkdownSplitter : ChunkConfig -> result Splitter)
  (document : Document.t) (config : ChunkConfig) :
  (forall splitter chunks,
     chunkDocument createMarkdownSplitter document config splitter = Ok chunks ->
     map (fun c => Chunk.chunkIndex (Chunk.metadata c)) chunks =
     map Z.of_nat (seq 0 (List.length chunks)))
  /\ (forall sp rawSplits,
        JSString.trim (Document.content document) <> [] ->
        sp (Document.content document) = Ok rawSplits ->
        exists chunks,
          chunkDocument createMarkdownSplitter document config (Some sp)
          = Ok chunks /\
          List.length chunks = List.length (filter nonBlank rawSplits))
  /\ (forall sp,
        JSString.trim (Document.content document) = [] ->
        chunkDocument createMarkdownSplitter document config (Some sp) = Ok []).
Proof.
  split; [|split].
  - intros splitter chunks H.
    destruct (chunkDocument_Ok_inv _ _ _ _ _ H)
      as [[_ ->] | (_ & sp & raw & _ & _ & ->)]; [reflexivity|].
    unfold chunksOf. exact (chunksFrom_chunkIndex _ _ _ _ 0%nat).
  - intros sp rawSplits Hne Hs. rewrite chunkDocument_closed_form, Hs.
    destruct (Z.eqb_spec
                (JSString.length (JSString.trim (Document.content document))) 0)
      as [E | _]; [apply length_zero_nil in E; contradiction|].
    eexists. split; [reflexivity|].
    unfold chunksOf. apply chunksFrom_length, findChunkOffsets_length.
  - intros sp E. rewrite chunkDocument_closed_form, E. reflexivity.
Qed.

(* ------------------------------------------------------------------ *)
(** ** Each raw offset, and consecutive raw offsets *)

Lemma resolved_lookup (text : jsstring) (chunkOverlap : Z)
  (previousEnd : Z) (frags : list jsstring) (offsets : list RawOffsets.t) :
  resolved text chunkOverlap previousEnd frags offsets ->
  forall i f,
    nth_error frags i = Some f ->
    exists o,
      nth_error offsets i = Some o /\
      resolvedStart text f
        (Z.max 0 ((match i with
                   | O => previousEnd
                   | S _ => previousEndAt offsets i
                   end) - chunkOverlap))
        (RawOffsets.startOffset o) /\
      RawOffsets.endOffset o =
      Z.min (RawOffsets.startOffset o + JSString.length f) (JSString.length text).
Proof.
  induction 1 as [previousEnd | previousEnd frag frags start offsets Hs Hr IH];
    intros i f Hi.
  - destruct i; discriminate Hi.
  - destruct i as [|i]; simpl in Hi.
    + injection Hi as <-. eexists. split; [reflexivity|]. split; [exact Hs | reflexivity].
    + destruct (IH i f Hi) as (o & Ho & Hstart & Hend).
      exists o. split; [exact Ho|]. split; [|exact Hend].
      destruct i as [|i]; exact Hstart.
Qed.

(** The raw offsets of [chunkDocument]: its splits are never empty. *)
Lemma findChunkOffsets_lookup (content : jsstring) (chunkOverlap : Z)
  (rawSplits : list jsstring) (i : nat) (s : jsstring) :
  let splits := filter nonBlank rawSplits in
  let offsets := findChunkOffsets content splits chunkOverlap in
  nth_error splits i = Some s ->
  exists o,
    nth_error offsets i = Some o /\
    resolvedStart content s (Z.max 0 (previousEndAt offsets i - chunkOverlap))
      (RawOffsets.startOffset o) /\
    RawOffsets.endOffset o =
    Z.min (RawOffsets.startOffset o + JSString.length s) (JSString.length content).
Proof.
  intros splits offsets Hi.
  assert (R : resolved content chunkOverlap 0 splits offsets).
  { apply findChunkOffsets_resolved. right.
    eapply Forall_impl; [|apply filter_nonBlank_Forall].
    intros a. apply nonBlank_nonempty. }
  destruct (resolved_lookup _ _ _ _ _ R i s Hi) as (o & Ho & Hs & He).
  exists o. split; [exact Ho|]. split; [|exact He].
  destruct i; exact Hs.
Qed.

(** A fragment that occurs somewhere in the text is placed on one of its
    occurrences. *)
Lemma resolvedStart_occurs (text frag : jsstring) (searchStart start j : Z) :
  resolvedStart text frag searchStart start ->
  0 <= searchStart ->
  occursAt text frag j ->
  occursAt text frag start.
Proof.
  intros H H0 Hj. pose proof (occursAt_range _ _ _ Hj) as [Hj0 _].
  destruct H as [i (_ & O & _) | i _ _ (_ & O & _) | N P]; try exact O.
  exfalso. destruct (Z_le_gt_dec searchStart 0) as [L | G].
  - apply (N j); [lia | exact Hj].
  - apply (P G j); [lia | exact Hj].
Qed.

(** Unless the unanchored retry is what finds the fragment, its start is
    not before [searchStart]. *)
Lemma resolvedStart_not_before (text frag : jsstring) (searchStart start : Z) :
  resolvedStart text frag searchStart start ->
  0 <= searchStart ->
  frag <> [] ->
  JSString.indexOf text frag searchStart <> -1
  \/ JSString.indexOf text frag 0 = -1 ->
  searchStart <= start.
Proof.
  intros H H0 Hne Hcond.
  destruct H as [i (L & _) | i N G F | N P]; [exact L | | lia].
  exfalso. destruct Hcond as [C | C].
  - destruct (indexOf_cases text frag searchStart H0 (or_intror Hne))
      as [[E _] | F']; [contradiction|].
    exact (firstOccurrence_not_none _ _ _ _ F' N).
  - pose proof (firstOccurrence_nonneg _ _ _ _ F).
    assert (Hz : 0 <= 0 <= JSString.length text)
      by (pose proof (length_nonneg text); lia).
    destruct (indexOf_spec text frag 0 Hz) as [[_ N0] | F0].
    + exact (firstOccurrence_not_none _ _ _ _ F N0).
    + pose proof (firstOccurrence_nonneg _ _ _ _ F0). lia.
Qed.

(* ------------------------------------------------------------------ *)
(** ** The slice at the offsets of a chunk *)

Lemma pushedChunk_slice (content filePath : jsstring) (k : Z)
  (s : jsstring) (o : RawOffsets.t) :
  nonBlank s = true ->
  occursAt content s (RawOffsets.startOffset o) ->
  RawOffsets.endOffset o =
  Z.min (RawOffsets.startOffset o + JSString.length s) (JSString.length content) ->
  let c := pushedChunk content filePath k s o in
  JSString.slice content (Chunk.startOffset (Chunk.metadata c))
    (Chunk.endOffset (Chunk.metadata c)) = JSString.trim s.
Proof.
  intros Hnb (pre & post & Hc & Hpre) Hend.
  destruct (trim_decompose s (nonBlank_trim s Hnb)) as (l & r & Hs & Hts & Hte).
  set (m := JSString.trim s) in *.
  assert (Ls : JSString.length s =
               JSString.length l + (JSString.length m + JSString.length r)).
  { rewrite Hs at 1. rewrite !length_app. reflexivity. }
  assert (Lc : JSString.length content =
               JSString.length pre + (JSString.length s + JSString.length post)).
  { rewrite Hc at 1. rewrite !length_app. reflexivity. }
  pose proof (length_nonneg l). pose proof (length_nonneg m).
  pose proof (length_nonneg r). pose proof (length_nonneg post).
  pose proof (length_nonneg pre).
  cbv zeta. unfold pushedChunk. cbn [Chunk.metadata Chunk.startOffset Chunk.endOffset].
  rewrite Hts, Hte, Hend, <- Hpre. fold m. rewrite !length_app.
  replace (Z.min (JSString.length pre
                  + (JSString.length s - (JSString.length m + JSString.length r)))
                 (JSString.length content))
    with (JSString.length (pre ++ l)) by (rewrite length_app; lia).
  replace (Z.max (JSString.length (pre ++ l))
             (Z.min (Z.min (JSString.length pre + JSString.length s)
                           (JSString.length content)
                     - (JSString.length s - (JSString.length l + JSString.length m)))
                    (JSString.length content)))
    with (JSString.length (pre ++ l) + JSString.length m)
    by (rewrite length_app; lia).
  replace content with ((pre ++ l) ++ m ++ (r ++ post)).
  - apply slice_middle.
  - rewrite Hc, Hs. rewrite <- !app_assoc. reflexivity.
Qed.

(** C2, amended — for every chunk returned by [chunkDocument] whose raw
    fragment occurs verbatim somewhere in the document content, the stored
    content is the trimmed fragment and the slice
    [document.content[startOffset:endOffset]] of the original document is
    exactly the stored content, hence also equal to it after trimming.
    (A fragment that occurs nowhere gets the placeholder offsets.) *)
Theorem chunkDocument_slice_of_located_fragment
  (createMarkdownSplitter : ChunkConfig -> result Splitter)
  (document : Document.t) (config : ChunkConfig) (sp : Splitter)
  (rawSplits : list jsstring) (chunks : list Chunk.t)
  (i : nat) (c : Chunk.t) (raw : jsstring) (j : Z) :
  sp (Document.content document) = Ok rawSplits ->
  chunkDocument createMarkdownSplitter document config (Some sp) = Ok chunks ->
  nth_error chunks i = Some c ->
  nth_error (filter nonBlank rawSplits) i = Some raw ->
  occursAt (Document.content document) raw j ->
  Chunk.content c = JSString.trim raw /\
  JSString.slice (Document.content document)
    (Chunk.startOffset (Chunk.metadata c)) (Chunk.endOffset (Chunk.metadata c))
  = Chunk.content c /\
  JSString.trim
    (JSString.slice (Document.content document)
       (Chunk.startOffset (Chunk.metadata c)) (Chunk.endOffset (Chunk.metadata c)))
  = Chunk.content c.
Proof.
  intros Hsp H Hc Hraw Hocc.
  destruct (chunkDocument_Ok_inv _ _ _ _ _ H)
    as [[_ ->] | (_ & sp' & raw' & [[= <-] | [? _]] & Hsp' & ->)];
    [destruct i; discriminate Hc | | discriminate].
  rewrite Hsp in Hsp'. injection Hsp' as <-.
  apply chunksFrom_lookup in Hc as (s & o & Hs & Ho & ->).
  rewrite Hraw in Hs. injection Hs as <-.
  destruct (findChunkOffsets_lookup (Document.content document)
              (chunkOverlap config) rawSplits i raw Hraw)
    as (o' & Ho' & Hstart & Hend).
  rewrite Ho in Ho'. injection Ho' as <-.
  assert (Hnb : nonBlank raw = true).
  { apply nth_error_In in Hraw. apply filter_In in Hraw. tauto. }
  assert (Hat : occursAt (Document.content document) raw (RawOffsets.startOffset o)).
  { eapply resolvedStart_occurs; [exact Hstart | lia | exact Hocc]. }
  pose proof (pushedChunk_slice (Document.content document)
                (Document.filePath document) (0 + Z.of_nat i) raw o Hnb Hat Hend)
    as Hslice.
  cbv zeta in Hslice.
  split; [reflexivity|]. split; [exact Hslice|].
  rewrite Hslice. apply trim_idempotent.
Qed.

(* ------------------------------------------------------------------ *)
(** ** Order of the offsets *)

Lemma pushedChunk_start_le_rawEnd (content filePath : jsstring) (k : Z)
  (s : jsstring) (o : RawOffsets.t) :
  RawOffsets.endOffset o =
  Z.min (RawOffsets.startOffset o + JSString.length s) (JSString.length content) ->
  Chunk.startOffset (Chunk.metadata (pushedChunk content filePath k s o))
  <= RawOffsets.endOffset o.
Proof.
  intros ->. unfold pushedChunk. cbn.
  pose proof (length_nonneg (JSString.trimStart s)). lia.
Qed.

Lemma pushedChunk_start_ge (content filePath : jsstring) (k : Z)
  (s : jsstring) (o : RawOffsets.t) :
  Z.min (RawOffsets.startOffset o) (JSString.length content)
  <= Chunk.startOffset (Chunk.metadata (pushedChunk content filePath k s o)).
Proof.
  unfold pushedChunk. cbn. pose proof (trimStart_length_le s). lia.
Qed.

(** C3, amended — for a non-negative [chunkOverlap] (in particular for
    [0 <= chunkOverlap < chunkSize]) and two consecutive chunks returned by
    [chunkDocument]: when the later chunk's raw fragment is found at or
    after its [searchStart = max(0, previous raw end - chunkOverlap)], or
    occurs nowhere in the document, the later [startOffset] is at least the
    earlier [startOffset] minus [chunkOverlap].  (When the fragment is only
    found by the unanchored retry from position 0, it is placed on its first
    occurrence in the document, however far back that is.) *)
Theorem chunkDocument_start_regression_bounded
  (createMarkdownSplitter : ChunkConfig -> result Splitter)
  (document : Document.t) (config : ChunkConfig) (sp : Splitter)
  (rawSplits : list jsstring) (chunks : list Chunk.t)
  (i : nat) (c1 c2 : Chunk.t) (o1 : RawOffsets.t) (raw2 : jsstring) :
  0 <= chunkOverlap config ->
  sp (Document.content document) = Ok rawSplits ->
  chunkDocument createMarkdownSplitter document config (Some sp) = Ok chunks ->
  nth_error chunks i = Some c1 ->
  nth_error chunks (S i) = Some c2 ->
  nth_error (findChunkOffsets (Document.content document)
               (filter nonBlank rawSplits) (chunkOverlap config)) i = Some o1 ->
  nth_error (filter nonBlank rawSplits) (S i) = Some raw2 ->
  JSString.indexOf (Document.content document) raw2
    (Z.max 0 (RawOffsets.endOffset o1 - chunkOverlap config)) <> -1
  \/ JSString.indexOf (Document.content document) raw2 0 = -1 ->
  Chunk.startOffset (Chunk.metadata c1) - chunkOverlap config
  <= Chunk.startOffset (Chunk.metadata c2).
Proof.
  intros Hov Hsp H Hc1 Hc2 Ho1 Hraw2 Hcond.
  destruct (chunkDocument_Ok_inv _ _ _ _ _ H)
    as [[_ ->] | (_ & sp' & raw' & [[= <-] | [? _]] & Hsp' & ->)];
    [destruct i; discriminate Hc1 | | discriminate].
  rewrite Hsp in Hsp'. injection Hsp' as <-.
  apply chunksFrom_lookup in Hc1 as (s1 & o1' & Hs1 & Ho1' & ->).
  apply chunksFrom_lookup in Hc2 as (s2 & o2 & Hs2 & Ho2 & ->).
  rewrite Ho1 in Ho1'. injection Ho1' as <-.
  rewrite Hraw2 in Hs2. injection Hs2 as <-.
  set (content := Document.content document) in *.
  set (ov := chunkOverlap config) in *.
  destruct (findChunkOffsets_lookup content ov rawSplits i s1 Hs1)
    as (o & Ho & _ & Hend1).
  rewrite Ho1 in Ho. injection Ho as <-.
  destruct (findChunkOffsets_lookup content ov rawSplits (S i) raw2 Hraw2)
    as (o & Ho & Hstart2 & _).
  rewrite Ho2 in Ho. injection Ho as <-.
  cbn [previousEndAt] in Hstart2. rewrite Ho1 in Hstart2.
  assert (Hne : raw2 <> []).
  { apply nonBlank_nonempty. apply nth_error_In in Hraw2.
    apply filter_In in Hraw2. tauto. }
  pose proof (resolvedStart_not_before _ _ _ _ Hstart2 (Z.le_max_l _ _) Hne Hcond)
    as Hge.
  pose proof (pushedChunk_start_le_rawEnd content (Document.filePath document)
                (0 + Z.of_nat i) s1 o1 Hend1) as H1.
  pose proof (pushedChunk_start_ge content (Document.filePath document)
                (0 + Z.of_nat (S i)) raw2 o2) as H2.
  assert (Hle : RawOffsets.endOffset o1 <= JSString.length content)
    by (rewrite Hend1; lia).
  lia.
Qed.

(* ------------------------------------------------------------------ *)
(** ** Configuration: chunkOverlap not below chunkSize *)

Lemma TextSplitter_constructor_refuses (config : ChunkConfig) :
  chunkOverlap config >= chunkSize config ->
  TextSplitter_constructor config
  = Err (Error "Cannot have chunkOverlap >= chunkSize").
Proof.
  intros H. unfold TextSplitter_constructor.
  destruct (Z.geb_spec (chunkOverlap config) (chunkSize config)) as [_ | L];
    [reflexivity | lia].
Qed.

(** C4 — with [chunkOverlap >= chunkSize], chunking fails with the error
    "Cannot have chunkOverlap >= chunkSize", thrown by the constructor of
    the splitter that [createMarkdownSplitter] builds from the
    configuration: [chunkDocuments] fails so for every list of documents,
    and [chunkDocument] called without a splitter for every document.  The
    error comes before any document is looked at and before any text is
    split: the result is this error whatever the documents are (none,
    blank ones) and whatever [splitText] would return or throw.  Nothing is
    clamped: no chunk is returned. *)
Theorem chunking_refuses_overlap_not_below_size
  (splitText : ChunkConfig -> Splitter) (config : ChunkConfig) :
  chunkOverlap config >= chunkSize config ->
  (forall documents,
     chunkDocuments (createMarkdownSplitter splitText) config documents
     = Err (Error "Cannot have chunkOverlap >= chunkSize"))
  /\ (forall document,
        chunkDocument (createMarkdownSplitter splitText) document config None
        = Err (Error "Cannot have chunkOverlap >= chunkSize")).
Proof.
  intros H. split.
  - intros documents. unfold chunkDocuments, createMarkdownSplitter.
    rewrite (TextSplitter_constructor_refuses config H). reflexivity.
  - intros document. unfold chunkDocument, createMarkdownSplitter.
    rewrite (TextSplitter_constructor_refuses config H). reflexivity.
Qed.

(* ------------------------------------------------------------------ *)
(** ** embedChunks *)

Lemma toChunk_spread (chunk : Chunk.t) (embedding : vector) :
  EmbeddedChunk.toChunk (EmbeddedChunk.spread chunk embedding) = chunk.
Proof. destruct chunk. reflexivity. Qed.

Section EmbedChunks.

Variable World : Type.
Variable generateEmbedding : jsstring -> jsstring -> SE World vector.
Variable config : EmbedConfig.

Lemma embedChunks_loop (chunks : list Chunk.t) :
  forall (acc : list EmbeddedChunk.t) (w : World),
    match forOfSE (embedChunks_body generateEmbedding config) chunks acc w with
    | (Ok embedded, _) =>
        map EmbeddedChunk.toChunk embedded =
        map EmbeddedChunk.toChunk acc ++ chunks
        /\ exists added,
             embedded = acc ++ added /\
             map EmbeddedChunk.toChunk added = chunks
    | (Err e, _) =>
        exists chunk w0,
          In chunk chunks /\
          fst (generateEmbedding (Chunk.content chunk) (modelId config) w0)
          = Err e
    end.
Proof.
  induction chunks as [|chunk chunks IH]; intros acc w.
  - simpl. rewrite app_nil_r. split; [reflexivity|].
    exists []. rewrite app_nil_r. auto.
  - cbn [forOfSE]. unfold bind at 1. unfold embedChunks_body at 1.
    unfold bind at 1.
    destruct (generateEmbedding (Chunk.content chunk) (modelId config) w)
      as [[embedding | e] w1] eqn:G.
    + unfold ret at 1.
      specialize (IH (acc ++ [EmbeddedChunk.spread chunk embedding]) w1).
      destruct (forOfSE (embedChunks_body generateEmbedding config) chunks
                  (acc ++ [EmbeddedChunk.spread chunk embedding]) w1)
        as [[embedded | e] w2].
      * destruct IH as (Hmap & added & -> & Hadded). split.
        -- rewrite Hmap, map_app. simpl. rewrite toChunk_spread, <- app_assoc.
           reflexivity.
        -- exists (EmbeddedChunk.spread chunk embedding :: added). split.
           ++ rewrite <- app_assoc. reflexivity.
           ++ simpl. rewrite toChunk_spread, Hadded. reflexivity.
      * destruct IH as (c & w0 & Hin & Hf). exists c, w0. split;
          [right; exact Hin | exact Hf].
    + exists chunk, w. split; [left; reflexivity | rewrite G; reflexivity].
Qed.

End EmbedChunks.

(** C9 — [embedChunks] either returns, for the chunks it was given, one
    embedded chunk per input chunk in the same order, each with the content
    and the metadata (filePath, chunkIndex, startOffset, endOffset) of its
    input chunk and nothing but the embedding added; or it throws the error
    of an embedding call that failed on the content of one of the chunks. *)
Theorem embedChunks_preserves_chunks
  (World : Type) (generateEmbedding : jsstring -> jsstring -> SE World vector)
  (config : EmbedConfig) (chunks : list Chunk.t) (w : World) :
  match embedChunks generateEmbedding config chunks w with
  | (Ok embedded, _) =>
      map EmbeddedChunk.toChunk embedded = chunks /\
      List.length embedded = List.length chunks /\
      forall i e,
        nth_error embedded i = Some e ->
        exists chunk,
          nth_error chunks i = Some chunk /\
          EmbeddedChunk.content e = Chunk.content chunk /\
          EmbeddedChunk.metadata e = Chunk.metadata chunk
  | (Err e, _) =>
      exists chunk w0,
        In chunk chunks /\
        fst (generateEmbedding (Chunk.content chunk) (modelId config) w0) = Err e
  end.
Proof.
  unfold embedChunks.
  pose proof (embedChunks_loop World generateEmbedding config chunks [] w) as L.
  destruct (forOfSE (embedChunks_body generateEmbedding config) chunks [] w)
    as [[embedded | e] w']; [|exact L].
  destruct L as (Hmap & _). simpl in Hmap. split; [exact Hmap|]. split.
  - rewrite <- Hmap. symmetry. apply List.length_map.
  - intros i e Hi. exists (EmbeddedChunk.toChunk e). split; [|split; reflexivity].
    rewrite <- Hmap. apply map_nth_error. exact Hi.
Qed.

(* ------------------------------------------------------------------ *)
(** ** runEval *)

Section RunEval.

Variable World : Type.
Variable invokeJudge : jsstring -> SearchResult.t -> SE World jsstring.
Variable parseJudgeResponse : jsstring -> result JudgeScores.
Variable consoleWarn : Z -> error -> World -> World.

Local Abbreviation evaluateChunk' :=
  (evaluateChunk invokeJudge parseJudgeResponse).
Local Abbreviation evaluatedEach' :=
  (evaluatedEach invokeJudge parseJudgeResponse consoleWarn).

Lemma evaluatedEach_length (query : jsstring) (w : World)
  (results : list SearchResult.t) (evaluations : list ChunkEvaluation.t)
  (w' : World) :
  evaluatedEach' query w results evaluations w' ->
  List.length evaluations = List.length results.
Proof. induction 1; simpl; congruence. Qed.

Lemma runEval_loop (query : jsstring) (results : list SearchResult.t) :
  forall (acc : list ChunkEvaluation.t) (w : World),
  exists evaluations w',
    forOfSE (runEval_body invokeJudge parseJudgeResponse consoleWarn query)
      results acc w = (Ok (acc ++ evaluations), w') /\
    evaluatedEach' query w results evaluations w'.
Proof.
  induction results as [|result results IH]; intros acc w.
  - exists [], w. simpl. rewrite app_nil_r. split; [reflexivity | constructor].
  - cbn [forOfSE]. unfold bind at 1. unfold runEval_body at 1.
    unfold tryCatch, bind at 1.
    destruct (evaluateChunk' query result w) as [[evaluation | e] w1] eqn:E.
    + unfold ret at 1.
      destruct (IH (acc ++ [evaluation]) w1) as (evaluations & w' & -> & Hev).
      exists (evaluation :: evaluations), w'. split.
      * rewrite <- app_assoc. reflexivity.
      * eapply evaluated_returned; eassumption.
    + destruct (IH (acc ++ [failedEvaluation result])
                  (consoleWarn (SearchResult.chunkIndex result + 1) e w1))
        as (evaluations & w' & -> & Hev).
      exists (failedEvaluation result :: evaluations), w'. split.
      * rewrite <- app_assoc. reflexivity.
      * eapply evaluated_threw; eassumption.
Qed.

End RunEval.

(** C10 — once retrieval has returned, [runEval] does not abort on a chunk
    whose judge evaluation throws (the call fails or its response cannot be
    parsed): it returns an [EvalResult] with one evaluation per retrieved
    chunk, in order; a chunk whose evaluation returned has that evaluation,
    and a chunk whose evaluation threw is recorded with its own chunkIndex
    and filePath, relevance 1, sufficiency 1 and the fixed reasoning
    "Evaluation failed; defaulted to lowest scores.", after which the loop
    goes on with the remaining chunks. *)
Theorem runEval_records_failed_evaluations
  (World : Type) (generateEmbedding : jsstring -> jsstring -> SE World vector)
  (cosine_distance : vector -> vector -> Q)
  (indexScan : Tables -> vector -> DocumentChunkRow.t -> bool)
  (queryError : Tables -> vector -> Z -> option jsstring -> option error)
  (invokeJudge : jsstring -> SearchResult.t -> SE World jsstring)
  (parseJudgeResponse : jsstring -> result JudgeScores)
  (consoleWarn : Z -> error -> World -> World)
  (retrieveConfig : RetrieveConfig) (embedConfig : EmbedConfig) (db : Database)
  (query : jsstring) (category : option jsstring)
  (w w1 : World) (retrieved : RetrieveResult.t) :
  retrieve generateEmbedding cosine_distance indexScan queryError retrieveConfig embedConfig db
    query category w = (Ok retrieved, w1) ->
  exists evalResult w',
    runEval generateEmbedding cosine_distance indexScan queryError invokeJudge parseJudgeResponse
      consoleWarn retrieveConfig embedConfig db query category w
    = (Ok evalResult, w') /\
    EvalResult.query evalResult = query /\
    List.length (EvalResult.chunks evalResult) =
    List.length (RetrieveResult.results retrieved) /\
    evaluatedEach invokeJudge parseJudgeResponse consoleWarn query w1
      (RetrieveResult.results retrieved) (EvalResult.chunks evalResult) w' /\
    forall result,
      failedEvaluation result =
      ChunkEvaluation.mk (SearchResult.chunkIndex result)
        (SearchResult.filePath result) 1 1
        (JSString.lit "Evaluation failed; defaulted to lowest scores.").
Proof.
  intros Hr. unfold runEval. unfold bind at 1. rewrite Hr.
  destruct (runEval_loop World invokeJudge parseJudgeResponse consoleWarn query
              (RetrieveResult.results retrieved) [] w1)
    as (evaluations & w' & Hloop & Hev).
  unfold bind at 1. rewrite Hloop. unfold ret. cbn [app].
  eexists. eexists. split; [reflexivity|]. cbn [EvalResult.query EvalResult.chunks].
  split; [reflexivity|]. split; [|split; [exact Hev | reflexivity]].
  eapply evaluatedEach_length. exact Hev.
Qed.

(* ------------------------------------------------------------------ *)
(** ** searchByVector and retrieve *)

Section OrderBy.

Variable A : Type.
Variable key : A -> Q.

Lemma insertBy_In (x y : A) (l : list A) :
  In y (insertBy key x l) <-> y = x \/ In y l.
Proof.
  induction l as [|z l IH]; simpl.
  - intuition congruence.
  - destruct (Qle_bool (key x) (key z)); simpl; rewrite ?IH; intuition congruence.
Qed.

Lemma insertBy_length (x : A) (l : list A) :
  List.length (insertBy key x l) = S (List.length l).
Proof.
  induction l as [|z l IH]; simpl; [reflexivity|].
  destruct (Qle_bool (key x) (key z)); simpl; congruence.
Qed.

Lemma insertBy_sorted (x : A) (l : list A) :
  StronglySorted (ascending key) l -> StronglySorted (ascending key) (insertBy key x l).
Proof.
  induction l as [|z l IH]; intros S; simpl.
  - constructor; constructor.
  - inversion S as [|? ? Sl Fz]; subst.
    destruct (Qle_bool (key x) (key z)) eqn:C.
    + apply Qle_bool_iff in C. constructor; [exact S|].
      constructor; [exact C|].
      rewrite Forall_forall in *. intros y Hy. unfold ascending in *.
      eapply Qle_trans; [exact C | apply Fz; exact Hy].
    + assert (Hzx : (key z <= key x)%Q).
      { destruct (Qlt_le_dec (key z) (key x)) as [L | L].
        - apply Qlt_le_weak. exact L.
        - apply Qle_bool_iff in L. congruence. }
      constructor; [apply IH; exact Sl|].
      rewrite Forall_forall in *. intros y Hy.
      apply insertBy_In in Hy as [-> | Hy]; [exact Hzx | apply Fz; exact Hy].
Qed.

Lemma ORDER_BY_sorted (l : list A) : StronglySorted (ascending key) (ORDER_BY key l).
Proof.
  induction l as [|x l IH]; simpl; [constructor | apply insertBy_sorted, IH].
Qed.

Lemma ORDER_BY_In (y : A) (l : list A) : In y (ORDER_BY key l) <-> In y l.
Proof.
  induction l as [|x l IH]; simpl; [tauto|].
  rewrite insertBy_In, IH. intuition congruence.
Qed.

Lemma ORDER_BY_length (l : list A) : List.length (ORDER_BY key l) = List.length l.
Proof.
  induction l as [|x l IH]; simpl; [reflexivity|].
  rewrite insertBy_length, IH. reflexivity.
Qed.

End OrderBy.

Lemma firstn_In {A : Type} (n : nat) (l : list A) (x : A) :
  In x (firstn n l) -> In x l.
Proof.
  revert n. induction l as [|y l IH]; intros [|n]; simpl; try tauto.
  intros [-> | H]; [left; reflexivity | right; exact (IH n H)].
Qed.

Lemma StronglySorted_firstn {A : Type} (R : A -> A -> Prop) (n : nat) (l : list A) :
  StronglySorted R l -> StronglySorted R (firstn n l).
Proof.
  revert n. induction l as [|x l IH]; intros [|n] S; simpl; try constructor.
  - inversion S; subst. apply IH. assumption.
  - inversion S as [|? ? _ F]; subst. rewrite Forall_forall in *.
    intros y Hy. apply F. eapply firstn_In. exact Hy.
Qed.

Lemma StronglySorted_map {A B : Type} (R : A -> A -> Prop) (R' : B -> B -> Prop)
  (f : A -> B) (l : list A) :
  (forall a b, R a b -> R' (f a) (f b)) ->
  StronglySorted R l -> StronglySorted R' (map f l).
Proof.
  intros HR. induction 1 as [|x l S IH F]; simpl; constructor; [exact IH|].
  rewrite Forall_forall in *. intros y Hy.
  apply in_map_iff in Hy as (a & <- & Ha). apply HR, F, Ha.
Qed.

Lemma jsstring_eqb_eq (a b : jsstring) : jsstring_eqb a b = true <-> a = b.
Proof.
  unfold jsstring_eqb. destruct (list_eq_dec N.eq_dec a b); split;
    congruence.
Qed.

Section SearchByVector.

Variable cosine_distance : vector -> vector -> Q.
Variable indexScan : Tables -> vector -> DocumentChunkRow.t -> bool.
Variable queryError : Tables -> vector -> Z -> option jsstring -> option error.

Lemma searchByVector_Ok (embedding : vector) (limit : Z)
  (category : option jsstring) (db : Database) :
  queryError (committed db) embedding limit category = None ->
  0 <= limit ->
  searchByVector cosine_distance indexScan queryError embedding limit category
    db =
  Ok (map (SELECT cosine_distance embedding)
        (firstn (Z.to_nat limit)
           (ORDER_BY
              (fun row =>
                 cosine_distance (DocumentChunkRow.embedding (fst row)) embedding)
              (filter (WHERE category)
                 (JOIN (SCAN indexScan embedding (committed db))))))).
Proof.
  intros He H. unfold searchByVector, LIMIT. rewrite He.
  destruct (Z.ltb_spec limit 0); [lia | reflexivity].
Qed.

Lemma searchByVector_Ok_inv (embedding : vector) (limit : Z)
  (category : option jsstring) (db : Database) (results : list SearchResult.t) :
  searchByVector cosine_distance indexScan queryError embedding limit category
    db = Ok results ->
  queryError (committed db) embedding limit category = None /\ 0 <= limit.
Proof.
  unfold searchByVector, LIMIT.
  destruct (queryError (committed db) embedding limit category);
    [discriminate|].
  destruct (Z.ltb_spec limit 0); [discriminate | split; [reflexivity | lia]].
Qed.

(** When [searchByVector] throws, the error is the one of the query, or the
    server's refusal of a negative LIMIT. *)
Lemma searchByVector_Err_inv (embedding : vector) (limit : Z)
  (category : option jsstring) (db : Database) (e : error) :
  searchByVector cosine_distance indexScan queryError embedding limit category
    db = Err e ->
  queryError (committed db) embedding limit category = Some e \/
  (queryError (committed db) embedding limit category = None /\ limit < 0).
Proof.
  unfold searchByVector, LIMIT.
  destruct (queryError (committed db) embedding limit category) as [e'|].
  - intros [= ->]. left. reflexivity.
  - destruct (Z.ltb_spec limit 0); [|discriminate].
    intros _. right. split; [reflexivity | assumption].
Qed.

Lemma JOIN_SCAN_In (embedding : vector) (t : Tables)
  (dc : DocumentChunkRow.t) (d : DocumentRow.t) :
  In (dc, d) (JOIN (SCAN indexScan embedding t)) <->
  In (dc, d) (JOIN t) /\ indexScan t embedding dc = true.
Proof.
  unfold JOIN, SCAN. cbn [document document_chunk].
  rewrite !in_flat_map. split.
  - intros (dc' & Hdc & Hd). apply filter_In in Hdc as [Hdc Hs].
    assert (dc' = dc) as ->.
    { apply in_map_iff in Hd as (d' & [= -> _] & _). reflexivity. }
    split; [exists dc; split; assumption | exact Hs].
  - intros [(dc' & Hdc & Hd) Hs].
    assert (dc' = dc) as ->.
    { apply in_map_iff in Hd as (d' & [= -> _] & _). reflexivity. }
    exists dc. split; [apply filter_In; split; assumption | exact Hd].
Qed.

(** In a list in ascending order, an element is among the first [n], or
    the first [n] are [n] elements that come no later than it. *)
Lemma firstn_sorted_complete {A : Type} (key : A -> Q) (l : list A) (x : A) :
  StronglySorted (ascending key) l ->
  In x l ->
  forall n,
    In x (firstn n l) \/
    (List.length (firstn n l) = n /\
     Forall (fun y => (key y <= key x)%Q) (firstn n l)).
Proof.
  induction 1 as [|y l S IH F]; intros Hin n; [destruct Hin|].
  destruct n as [|n]; [right; split; [reflexivity | constructor]|].
  cbn [firstn]. destruct Hin as [-> | Hin]; [left; left; reflexivity|].
  destruct (IH Hin n) as [H | [Hlen Hall]].
  - left. right. exact H.
  - right. split; [cbn; congruence|].
    constructor; [|exact Hall].
    rewrite Forall_forall in F. exact (F x Hin).
Qed.

Lemma searchByVector_results (embedding : vector) (limit : Z)
  (category : option jsstring) (db : Database) (results : list SearchResult.t) :
  searchByVector cosine_distance indexScan queryError embedding limit category
    db = Ok results ->
  Z.of_nat (List.length results) <= limit /\
  StronglySorted bySimilarityDescending results /\
  (forall c r, category = Some c -> In r results -> SearchResult.category r = c) /\
  (forall dc d,
     In (dc, d) (JOIN (committed db)) ->
     indexScan (committed db) embedding dc = true ->
     (forall c, category = Some c -> DocumentRow.category d = c) ->
     In (SELECT cosine_distance embedding (dc, d)) results \/
     (Z.of_nat (List.length results) = limit /\
      Forall (fun r =>
                bySimilarityDescending r
                  (SELECT cosine_distance embedding (dc, d)))
             results)).
Proof.
  intros H. destruct (searchByVector_Ok_inv _ _ _ _ _ H) as [He Hl].
  rewrite searchByVector_Ok in H by assumption. injection H as <-.
  set (key := fun row : DocumentChunkRow.t * DocumentRow.t =>
                cosine_distance (DocumentChunkRow.embedding (fst row)) embedding).
  split; [|split; [|split]].
  - rewrite List.length_map, List.length_firstn. lia.
  - apply (StronglySorted_map (ascending key)).
    + intros [dc d] [dc' d']. unfold ascending, bySimilarityDescending, key.
      cbn. intros L. apply Qplus_le_r, Qopp_le_compat. exact L.
    + apply StronglySorted_firstn, ORDER_BY_sorted.
  - intros c r -> Hin. apply in_map_iff in Hin as ([dc d] & <- & Hrow).
    apply firstn_In, ORDER_BY_In, filter_In in Hrow as [_ Hw].
    unfold WHERE in Hw. apply andb_true_iff in Hw as [_ Hc].
    apply jsstring_eqb_eq in Hc. exact Hc.
  - intros dc d Hj Hs Hc.
    assert (Hrow : In (dc, d)
                     (ORDER_BY key
                        (filter (WHERE category)
                           (JOIN (SCAN indexScan embedding (committed db)))))).
    { apply ORDER_BY_In, filter_In. split.
      - apply JOIN_SCAN_In. split; assumption.
      - unfold WHERE, IS_NOT_NULL. cbn [andb snd].
        destruct category as [c|]; [|reflexivity].
        apply jsstring_eqb_eq. apply Hc. reflexivity. }
    destruct (firstn_sorted_complete key _ _ (ORDER_BY_sorted _ key _) Hrow
                (Z.to_nat limit)) as [Hin | [Hlen Hall]].
    + left. apply in_map. exact Hin.
    + right. split.
      * rewrite List.length_map, Hlen. lia.
      * apply Forall_map. revert Hall. apply Forall_impl.
        intros [dc' d']. unfold bySimilarityDescending, key. cbn.
        intros L. apply Qplus_le_r, Qopp_le_compat. exact L.
Qed.

End SearchByVector.

(** C8 — [retrieve] throws only what the embedding provider or the query
    of the store throws (a negative [topK] is refused by the server as a
    negative LIMIT); otherwise it returns the query with at most [topK]
    results, ordered by descending similarity.  When a category is supplied
    every result has that document category.  Among the stored chunks the
    scan of the store reaches, those of every category when none is
    supplied and those of the supplied one otherwise, a chunk is left out
    only when [topK] results are returned, all at least as similar to the
    query as it is. *)
Theorem retrieve_ranked_results
  (World : Type) (generateEmbedding : jsstring -> jsstring -> SE World vector)
  (cosine_distance : vector -> vector -> Q)
  (indexScan : Tables -> vector -> DocumentChunkRow.t -> bool)
  (queryError : Tables -> vector -> Z -> option jsstring -> option error)
  (retrieveConfig : RetrieveConfig) (embedConfig : EmbedConfig) (db : Database)
  (query : jsstring) (category : option jsstring) (w : World) :
  match retrieve generateEmbedding cosine_distance indexScan queryError
          retrieveConfig embedConfig db query category w with
  | (Ok retrieved, w') =>
      let results := RetrieveResult.results retrieved in
      RetrieveResult.query retrieved = query /\
      Z.of_nat (List.length results) <= topK retrieveConfig /\
      StronglySorted bySimilarityDescending results /\
      (forall c r, category = Some c -> In r results ->
                   SearchResult.category r = c) /\
      exists embedding,
        generateEmbedding query (modelId embedConfig) w = (Ok embedding, w') /\
        forall dc d,
          In (dc, d) (JOIN (committed db)) ->
          indexScan (committed db) embedding dc = true ->
          (forall c, category = Some c -> DocumentRow.category d = c) ->
          In (SELECT cosine_distance embedding (dc, d)) results \/
          (Z.of_nat (List.length results) = topK retrieveConfig /\
           Forall (fun r =>
                     bySimilarityDescending r
                       (SELECT cosine_distance embedding (dc, d)))
                  results)
  | (Err e, w') =>
      generateEmbedding query (modelId embedConfig) w = (Err e, w') \/
      exists embedding,
        generateEmbedding query (modelId embedConfig) w = (Ok embedding, w') /\
        (queryError (committed db) embedding (topK retrieveConfig) category
         = Some e \/
         (queryError (committed db) embedding (topK retrieveConfig) category
          = None /\ topK retrieveConfig < 0))
  end.
Proof.
  unfold retrieve, bind, ret.
  destruct (generateEmbedding query (modelId embedConfig) w)
    as [[embedding | e] w1]; [|left; reflexivity].
  destruct (searchByVector cosine_distance indexScan queryError embedding
              (topK retrieveConfig) category db) as [results | e] eqn:S.
  - cbn.
    destruct (searchByVector_results _ _ _ _ _ _ _ _ S)
      as (Hlen & Hsorted & Hcat & Hcomplete).
    split; [reflexivity|]. split; [exact Hlen|]. split; [exact Hsorted|].
    split; [exact Hcat|]. exists embedding. split; [reflexivity|].
    exact Hcomplete.
  - right. exists embedding. split; [reflexivity|].
    exact (searchByVector_Err_inv _ _ _ _ _ _ _ _ S).
Qed.

(* ------------------------------------------------------------------ *)
(** ** insertDocuments *)

Lemma addRows_empty (t : Tables) : addRows t (mkTables [] []) = t.
Proof. destruct t. unfold addRows. simpl. rewrite !app_nil_r. reflexivity. Qed.

Section InsertDocuments.

Variable rejects : Tables -> Insert -> bool.

Lemma INSERT_document_in_transaction (doc : DocumentInput.t)
  (db : Database) (t : Tables) :
  transaction db = Some t ->
  query_INSERT_document rejects true doc db =
  if rejects t (INSERT_document doc)
  then (Err (Error "insert into document failed"), db)
  else (Ok (document_id_seq db),
        mkDatabase (committed db)
          (Some (mkTables
                   (document t ++
                    [DocumentRow.mk (document_id_seq db)
                       (DocumentInput.content doc) (DocumentInput.category doc)
                       (DocumentInput.filePath doc)])
                   (document_chunk t)))
          (document_id_seq db + 1) (document_chunk_id_seq db)).
Proof.
  intros H. unfold query_INSERT_document, workingTables, setWorkingTables.
  cbn. rewrite H. destruct (rejects t (INSERT_document doc)); reflexivity.
Qed.

Lemma INSERT_document_chunk_in_transaction (documentId : Z)
  (chunk : DocumentChunkInput.t) (db : Database) (t : Tables) :
  transaction db = Some t ->
  query_INSERT_document_chunk rejects true documentId chunk db =
  if rejects t (INSERT_document_chunk documentId chunk)
  then (Err (Error "insert into document_chunk failed"), db)
  else (Ok (document_chunk_id_seq db),
        mkDatabase (committed db)
          (Some (mkTables (document t)
                   (document_chunk t ++
                    chunkRows documentId (document_chunk_id_seq db) [chunk])))
          (document_id_seq db) (document_chunk_id_seq db + 1)).
Proof.
  intros H. unfold query_INSERT_document_chunk, workingTables, setWorkingTables.
  cbn. rewrite H.
  destruct (rejects t (INSERT_document_chunk documentId chunk)); reflexivity.
Qed.

(** The state after the chunks of one document went into the open
  transaction; a failure leaves the committed tables as they were. *)
Lemma insertDocumentChunks_in_transaction (documentId : Z)
  (chunks : list DocumentChunkInput.t) :
  forall (db : Database) (t : Tables),
    transaction db = Some t ->
    match insertDocumentChunks rejects documentId chunks true db with
    | (Ok _, db') =>
        db' = mkDatabase (committed db)
                (Some (mkTables (document t)
                         (document_chunk t ++
                          chunkRows documentId (document_chunk_id_seq db) chunks)))
                (document_id_seq db)
                (document_chunk_id_seq db + Z.of_nat (List.length chunks))
    | (Err _, db') => committed db' = committed db /\ transaction db' <> None
    end.
Proof.
  unfold insertDocumentChunks.
  assert (L : forall (acc : list Z) (db : Database) (t : Tables),
    transaction db = Some t ->
    match forOfSE (fun insertedIds chunk =>
                     bind (query_INSERT_document_chunk rejects true documentId chunk)
                          (fun id => ret (insertedIds ++ [id])))
                  chunks acc db with
    | (Ok _, db') =>
        db' = mkDatabase (committed db)
                (Some (mkTables (document t)
                         (document_chunk t ++
                          chunkRows documentId (document_chunk_id_seq db) chunks)))
                (document_id_seq db)
                (document_chunk_id_seq db + Z.of_nat (List.length chunks))
    | (Err _, db') => committed db' = committed db /\ transaction db' <> None
    end).
  { induction chunks as [|chunk chunks IH]; intros acc db t Ht.
    - simpl. destruct db; simpl in *. subst. rewrite app_nil_r, Z.add_0_r.
      destruct t; reflexivity.
    - cbn [forOfSE]. unfold bind at 1. unfold bind at 1.
      rewrite (INSERT_document_chunk_in_transaction documentId chunk db t Ht).
      destruct (rejects t (INSERT_document_chunk documentId chunk)).
      + split; [reflexivity | congruence].
      + unfold ret at 1.
        match goal with
        | |- context [forOfSE ?f chunks ?a ?d] =>
            specialize (IH a d _ eq_refl);
            destruct (forOfSE f chunks a d) as [[ids | e] db']
        end.
        * cbn in IH. subst db'. cbn [List.length chunkRows].
          rewrite <- app_assoc. cbn [app]. f_equal. lia.
        * exact IH. }
  intros db t Ht.
  destruct (Z.eqb_spec (Z.of_nat (List.length chunks)) 0) as [E | _].
  - destruct chunks; [|discriminate E].
    exact (L [] db t Ht).
  - exact (L [] db t Ht).
Qed.

(** The loop over the documents inside the open transaction. *)
Lemma insertDocuments_loop (docs : list DocumentWithChunksInput.t) :
  forall (ids : list Z) (db : Database) (t : Tables),
    transaction db = Some t ->
    match forOfSE (insertDocuments_body rejects) docs ids db with
    | (Ok ids', db') =>
        committed db' = committed db /\
        transaction db' =
        Some (addRows t (batchRows (document_id_seq db)
                           (document_chunk_id_seq db) docs)) /\
        ids' = ids ++ map DocumentRow.id
                        (document (batchRows (document_id_seq db)
                                     (document_chunk_id_seq db) docs))
    | (Err _, db') => committed db' = committed db
    end.
Proof.
  induction docs as [|doc docs IH]; intros ids db t Ht.
  - simpl. rewrite addRows_empty, app_nil_r. auto.
  - cbn [forOfSE]. unfold bind at 1. unfold insertDocuments_body at 1.
    unfold bind at 1. unfold insertDocument.
    rewrite (INSERT_document_in_transaction _ db t Ht).
    destruct (rejects t (INSERT_document (DocumentWithChunksInput.document doc)));
      [reflexivity|].
    unfold bind at 1.
    match goal with
    | |- context [insertDocumentChunks rejects ?i ?c true ?d] =>
        pose proof (insertDocumentChunks_in_transaction i c d _ eq_refl) as HC;
        destruct (insertDocumentChunks rejects i c true d) as [[cids | e] db1]
    end; [|cbn in HC; tauto].
    unfold ret at 1. cbn in HC. subst db1.
    match goal with
    | |- context [forOfSE ?f docs ?a ?d] =>
        specialize (IH a d _ eq_refl);
        destruct (forOfSE f docs a d) as [[ids' | e] db']
    end; cbn in IH; [|exact IH].
    destruct IH as (Hc & Ht' & ->). split; [exact Hc|]. split.
    + rewrite Ht'. unfold addRows. cbn. rewrite <- !app_assoc. reflexivity.
    + cbn. rewrite <- app_assoc. reflexivity.
Qed.

End InsertDocuments.

(** C5, amended — [insertDocuments] persists the whole batch it is given
    (during ingest: all the documents of the run, with their chunks) in one
    transaction: started with no transaction open, either it returns the
    new document ids and the committed tables have gained every row of
    every document and of every chunk of the batch, or it throws and the
    committed tables are exactly what they were, so that a failure while
    inserting document N also discards documents 1..N-1; in both cases no
    transaction is left open.  In particular the rows of one document and
    its chunks are never committed in part. *)
Theorem insertDocuments_all_or_nothing
  (rejects : Tables -> Insert -> bool)
  (docs : list DocumentWithChunksInput.t) (db : Database) :
  transaction db = None ->
  match insertDocuments rejects docs db with
  | (Ok ids, db') =>
      transaction db' = None /\
      committed db' =
      addRows (committed db)
        (batchRows (document_id_seq db) (document_chunk_id_seq db) docs) /\
      ids = map DocumentRow.id
              (document (batchRows (document_id_seq db)
                           (document_chunk_id_seq db) docs))
  | (Err _, db') =>
      transaction db' = None /\ committed db' = committed db
  end.
Proof.
  intros Hn. unfold insertDocuments.
  destruct (Z.eqb_spec (Z.of_nat (List.length docs)) 0) as [E | _].
  - destruct docs; [|discriminate E]. cbn. rewrite addRows_empty. auto.
  - unfold tryCatch. unfold bind at 1. unfold query_BEGIN. rewrite Hn.
    unfold bind at 1.
    match goal with
    | |- context [forOfSE ?f docs ?a ?d] =>
        pose proof (insertDocuments_loop rejects docs a d _ eq_refl) as L;
        destruct (forOfSE f docs a d) as [[ids | e] db']
    end; cbn in L.
    + destruct L as (Hc & Ht & ->). cbn. unfold workingTables. rewrite Ht.
      auto.
    + cbn. auto.
Qed.

(* ================================================================== *)
(** * The scenarios of the specification, counterexamples, instances *)

(** Scenario 1: ["A. B. C."] with [chunkSize = 4], [chunkOverlap = 0]. *)
Example scenario_sentences :
  chunkDocument (checkingFactory (fixedSplitter splits_sentences))
    doc_sentences (mkChunkConfig 4 0) None =
  Ok [Chunk.mk (JSString.lit "A.")
        (Chunk.mkMetadata (JSString.lit "faq.md") 0 0 2);
      Chunk.mk (JSString.lit "B.")
        (Chunk.mkMetadata (JSString.lit "faq.md") 1 3 5);
      Chunk.mk (JSString.lit "C.")
        (Chunk.mkMetadata (JSString.lit "faq.md") 2 6 8)].
Proof. vm_compute. reflexivity. Qed.

(** Scenario 2: the second ["# Intro"] is placed at its later position. *)
Example scenario_repeated_heading :
  findChunkOffsets text_headings splits_headings 0 =
  [RawOffsets.mk 0 12; RawOffsets.mk 13 25].
Proof. vm_compute. reflexivity. Qed.

(** The instance of C1 on scenario 2. *)
Lemma findChunkOffsets_is_resolver_witness :
  resolved text_headings 0 0 splits_headings
    (findChunkOffsets text_headings splits_headings 0)
  /\ forall offsets,
       resolved text_headings 0 0 splits_headings offsets ->
       offsets = findChunkOffsets text_headings splits_headings 0.
Proof.
  apply (findChunkOffsets_is_resolver text_headings splits_headings 0).
  left. lia.
Defined.

(** C2 as stated fails: the splitter returns ["a b"] for the document
    ["a  b"]; the fragment is found nowhere, gets the placeholder offsets
    [0, 3), and the slice ["a  "] trims to ["a"], not to the stored content
    ["a b"]. *)
Lemma chunkDocument_slice_counterexample :
  let c := Chunk.mk (JSString.lit "a b")
             (Chunk.mkMetadata (JSString.lit "faq.md") 0 0 3) in
  chunkDocument (checkingFactory (fixedSplitter splits_normalized))
    doc_spaced (mkChunkConfig 4 0) (Some (fixedSplitter splits_normalized))
  = Ok [c]
  /\ JSString.trim
       (JSString.slice (Document.content doc_spaced)
          (Chunk.startOffset (Chunk.metadata c))
          (Chunk.endOffset (Chunk.metadata c)))
     = JSString.lit "a"
  /\ JSString.trim
       (JSString.slice (Document.content doc_spaced)
          (Chunk.startOffset (Chunk.metadata c))
          (Chunk.endOffset (Chunk.metadata c)))
     <> Chunk.content c.
Proof.
  cbv zeta. split; [vm_compute; reflexivity|].
  split; [vm_compute; reflexivity | vm_compute; discriminate].
Qed.

(** The instance of the amended C2 on the second chunk of a document whose
    raw splits keep their white space. *)
Lemma chunkDocument_slice_of_located_fragment_witness :
  let c := Chunk.mk (JSString.lit "Yo.")
             (Chunk.mkMetadata (JSString.lit "shipping/slips.md") 1 5 8) in
  Chunk.content c = JSString.trim (JSString.lit " Yo. ") /\
  JSString.slice (Document.content doc_padded)
    (Chunk.startOffset (Chunk.metadata c)) (Chunk.endOffset (Chunk.metadata c))
  = Chunk.content c /\
  JSString.trim
    (JSString.slice (Document.content doc_padded)
       (Chunk.startOffset (Chunk.metadata c)) (Chunk.endOffset (Chunk.metadata c)))
  = Chunk.content c.
Proof.
  cbv zeta.
  apply (chunkDocument_slice_of_located_fragment
           (checkingFactory (fixedSplitter splits_padded)) doc_padded
           (mkChunkConfig 5 0) (fixedSplitter splits_padded) splits_padded
           [Chunk.mk (JSString.lit "Hi.")
              (Chunk.mkMetadata (JSString.lit "shipping/slips.md") 0 0 3);
            Chunk.mk (JSString.lit "Yo.")
              (Chunk.mkMetadata (JSString.lit "shipping/slips.md") 1 5 8)]
           1%nat _ (JSString.lit " Yo. ") 4).
  - reflexivity.
  - vm_compute. reflexivity.
  - reflexivity.
  - vm_compute. reflexivity.
  - exists (JSString.lit "Hi. "), []. split; vm_compute; reflexivity.
Defined.

(** C3 as stated fails, with [0 <= chunkOverlap < chunkSize]: in ["xy ab
    xy"] the fragments ["ab xy"] and ["xy"] come in document order; the
    second is not found from [searchStart = 8], the unanchored retry finds
    it at 0, and the second chunk starts 3 before the first, more than
    [chunkOverlap = 0]. *)
Lemma chunkDocument_order_counterexample :
  let config := mkChunkConfig 5 0 in
  let c1 := Chunk.mk (JSString.lit "ab xy")
              (Chunk.mkMetadata (JSString.lit "faq.md") 0 3 8) in
  let c2 := Chunk.mk (JSString.lit "xy")
              (Chunk.mkMetadata (JSString.lit "faq.md") 1 0 2) in
  0 <= chunkOverlap config < chunkSize config
  /\ chunkDocument (checkingFactory (fixedSplitter splits_repeated))
       doc_repeated config (Some (fixedSplitter splits_repeated))
     = Ok [c1; c2]
  /\ Chunk.startOffset (Chunk.metadata c2)
     < Chunk.startOffset (Chunk.metadata c1) - chunkOverlap config
  /\ Chunk.endOffset (Chunk.metadata c2) < Chunk.endOffset (Chunk.metadata c1).
Proof.
  cbv zeta. split; [cbn; lia|]. split; [vm_compute; reflexivity|].
  split; cbn; lia.
Qed.

(** The bound of the amended C3 is between neighbours: every fragment
    below is found by the anchored search, one position before the previous
    one, and the fourth chunk starts 3 before the first with
    [chunkOverlap = 2]. *)
Example anchored_regressions_add_up :
  map (fun c => Chunk.startOffset (Chunk.metadata c))
      (chunksOf doc_backwards (mkChunkConfig 3 2) splits_backwards)
  = [5; 4; 3; 2]
  /\ chunkDocument (checkingFactory (fixedSplitter splits_backwards))
       doc_backwards (mkChunkConfig 3 2) (Some (fixedSplitter splits_backwards))
     = Ok (chunksOf doc_backwards (mkChunkConfig 3 2) splits_backwards).
Proof. split; vm_compute; reflexivity. Qed.

(** The instance of the amended C3 on the two chunks of [doc_padded]. *)
Lemma chunkDocument_start_regression_bounded_witness :
  let config := mkChunkConfig 5 0 in
  let c1 := Chunk.mk (JSString.lit "Hi.")
              (Chunk.mkMetadata (JSString.lit "shipping/slips.md") 0 0 3) in
  let c2 := Chunk.mk (JSString.lit "Yo.")
              (Chunk.mkMetadata (JSString.lit "shipping/slips.md") 1 5 8) in
  Chunk.startOffset (Chunk.metadata c1) - chunkOverlap config
  <= Chunk.startOffset (Chunk.metadata c2).
Proof.
  cbv zeta.
  apply (chunkDocument_start_regression_bounded
           (checkingFactory (fixedSplitter splits_padded)) doc_padded
           (mkChunkConfig 5 0) (fixedSplitter splits_padded) splits_padded
           [Chunk.mk (JSString.lit "Hi.")
              (Chunk.mkMetadata (JSString.lit "shipping/slips.md") 0 0 3);
            Chunk.mk (JSString.lit "Yo.")
              (Chunk.mkMetadata (JSString.lit "shipping/slips.md") 1 5 8)]
           0%nat _ _ (RawOffsets.mk 0 4) (JSString.lit " Yo. ")).
  - simpl. lia.
  - reflexivity.
  - vm_compute. reflexivity.
  - reflexivity.
  - reflexivity.
  - vm_compute. reflexivity.
  - vm_compute. reflexivity.
  - left. vm_compute. lia.
Defined.

(** The instance of C4 on [chunkOverlap = chunkSize = 4] (scenario 4 of the
    specification), with a splitter whose [splitText] would throw. *)
Lemma chunking_refuses_overlap_not_below_size_witness :
  chunkDocuments (createMarkdownSplitter (fun _ => throwingSplitter))
    (mkChunkConfig 4 4) [doc_sentences; doc_padded]
  = Err (Error "Cannot have chunkOverlap >= chunkSize")
  /\ chunkDocument (createMarkdownSplitter (fun _ => throwingSplitter))
       doc_blank (mkChunkConfig 4 4) None
     = Err (Error "Cannot have chunkOverlap >= chunkSize").
Proof.
  destruct (chunking_refuses_overlap_not_below_size
              (fun _ => throwingSplitter) (mkChunkConfig 4 4))
    as [Hall Hone].
  - simpl. lia.
  - split; [apply Hall | apply Hone].
Defined.

(** C5 as stated fails: [input_good] alone is persisted, but in the batch
    [input_good; input_bad] the rejected chunk of the second document rolls
    the first document back too: the committed tables stay empty. *)
Lemma insertDocuments_rollback_counterexample :
  fst (insertDocuments schemaRejects [input_good] emptyDatabase) = Ok [1]
  /\ map DocumentRow.filePath
       (document (committed
          (snd (insertDocuments schemaRejects [input_good] emptyDatabase))))
     = [JSString.lit "a.md"]
  /\ fst (insertDocuments schemaRejects [input_good; input_bad] emptyDatabase)
     = Err (Error "insert into document_chunk failed")
  /\ committed
       (snd (insertDocuments schemaRejects [input_good; input_bad] emptyDatabase))
     = mkTables [] [].
Proof. repeat split; vm_compute; reflexivity. Qed.

(** The instance of the amended C5 on that batch. *)
Lemma insertDocuments_all_or_nothing_witness :
  match insertDocuments schemaRejects [input_good; input_bad] emptyDatabase with
  | (Ok ids, db') =>
      transaction db' = None /\
      committed db' =
      addRows (committed emptyDatabase)
        (batchRows (document_id_seq emptyDatabase)
           (document_chunk_id_seq emptyDatabase) [input_good; input_bad]) /\
      ids = map DocumentRow.id
              (document (batchRows (document_id_seq emptyDatabase)
                           (document_chunk_id_seq emptyDatabase)
                           [input_good; input_bad]))
  | (Err _, db') =>
      transaction db' = None /\ committed db' = committed emptyDatabase
  end.
Proof.
  apply (insertDocuments_all_or_nothing schemaRejects
           [input_good; input_bad] emptyDatabase).
  reflexivity.
Defined.

(** The instance of C6 on the second chunk of [doc_padded]. *)
Lemma chunkDocument_offsets_in_bounds_witness :
  let c := Chunk.mk (JSString.lit "Yo.")
             (Chunk.mkMetadata (JSString.lit "shipping/slips.md") 1 5 8) in
  0 <= Chunk.startOffset (Chunk.metadata c) /\
  Chunk.startOffset (Chunk.metadata c) <= Chunk.endOffset (Chunk.metadata c) /\
  Chunk.endOffset (Chunk.metadata c) <= JSString.length (Document.content doc_padded).
Proof.
  cbv zeta.
  apply (chunkDocument_offsets_in_bounds
           (checkingFactory (fixedSplitter splits_padded)) doc_padded
           (mkChunkConfig 5 0) (Some (fixedSplitter splits_padded))
           [Chunk.mk (JSString.lit "Hi.")
              (Chunk.mkMetadata (JSString.lit "shipping/slips.md") 0 0 3);
            Chunk.mk (JSString.lit "Yo.")
              (Chunk.mkMetadata (JSString.lit "shipping/slips.md") 1 5 8)]).
  - vm_compute. reflexivity.
  - simpl. right. left. reflexivity.
Defined.

(** The instance of C7 on [doc_padded]: the blank split takes no index. *)
Lemma chunkDocument_chunkIndex_contiguous_witness :
  map (fun c => Chunk.chunkIndex (Chunk.metadata c))
    [Chunk.mk (JSString.lit "Hi.")
       (Chunk.mkMetadata (JSString.lit "shipping/slips.md") 0 0 3);
     Chunk.mk (JSString.lit "Yo.")
       (Chunk.mkMetadata (JSString.lit "shipping/slips.md") 1 5 8)]
  = map Z.of_nat (seq 0 2).
Proof.
  apply (proj1 (chunkDocument_chunkIndex_contiguous
                  (checkingFactory (fixedSplitter splits_padded)) doc_padded
                  (mkChunkConfig 5 0))
           (Some (fixedSplitter splits_padded))).
  vm_compute. reflexivity.
Defined.

(** The instance of C8 on [storedDatabase], filtered on ["shipping"], with
    an index whose scan reaches the second chunk only: one result is
    returned although [topK] is 5 and both chunks are of that category. *)
Lemma retrieve_ranked_results_witness :
  match retrieve countingEmbedding sampleDistance oneListScan dimensionError
          (mkRetrieveConfig 5) (mkEmbedConfig (JSString.lit "titan"))
          storedDatabase (JSString.lit "packing slip")
          (Some (JSString.lit "shipping")) 0%nat with
  | (Ok retrieved, _) =>
      map SearchResult.id (RetrieveResult.results retrieved) = [2] /\
      Z.of_nat (List.length (RetrieveResult.results retrieved)) <= 5 /\
      StronglySorted bySimilarityDescending (RetrieveResult.results retrieved) /\
      forall r, In r (RetrieveResult.results retrieved) ->
                SearchResult.category r = JSString.lit "shipping"
  | (Err _, _) => False
  end.
Proof.
  pose proof (retrieve_ranked_results nat countingEmbedding sampleDistance
                oneListScan dimensionError (mkRetrieveConfig 5)
                (mkEmbedConfig (JSString.lit "titan")) storedDatabase
                (JSString.lit "packing slip") (Some (JSString.lit "shipping"))
                0%nat) as H.
  destruct (retrieve countingEmbedding sampleDistance oneListScan
              dimensionError (mkRetrieveConfig 5)
              (mkEmbedConfig (JSString.lit "titan")) storedDatabase
              (JSString.lit "packing slip") (Some (JSString.lit "shipping"))
              0%nat) as [[retrieved | e] w'] eqn:E.
  - destruct H as (_ & Hlen & Hsorted & Hcat & _).
    split; [|split; [exact Hlen | split; [exact Hsorted|]]].
    + vm_compute in E. injection E as <- _. reflexivity.
    + intros r Hr. exact (Hcat _ r eq_refl Hr).
  - vm_compute in E. discriminate E.
Defined.

(** The instance of C10: the judge fails on the chunk of index 1, which is
    retrieved first; both chunks are in the result. *)
Lemma runEval_records_failed_evaluations_witness :
  exists evalResult w',
    runEval countingEmbedding sampleDistance sequentialScan dimensionError
      flakyJudge sampleParse silentWarn
      (mkRetrieveConfig 5) (mkEmbedConfig (JSString.lit "titan")) storedDatabase
      (JSString.lit "packing slip") None 0%nat
    = (Ok evalResult, w') /\
    map ChunkEvaluation.relevance (EvalResult.chunks evalResult) = [1; 4].
Proof.
  edestruct (runEval_records_failed_evaluations nat countingEmbedding
               sampleDistance sequentialScan dimensionError flakyJudge
               sampleParse silentWarn
               (mkRetrieveConfig 5) (mkEmbedConfig (JSString.lit "titan"))
               storedDatabase (JSString.lit "packing slip") None 0%nat)
    as (evalResult & w' & Hrun & _).
  { reflexivity. }
  exists evalResult, w'. split; [exact Hrun|].
  vm_compute in Hrun. injection Hrun as <- _. reflexivity.
Defined.

(* ================================================================== *)
(** * Further properties of the code *)

(* ------------------------------------------------------------------ *)
(** ** chunkDocument and chunkDocuments *)

(** X1 — every chunk returned by [chunkDocument] carries the document's
    [filePath] and a content that is not empty and already trimmed. *)
Theorem chunkDocument_chunks_trimmed
  (createMarkdownSplitter : ChunkConfig -> result Splitter)
  (document : Document.t) (config : ChunkConfig) (splitter : option Splitter)
  (chunks : list Chunk.t) (c : Chunk.t) :
  chunkDocument createMarkdownSplitter document config splitter = Ok chunks ->
  In c chunks ->
  Chunk.content c <> [] /\
  JSString.trim (Chunk.content c) = Chunk.content c /\
  Chunk.filePath (Chunk.metadata c) = Document.filePath document.
Proof.
  intros H Hin.
  destruct (chunkDocument_Ok_inv _ _ _ _ _ H)
    as [[_ ->] | (_ & sp & raw & _ & _ & ->)]; [destruct Hin|].
  apply In_nth_error in Hin as [i Hi].
  apply chunksFrom_lookup in Hi as (s & o & Hs & _ & ->).
  apply nth_error_In, filter_In in Hs as [_ Hnb].
  unfold pushedChunk. cbn.
  split; [apply nonBlank_trim; exact Hnb|].
  split; [apply trim_idempotent | reflexivity].
Qed.

Lemma chunkDocuments_loop
  (createMarkdownSplitter : ChunkConfig -> result Splitter)
  (config : ChunkConfig) (sp : Splitter) (documents : list Document.t) :
  forall allChunks : list Chunk.t,
    match forOf (fun allChunks document =>
                   bindR (chunkDocument createMarkdownSplitter document config
                            (Some sp))
                         (fun chunks => Ok (allChunks ++ chunks)))
                documents allChunks with
    | Ok all =>
        exists perDocument,
          Forall2 (fun document chunks =>
                     chunkDocument createMarkdownSplitter document config
                       (Some sp) = Ok chunks)
                  documents perDocument /\
          all = allChunks ++ List.concat perDocument
    | Err e =>
        exists document,
          In document documents /\
          chunkDocument createMarkdownSplitter document config (Some sp) = Err e
    end.
Proof.
  induction documents as [|document documents IH]; intros allChunks.
  - simpl. exists []. split; [constructor | rewrite app_nil_r; reflexivity].
  - cbn [forOf].
    destruct (chunkDocument createMarkdownSplitter document config (Some sp))
      as [chunks | e] eqn:E; cbn [bindR].
    + specialize (IH (allChunks ++ chunks)).
      match goal with
      | |- match ?x with _ => _ end => destruct x as [all | e]
      end.
      * destruct IH as (perDocument & F & ->).
        exists (chunks :: perDocument). split; [constructor; assumption|].
        simpl. rewrite app_assoc. reflexivity.
      * destruct IH as (d & Hin & Hd). exists d. split; [right|]; assumption.
    + exists document. split; [left; reflexivity | exact E].
Qed.

(** X2 — [chunkDocuments] builds one splitter and returns the chunks of the
    documents, document after document, each list being what
    [chunkDocument] returns for that document with that splitter (so chunk
    indices restart at 0 for every document); it fails with the error of
    the splitter's construction, before any document is looked at, or with
    the error of the first document whose splitting fails. *)
Theorem chunkDocuments_concatenates
  (createMarkdownSplitter : ChunkConfig -> result Splitter)
  (config : ChunkConfig) (documents : list Document.t) :
  match chunkDocuments createMarkdownSplitter config documents with
  | Ok all =>
      exists sp perDocument,
        createMarkdownSplitter config = Ok sp /\
        Forall2 (fun document chunks =>
                   chunkDocument createMarkdownSplitter document config
                     (Some sp) = Ok chunks)
                documents perDocument /\
        all = List.concat perDocument
  | Err e =>
      createMarkdownSplitter config = Err e \/
      exists sp document,
        createMarkdownSplitter config = Ok sp /\
        In document documents /\
        JSString.trim (Document.content document) <> [] /\
        sp (Document.content document) = Err e
  end.
Proof.
  unfold chunkDocuments.
  destruct (createMarkdownSplitter config) as [sp | e] eqn:C; cbn [bindR];
    [|left; reflexivity].
  pose proof (chunkDocuments_loop createMarkdownSplitter config sp documents [])
    as L.
  match goal with
  | |- match ?x with _ => _ end => destruct x as [all | e]
  end.
  - destruct L as (perDocument & F & ->). exists sp, perDocument. auto.
  - destruct L as (d & Hin & Hd). right. exists sp, d.
    split; [reflexivity|]. split; [exact Hin|].
    rewrite chunkDocument_closed_form in Hd.
    destruct (Z.eqb_spec
                (JSString.length (JSString.trim (Document.content d))) 0)
      as [E | Hne]; [discriminate|].
    destruct (sp (Document.content d)); [discriminate|].
    injection Hd as ->. split; [|reflexivity].
    intros E. rewrite E in Hne. apply Hne. reflexivity.
Qed.

(* ------------------------------------------------------------------ *)
(** ** findChunkOffsets on fragments that occur in document order *)

Lemma resolved_of_placed (text : jsstring) (chunkOverlap : Z)
  (frags : list jsstring) :
  0 <= chunkOverlap ->
  forall (previousEnd trueEnd : Z) (offsets : list RawOffsets.t)
         (positions : list Z),
    resolved text chunkOverlap previousEnd frags offsets ->
    placedInOrder text chunkOverlap trueEnd frags positions ->
    previousEnd <= trueEnd ->
    forall i f p,
      nth_error frags i = Some f ->
      nth_error positions i = Some p ->
      exists o,
        nth_error offsets i = Some o /\
        occursAt text f (RawOffsets.startOffset o) /\
        RawOffsets.startOffset o <= p /\
        RawOffsets.endOffset o = RawOffsets.startOffset o + JSString.length f.
Proof.
  intros Hov.
  induction frags as [|frag frags IH];
    intros previousEnd trueEnd offsets positions R P Hle i f p Hf Hp.
  - destruct i; discriminate Hf.
  - inversion R as [|? ? ? start offsets' Hstart R']; subst.
    inversion P as [|? ? ? pos positions' Hocc Hlow P']; subst.
    assert (Hs : occursAt text frag start /\ start <= pos).
    { pose proof (occursAt_range _ _ _ Hocc) as [Hpos _].
      assert (Hss : Z.max 0 (previousEnd - chunkOverlap) <= pos) by lia.
      destruct Hstart as [k (_ & Ok & Mk) | k N _ _ | N _].
      - split; [exact Ok|].
        destruct (Z_le_gt_dec k pos) as [L | G]; [exact L|].
        exfalso. apply (Mk pos); [lia | exact Hocc].
      - exfalso. exact (N pos Hss Hocc).
      - exfalso. exact (N pos Hss Hocc). }
    destruct Hs as [Hat Hsp].
    pose proof (occursAt_range _ _ _ Hat) as [_ Hfit].
    assert (He : Z.min (start + JSString.length frag) (JSString.length text)
                 = start + JSString.length frag) by lia.
    destruct i as [|i]; simpl in Hf, Hp.
    + injection Hf as <-. injection Hp as <-.
      eexists. split; [reflexivity|]. cbn. auto.
    + rewrite He in R'. cbn [nth_error].
      eapply IH; [exact R' | exact P' | lia | exact Hf | exact Hp].
Qed.

(** X3 — when the fragments occur in the text in order, each at a position
    not before the end of the previous one minus [chunkOverlap] (and
    [chunkOverlap >= 0]), [findChunkOffsets] never needs a fallback: every
    fragment is placed on a real occurrence of it, at or before the given
    position, and its end is its start plus its length. *)
Theorem findChunkOffsets_places_ordered_fragments
  (text : jsstring) (chunkOverlap : Z) (frags : list jsstring)
  (positions : list Z) (i : nat) (f : jsstring) (p : Z) :
  0 <= chunkOverlap ->
  placedInOrder text chunkOverlap 0 frags positions ->
  nth_error frags i = Some f ->
  nth_error positions i = Some p ->
  exists o,
    nth_error (findChunkOffsets text frags chunkOverlap) i = Some o /\
    occursAt text f (RawOffsets.startOffset o) /\
    RawOffsets.startOffset o <= p /\
    RawOffsets.endOffset o = RawOffsets.startOffset o + JSString.length f.
Proof.
  intros Hov P Hf Hp.
  eapply (resolved_of_placed text chunkOverlap frags Hov 0 0);
    [apply findChunkOffsets_resolved; left; exact Hov | exact P | lia
    | exact Hf | exact Hp].
Qed.

Lemma placedInOrder_length (text : jsstring) (chunkOverlap previousEnd : Z)
  (frags : list jsstring) (positions : list Z) :
  placedInOrder text chunkOverlap previousEnd frags positions ->
  List.length positions = List.length frags.
Proof. induction 1; simpl; congruence. Qed.

(** X4 — with a splitter whose non-blank fragments occur in the document in
    order, each not before the end of the previous one minus [chunkOverlap]
    (and [chunkOverlap >= 0]), every chunk [chunkDocument] returns satisfies
    [document.content.slice(startOffset, endOffset) = content]. *)
Theorem chunkDocument_exact_for_ordered_splits
  (createMarkdownSplitter : ChunkConfig -> result Splitter)
  (document : Document.t) (config : ChunkConfig) (sp : Splitter)
  (rawSplits : list jsstring) (positions : list Z)
  (chunks : list Chunk.t) (c : Chunk.t) :
  0 <= chunkOverlap config ->
  sp (Document.content document) = Ok rawSplits ->
  placedInOrder (Document.content document) (chunkOverlap config) 0
    (filter nonBlank rawSplits) positions ->
  chunkDocument createMarkdownSplitter document config (Some sp) = Ok chunks ->
  In c chunks ->
  JSString.slice (Document.content document)
    (Chunk.startOffset (Chunk.metadata c)) (Chunk.endOffset (Chunk.metadata c))
  = Chunk.content c.
Proof.
  intros Hov Hsp P H Hin.
  destruct (chunkDocument_Ok_inv _ _ _ _ _ H)
    as [[_ ->] | (_ & sp' & raw' & [[= <-] | [? _]] & Hsp' & ->)];
    [destruct Hin | | discriminate].
  rewrite Hsp in Hsp'. injection Hsp' as <-.
  apply In_nth_error in Hin as [i Hi].
  apply chunksFrom_lookup in Hi as (s & o & Hs & Ho & ->).
  assert (Hp : exists p, nth_error positions i = Some p).
  { destruct (nth_error positions i) as [p|] eqn:E; [eauto|].
    apply nth_error_None in E.
    rewrite (placedInOrder_length _ _ _ _ _ P) in E.
    assert (nth_error (filter nonBlank rawSplits) i <> None) by congruence.
    apply nth_error_Some in H0. lia. }
  destruct Hp as [p Hp].
  destruct (resolved_of_placed (Document.content document) (chunkOverlap config)
              (filter nonBlank rawSplits) Hov 0 0
              (findChunkOffsets (Document.content document)
                 (filter nonBlank rawSplits) (chunkOverlap config))
              positions
              (findChunkOffsets_resolved _ _ _ (or_introl Hov)) P
              (Z.le_refl 0) i s p Hs Hp)
    as (o' & Ho' & Hat & _ & Hend).
  rewrite Ho in Ho'. injection Ho' as <-.
  apply pushedChunk_slice.
  - apply nth_error_In, filter_In in Hs. tauto.
  - exact Hat.
  - pose proof (occursAt_range _ _ _ Hat). lia.
Qed.

(* ------------------------------------------------------------------ *)
(** ** cli.ts *)

Lemma category_flag_is_dashed (arg : jsstring) :
  jsstring_eqb arg (JSString.lit "--category") = true ->
  JSString.startsWith arg (JSString.lit "--") = true.
Proof. intros H. apply jsstring_eqb_eq in H. subst arg. reflexivity. Qed.

Lemma parseArgs_loop_plain (relevantArgs : list jsstring) :
  Forall (fun a => JSString.startsWith a (JSString.lit "--") = false)
         relevantArgs ->
  forall category queryParts,
    parseArgs_loop relevantArgs category queryParts =
    (category, queryParts ++ relevantArgs).
Proof.
  induction 1 as [|arg rest Harg Hrest IH]; intros category queryParts.
  - simpl. rewrite app_nil_r. reflexivity.
  - cbn [parseArgs_loop].
    destruct (jsstring_eqb arg (JSString.lit "--category")) eqn:E.
    + apply category_flag_is_dashed in E. congruence.
    + rewrite Harg. cbn [negb]. rewrite IH, <- app_assoc. reflexivity.
Qed.

(** X5 — on a command line where no argument starts with ["--"],
    [parseArgs] finds no category and the same query as
    [getQueryFromArgs]. *)
Theorem parseArgs_agrees_with_getQueryFromArgs (args : list jsstring) :
  Forall (fun a => JSString.startsWith a (JSString.lit "--") = false)
         (skipn 2 args) ->
  parseArgs args = ParsedArgs.mk (getQueryFromArgs args) None.
Proof.
  intros H. unfold parseArgs, getQueryFromArgs.
  rewrite (parseArgs_loop_plain _ H). cbn [app].
  destruct (skipn 2 args) as [|a rest]; reflexivity.
Qed.

Lemma parseArgs_loop_sound (n : nat) :
  forall (relevantArgs : list jsstring),
    (List.length relevantArgs <= n)%nat ->
    forall category queryParts,
      (exists added,
         snd (parseArgs_loop relevantArgs category queryParts)
         = queryParts ++ added /\
         Forall (fun a => In a relevantArgs /\
                          JSString.startsWith a (JSString.lit "--") = false)
                added) /\
      (fst (parseArgs_loop relevantArgs category queryParts) = category \/
       exists i v,
         fst (parseArgs_loop relevantArgs category queryParts) = Some v /\
         nth_error relevantArgs i = Some (JSString.lit "--category") /\
         nth_error relevantArgs (S i) = Some v).
Proof.
  induction n as [|n IH]; intros relevantArgs Hlen category queryParts.
  - destruct relevantArgs; [|simpl in Hlen; lia]. simpl. split.
    + exists []. rewrite app_nil_r. auto.
    + left. reflexivity.
  - destruct relevantArgs as [|arg rest].
    { simpl. split; [exists []; rewrite app_nil_r; auto | left; reflexivity]. }
    simpl in Hlen. cbn [parseArgs_loop].
    assert (Hplain :
      forall category' queryParts',
        (queryParts' = queryParts \/
         queryParts' = queryParts ++ [arg] /\
         JSString.startsWith arg (JSString.lit "--") = false) ->
        category' = category ->
        (exists added,
           snd (parseArgs_loop rest category' queryParts') = queryParts ++ added /\
           Forall (fun a => In a (arg :: rest) /\
                            JSString.startsWith a (JSString.lit "--") = false)
                  added) /\
        (fst (parseArgs_loop rest category' queryParts') = category \/
         exists i v,
           fst (parseArgs_loop rest category' queryParts') = Some v /\
           nth_error (arg :: rest) i = Some (JSString.lit "--category") /\
           nth_error (arg :: rest) (S i) = Some v)).
    { intros category' queryParts' Hq ->.
      destruct (IH rest ltac:(lia) category queryParts')
        as ((added & Hs & Hf) & Hc). split.
      - destruct Hq as [-> | [-> Hd]].
        + exists added. split; [exact Hs|].
          eapply Forall_impl; [|exact Hf]. simpl. tauto.
        + exists (arg :: added). split.
          * rewrite Hs, <- app_assoc. reflexivity.
          * constructor; [simpl; auto|].
            eapply Forall_impl; [|exact Hf]. simpl. tauto.
      - destruct Hc as [Hc | (i & v & Hv & Hi & Hi')]; [left; exact Hc|].
        right. exists (S i), v. auto. }
    assert (Hother :
      (exists added,
         snd (if negb (JSString.startsWith arg (JSString.lit "--"))
              then parseArgs_loop rest category (queryParts ++ [arg])
              else parseArgs_loop rest category queryParts)
         = queryParts ++ added /\
         Forall (fun a => In a (arg :: rest) /\
                          JSString.startsWith a (JSString.lit "--") = false)
                added) /\
      (fst (if negb (JSString.startsWith arg (JSString.lit "--"))
            then parseArgs_loop rest category (queryParts ++ [arg])
            else parseArgs_loop rest category queryParts) = category \/
       exists i v,
         fst (if negb (JSString.startsWith arg (JSString.lit "--"))
              then parseArgs_loop rest category (queryParts ++ [arg])
              else parseArgs_loop rest category queryParts) = Some v /\
         nth_error (arg :: rest) i = Some (JSString.lit "--category") /\
         nth_error (arg :: rest) (S i) = Some v)).
    { destruct (JSString.startsWith arg (JSString.lit "--")) eqn:D; cbn [negb].
      - apply Hplain; auto.
      - apply Hplain; auto. }
    destruct (jsstring_eqb arg (JSString.lit "--category")) eqn:E;
      [|exact Hother].
    destruct rest as [|next rest']; [exact Hother|].
    apply jsstring_eqb_eq in E. subst arg.
    destruct (IH rest' ltac:(simpl in Hlen; lia) (Some next) queryParts)
      as ((added & Hs & Hf) & Hc). split.
    + exists added. split; [exact Hs|].
      eapply Forall_impl; [|exact Hf]. simpl. tauto.
    + right. destruct Hc as [Hc | (i & v & Hv & Hi & Hi')].
      * exists 0%nat, next. auto.
      * exists (S (S i)), v. auto.
Qed.

(** X6 — whatever the command line, the category [parseArgs] returns is an
    argument that directly follows a ["--category"] argument, and the query
    it returns is trimmed and is the trimmed join, with single spaces, of
    arguments that do not start with ["--"]: an option never leaks into the
    query. *)
Theorem parseArgs_sound (args : list jsstring) :
  (forall v,
     ParsedArgs.category (parseArgs args) = Some v ->
     exists i,
       nth_error (skipn 2 args) i = Some (JSString.lit "--category") /\
       nth_error (skipn 2 args) (S i) = Some v)
  /\ (forall q,
        ParsedArgs.query (parseArgs args) = Some q ->
        JSString.trim q = q /\
        exists parts,
          parts <> [] /\
          q = JSString.trim (join (JSString.lit " ") parts) /\
          Forall (fun a => In a (skipn 2 args) /\
                           JSString.startsWith a (JSString.lit "--") = false)
                 parts).
Proof.
  unfold parseArgs.
  destruct (parseArgs_loop_sound (List.length (skipn 2 args)) (skipn 2 args)
              (Nat.le_refl _) None [])
    as ((added & Hs & Hf) & Hc).
  destruct (parseArgs_loop (skipn 2 args) None []) as [category queryParts].
  cbn [fst snd app] in *. subst queryParts. cbn [ParsedArgs.category ParsedArgs.query].
  split.
  - intros v Hv. destruct Hc as [Hc | (i & v' & Hv' & Hi & Hi')];
      [congruence|].
    exists i. rewrite Hv in Hv'. injection Hv' as <-. auto.
  - intros q Hq.
    destruct added as [|a added]; [discriminate Hq|].
    assert (G : (Z.of_nat (List.length (a :: added)) >? 0) = true)
      by (apply Z.gtb_lt; simpl; lia).
    rewrite G in Hq. injection Hq as <-. split; [apply trim_idempotent|].
    exists (a :: added). split; [discriminate|]. auto.
Qed.

(* ------------------------------------------------------------------ *)
(** ** eval.ts: normalizeScore, extractJson, parseJudgeResponse *)

Lemma Math_round_integer (k : Z) : Judge.Math_round (inject_Z k) = k.
Proof.
  unfold Judge.Math_round.
  pose proof (Qfloor_le (inject_Z k + (1 # 2))) as L.
  pose proof (Qlt_floor (inject_Z k + (1 # 2))) as U.
  set (f := Qfloor (inject_Z k + (1 # 2))) in *.
  unfold Qle, Qlt, Qplus, inject_Z in L, U. simpl in L, U. lia.
Qed.

Lemma normalizeScore_Ok_range
  (Number : option Json -> JSNumber) (value : option Json)
  (fieldName : string) (z : Z) :
  Judge.normalizeScore Number value fieldName = Ok z -> 1 <= z <= 5.
Proof.
  unfold Judge.normalizeScore.
  destruct (match value with
            | Some (JNumber n) => n
            | _ => Number value
            end); try discriminate.
  intros [= <-]. lia.
Qed.

(** X7 — [normalizeScore] returns an integer from 1 to 5 whenever it
    returns; it returns for every finite number, it returns a score from 1
    to 5 unchanged, and it throws for NaN and the infinities. *)
Theorem normalizeScore_range
  (Number : option Json -> JSNumber) (value : option Json)
  (fieldName : string) :
  (forall z, Judge.normalizeScore Number value fieldName = Ok z -> 1 <= z <= 5)
  /\ (forall q,
        exists z,
          Judge.normalizeScore Number (Some (JNumber (Finite q))) fieldName
          = Ok z)
  /\ (forall k,
        1 <= k <= 5 ->
        Judge.normalizeScore Number (Some (JNumber (Finite (inject_Z k))))
          fieldName = Ok k)
  /\ (forall n,
        n = NaN \/ n = PositiveInfinity \/ n = NegativeInfinity ->
        Judge.normalizeScore Number (Some (JNumber n)) fieldName
        = Err (Error ("Invalid " ++ fieldName ++ " score."))).
Proof.
  split; [|split; [|split]].
  - intros z. apply normalizeScore_Ok_range.
  - intros q. eexists. reflexivity.
  - intros k Hk. unfold Judge.normalizeScore.
    rewrite Math_round_integer. f_equal. lia.
  - intros n [-> | [-> | ->]]; reflexivity.
Qed.

Lemma afterFirst_Some (c : N) (s rest : jsstring) :
  Judge.afterFirst c s = Some rest <->
  exists pre, s = pre ++ c :: rest /\ ~ In c pre.
Proof.
  split.
  - revert rest. induction s as [|x s IH]; intros rest H; [discriminate H|].
    simpl in H. destruct (N.eqb_spec x c) as [-> | Hne].
    + injection H as <-. exists []. auto.
    + destruct (IH rest H) as (pre & -> & Hpre). exists (x :: pre).
      split; [reflexivity|]. simpl. intros [E | E]; [congruence | auto].
  - intros (pre & -> & Hpre). induction pre as [|x pre IH]; simpl.
    + rewrite N.eqb_refl. reflexivity.
    + destruct (N.eqb_spec x c) as [-> | Hne].
      * exfalso. apply Hpre. left. reflexivity.
      * apply IH. intros E. apply Hpre. right. exact E.
Qed.

Lemma afterFirst_None (c : N) (s : jsstring) :
  Judge.afterFirst c s = None <-> ~ In c s.
Proof.
  induction s as [|x s IH]; simpl; [tauto|].
  destruct (N.eqb_spec x c) as [-> | Hne].
  - split; [discriminate | intros H; exfalso; apply H; auto].
  - rewrite IH. split; intros H; [intros [E | E]; [congruence | auto] | tauto].
Qed.

Lemma throughLast_None (c : N) (s : jsstring) :
  Judge.throughLast c s = None <-> ~ In c s.
Proof.
  induction s as [|x s IH]; simpl; [tauto|].
  destruct (Judge.throughLast c s) as [p|].
  - split; [discriminate|]. intros H. exfalso.
    assert (Hs : ~ In c s) by tauto.
    apply IH in Hs. discriminate Hs.
  - destruct (N.eqb_spec x c) as [-> | Hne].
    + split; [discriminate | intros H; exfalso; apply H; auto].
    + split; [intros _ [E | E]; [congruence | apply IH in E; auto]
             | reflexivity].
Qed.

Lemma throughLast_Some (c : N) (s p : jsstring) :
  Judge.throughLast c s = Some p <->
  exists front post, p = front ++ [c] /\ s = p ++ post /\ ~ In c post.
Proof.
  split.
  - revert p. induction s as [|x s IH]; intros p H; [discriminate H|].
    simpl in H. destruct (Judge.throughLast c s) as [p'|] eqn:E.
    + injection H as <-.
      destruct (IH p' eq_refl) as (front & post & -> & -> & Hpost).
      exists (x :: front), post. repeat split; auto.
    + destruct (N.eqb_spec x c) as [-> | Hne]; [|discriminate H].
      injection H as <-. exists [], s. repeat split.
      apply throughLast_None. exact E.
  - intros (front & post & -> & -> & Hpost).
    induction front as [|x front IH]; simpl.
    + apply throughLast_None in Hpost. rewrite Hpost, N.eqb_refl. reflexivity.
    + rewrite IH. reflexivity.
Qed.

(** X8 — [extractJson] returns the part of the text from its first ["{"]
    to its last ["}"], and only that: a result [s] means the text is
    [pre ++ s ++ post] with [s] of the form ["{" ... "}"], no ["{"] in [pre]
    and no ["}"] in [post]; and every text of that shape gives that
    result. *)
Theorem extractJson_first_to_last_brace (text s : jsstring) :
  Judge.extractJson text = Some s <->
  exists pre body post,
    text = pre ++ s ++ post /\
    s = [123%N] ++ body ++ [125%N] /\
    ~ In 123%N pre /\ ~ In 125%N post.
Proof.
  unfold Judge.extractJson. split.
  - destruct (Judge.afterFirst 123 text) as [rest|] eqn:A; [|discriminate].
    destruct (Judge.throughLast 125 rest) as [p|] eqn:T; [|discriminate].
    intros [= <-].
    apply afterFirst_Some in A as (pre & -> & Hpre).
    apply throughLast_Some in T as (front & post & -> & -> & Hpost).
    exists pre, front, post.
    split; [simpl; rewrite <- app_assoc; reflexivity|].
    split; [reflexivity|]. split; assumption.
  - intros (pre & body & post & -> & -> & Hpre & Hpost).
    assert (A : Judge.afterFirst 123 (pre ++ ([123%N] ++ body ++ [125%N]) ++ post)
                = Some ((body ++ [125%N]) ++ post)).
    { apply afterFirst_Some. exists pre. split; [|exact Hpre].
      simpl. rewrite <- app_assoc. reflexivity. }
    rewrite A.
    assert (T : Judge.throughLast 125 ((body ++ [125%N]) ++ post)
                = Some (body ++ [125%N])).
    { apply throughLast_Some. exists body, post. auto. }
    rewrite T. reflexivity.
Qed.

(** X9 — whenever [parseJudgeResponse] returns, both scores are integers
    from 1 to 5 and the reasoning is trimmed; and it only returns for a
    parsed value that is an object or an array. *)
Theorem parseJudgeResponse_scores_in_range
  (JSON_parse : jsstring -> result Json) (Number : option Json -> JSNumber)
  (text : jsstring) (scores : JudgeScores) :
  Judge.parseJudgeResponse JSON_parse Number text = Ok scores ->
  1 <= judgedRelevance scores <= 5 /\
  1 <= judgedSufficiency scores <= 5 /\
  JSString.trim (judgedReasoning scores) = judgedReasoning scores /\
  exists parsed,
    (JSON_parse (JSString.trim text) = Ok parsed \/
     exists extracted,
       Judge.extractJson (JSString.trim text) = Some extracted /\
       JSON_parse extracted = Ok parsed) /\
    ((exists items, parsed = JArray items) \/
     (exists properties, parsed = JObject properties)).
Proof.
  unfold Judge.parseJudgeResponse.
  set (trimmed := JSString.trim text).
  intros H.
  assert (P : exists parsed,
            (JSON_parse trimmed = Ok parsed \/
             exists extracted,
               Judge.extractJson trimmed = Some extracted /\
               JSON_parse extracted = Ok parsed) /\
            bindR (Ok parsed)
              (fun parsed =>
                 match parsed with
                 | JArray _ | JObject _ =>
                     bindR (Judge.normalizeScore Number
                              (Judge.getProperty parsed (JSString.lit "relevance"))
                              "relevance")
                       (fun relevance =>
                          bindR (Judge.normalizeScore Number
                                   (Judge.getProperty parsed
                                      (JSString.lit "sufficiency"))
                                   "sufficiency")
                            (fun sufficiency =>
                               Ok (mkJudgeScores relevance sufficiency
                                     match Judge.getProperty parsed
                                             (JSString.lit "reasoning") with
                                     | Some (JString reasoning) =>
                                         JSString.trim reasoning
                                     | _ => JSString.lit "No reasoning provided."
                                     end)))
                 | _ => Err (Error "Judge response is not a JSON object.")
                 end) = Ok scores).
  { destruct (JSON_parse trimmed) as [parsed | e] eqn:J.
    - exists parsed. split; [left; reflexivity | exact H].
    - destruct (Judge.extractJson trimmed) as [extracted|] eqn:X;
        [|discriminate H].
      destruct (JSON_parse extracted) as [parsed | e'] eqn:J'; [|discriminate H].
      exists parsed. split; [right; exists extracted; auto | exact H]. }
  clear H. destruct P as (parsed & Hfrom & H). cbn [bindR] in H.
  assert (K : forall (v : option Json) (f : string) (k : Z -> result JudgeScores),
            bindR (Judge.normalizeScore Number v f) k = Ok scores ->
            exists z, 1 <= z <= 5 /\ k z = Ok scores).
  { intros v f k Hk.
    destruct (Judge.normalizeScore Number v f) as [z | e] eqn:E; [|discriminate Hk].
    exists z. split; [|exact Hk].
    exact (normalizeScore_Ok_range Number v f z E). }
  assert (R : forall o : option Json,
            JSString.trim
              match o with
              | Some (JString reasoning) => JSString.trim reasoning
              | _ => JSString.lit "No reasoning provided."
              end
            = match o with
              | Some (JString reasoning) => JSString.trim reasoning
              | _ => JSString.lit "No reasoning provided."
              end).
  { intros [[| | | reasoning | |]|]; try reflexivity. apply trim_idempotent. }
  destruct parsed as [| b | n | s | items | properties]; try discriminate H.
  - apply K in H as (r & Hr & H). apply K in H as (u & Hu & H).
    injection H as <-. cbn.
    split; [lia|]. split; [lia|]. split; [exact (R None)|].
    exists (JArray items). split; [exact Hfrom | left; eauto].
  - apply K in H as (r & Hr & H). apply K in H as (u & Hu & H).
    injection H as <-. cbn.
    split; [lia|]. split; [lia|]. split; [apply R|].
    exists (JObject properties). split; [exact Hfrom | right; eauto].
Qed.

Lemma parseJudgeResponse_Ok_scores
  (JSON_parse : jsstring -> result Json) (Number : option Json -> JSNumber)
  (text : jsstring) (scores : JudgeScores) :
  Judge.parseJudgeResponse JSON_parse Number text = Ok scores ->
  1 <= judgedRelevance scores <= 5 /\ 1 <= judgedSufficiency scores <= 5.
Proof.
  unfold Judge.parseJudgeResponse.
  match goal with
  | |- bindR ?m _ = _ -> _ => destruct m as [parsed | e]
  end; [|discriminate].
  cbn [bindR].
  destruct parsed; try discriminate;
    match goal with
    | |- bindR ?m _ = _ -> _ => destruct m as [r | e] eqn:Er
    end; try discriminate; cbn [bindR];
    match goal with
    | |- bindR ?m _ = _ -> _ => destruct m as [u | e] eqn:Eu
    end; try discriminate; cbn [bindR];
    intros [= <-]; cbn;
    apply normalizeScore_Ok_range in Er;
    apply normalizeScore_Ok_range in Eu; auto.
Qed.

Lemma evaluatedEach_scores (World : Type)
  (invokeJudge : jsstring -> SearchResult.t -> SE World jsstring)
  (JSON_parse : jsstring -> result Json) (Number : option Json -> JSNumber)
  (consoleWarn : Z -> error -> World -> World)
  (query : jsstring) (w : World) (results : list SearchResult.t)
  (evaluations : list ChunkEvaluation.t) (w' : World) :
  evaluatedEach invokeJudge (Judge.parseJudgeResponse JSON_parse Number)
    consoleWarn query w results evaluations w' ->
  Forall scoresInRange evaluations.
Proof.
  induction 1 as [w | w result evaluation w1 results evaluations w2 E _ IH
                 | w result e w1 results evaluations w2 E _ IH].
  - constructor.
  - constructor; [|exact IH].
    unfold evaluateChunk, bind, ret in E.
    destruct (invokeJudge query result w) as [[responseText | e] w0];
      [|discriminate E].
    destruct (Judge.parseJudgeResponse JSON_parse Number responseText)
      as [parsed | e] eqn:P; [|discriminate E].
    injection E as <- _.
    exact (parseJudgeResponse_Ok_scores _ _ _ _ P).
  - constructor; [|exact IH]. unfold scoresInRange. cbn. lia.
Qed.

(** X10 — with the repository's [parseJudgeResponse] as the parser, every
    evaluation in the result of [runEval] has a relevance and a sufficiency
    from 1 to 5, whether the judge answered or its evaluation failed. *)
Theorem runEval_scores_in_range
  (World : Type) (generateEmbedding : jsstring -> jsstring -> SE World vector)
  (cosine_distance : vector -> vector -> Q)
  (indexScan : Tables -> vector -> DocumentChunkRow.t -> bool)
  (queryError : Tables -> vector -> Z -> option jsstring -> option error)
  (invokeJudge : jsstring -> SearchResult.t -> SE World jsstring)
  (JSON_parse : jsstring -> result Json) (Number : option Json -> JSNumber)
  (consoleWarn : Z -> error -> World -> World)
  (retrieveConfig : RetrieveConfig) (embedConfig : EmbedConfig) (db : Database)
  (query : jsstring) (category : option jsstring)
  (w w' : World) (evalResult : EvalResult.t) :
  runEval generateEmbedding cosine_distance indexScan queryError invokeJudge
    (Judge.parseJudgeResponse JSON_parse Number) consoleWarn retrieveConfig
    embedConfig db query category w = (Ok evalResult, w') ->
  Forall scoresInRange (EvalResult.chunks evalResult).
Proof.
  unfold runEval. unfold bind at 1.
  destruct (retrieve generateEmbedding cosine_distance indexScan queryError retrieveConfig
              embedConfig db query category w) as [[retrieved | e] w1];
    [|discriminate].
  destruct (runEval_loop World invokeJudge
              (Judge.parseJudgeResponse JSON_parse Number) consoleWarn query
              (RetrieveResult.results retrieved) [] w1)
    as (evaluations & w2 & Hloop & Hev).
  unfold bind at 1. rewrite Hloop. unfold ret. cbn [app].
  intros [= <- _]. cbn [EvalResult.chunks].
  eapply evaluatedEach_scores. exact Hev.
Qed.

(* ------------------------------------------------------------------ *)
(** ** generate.ts *)

Lemma retrieve_Ok_inv (World : Type)
  (generateEmbedding : jsstring -> jsstring -> SE World vector)
  (cosine_distance : vector -> vector -> Q)
  (indexScan : Tables -> vector -> DocumentChunkRow.t -> bool)
  (queryError : Tables -> vector -> Z -> option jsstring -> option error)
  (retrieveConfig : RetrieveConfig) (embedConfig : EmbedConfig) (db : Database)
  (query : jsstring) (category : option jsstring) (w w' : World)
  (retrieved : RetrieveResult.t) :
  retrieve generateEmbedding cosine_distance indexScan queryError retrieveConfig embedConfig db
    query category w = (Ok retrieved, w') ->
  exists embedding,
    searchByVector cosine_distance indexScan queryError embedding
      (topK retrieveConfig) category db
    = Ok (RetrieveResult.results retrieved).
Proof.
  unfold retrieve, bind, ret.
  destruct (generateEmbedding query (modelId embedConfig) w)
    as [[embedding | e] w1]; [|discriminate].
  destruct (searchByVector cosine_distance indexScan queryError embedding
              (topK retrieveConfig) category db) as [results | e] eqn:S;
    [|discriminate].
  intros [= <- _]. exists embedding. exact S.
Qed.

(** X11 — when retrieval throws, [generate] does not: it prints a warning,
    asks the model with the prompt built around "No relevant context
    found.", and what it returns has an empty context and a context count
    of 0; only a failure of the model call makes it throw. *)
Theorem generate_without_context
  (World : Type) (generateEmbedding : jsstring -> jsstring -> SE World vector)
  (cosine_distance : vector -> vector -> Q)
  (indexScan : Tables -> vector -> DocumentChunkRow.t -> bool)
  (queryError : Tables -> vector -> Z -> option jsstring -> option error)
  (invokeClaude : jsstring -> SE World jsstring)
  (warnRetrievalFailed : World -> World)
  (retrieveConfig : RetrieveConfig) (embedConfig : EmbedConfig) (db : Database)
  (query : jsstring) (w w1 : World) (e : error) :
  retrieve generateEmbedding cosine_distance indexScan queryError retrieveConfig embedConfig db
    query None w = (Err e, w1) ->
  generate generateEmbedding cosine_distance indexScan queryError invokeClaude warnRetrievalFailed
    retrieveConfig embedConfig db query w =
  match invokeClaude
          (buildUserPrompt query (JSString.lit "No relevant context found."))
          (warnRetrievalFailed w1) with
  | (Ok response, w2) => (Ok (GenerateResult.mk query response [] 0), w2)
  | (Err e', w2) => (Err e', w2)
  end.
Proof.
  intros H. unfold generate, bind, tryCatch. rewrite H.
  unfold generateResponse. cbn [RetrieveResult.results].
  change (formatContextForPrompt [])
    with (JSString.lit "No relevant context found.").
  destruct (invokeClaude
              (buildUserPrompt query (JSString.lit "No relevant context found."))
              (warnRetrievalFailed w1)) as [[response | e'] w2]; reflexivity.
Qed.

(** X12 — whatever retrieval does, a result of [generate] repeats the query,
    its [contextCount] is the length of its context, and the context is
    ranked by descending similarity and, unless empty, no longer than
    [topK]; and an error of [generate] is always the error of a model call,
    never one of retrieval. *)
Theorem generate_result_and_errors
  (World : Type) (generateEmbedding : jsstring -> jsstring -> SE World vector)
  (cosine_distance : vector -> vector -> Q)
  (indexScan : Tables -> vector -> DocumentChunkRow.t -> bool)
  (queryError : Tables -> vector -> Z -> option jsstring -> option error)
  (invokeClaude : jsstring -> SE World jsstring)
  (warnRetrievalFailed : World -> World)
  (retrieveConfig : RetrieveConfig) (embedConfig : EmbedConfig) (db : Database)
  (query : jsstring) (w : World) :
  match generate generateEmbedding cosine_distance indexScan queryError invokeClaude
          warnRetrievalFailed retrieveConfig embedConfig db query w with
  | (Ok g, _) =>
      GenerateResult.query g = query /\
      GenerateResult.contextCount g
      = Z.of_nat (List.length (GenerateResult.context g)) /\
      StronglySorted bySimilarityDescending (GenerateResult.context g) /\
      (GenerateResult.context g = [] \/
       GenerateResult.contextCount g <= topK retrieveConfig)
  | (Err e, w') =>
      exists prompt w0, invokeClaude prompt w0 = (Err e, w')
  end.
Proof.
  unfold generate. unfold bind at 1. unfold tryCatch.
  destruct (retrieve generateEmbedding cosine_distance indexScan queryError retrieveConfig
              embedConfig db query None w) as [[retrieved | e] w1] eqn:R.
  - unfold bind, generateResponse, ret.
    destruct (invokeClaude
                (buildUserPrompt query
                   (formatContextForPrompt (RetrieveResult.results retrieved)))
                w1) as [[response | e'] w2] eqn:C.
    + cbn. destruct (retrieve_Ok_inv _ _ _ _ _ _ _ _ _ _ _ _ _ R)
        as [embedding S].
      destruct (searchByVector_results _ _ _ _ _ _ _ _ S)
        as (Hlen & Hsorted & _).
      auto.
    + eauto.
  - unfold bind, generateResponse, ret. cbn [RetrieveResult.results].
    destruct (invokeClaude (buildUserPrompt query (formatContextForPrompt []))
                (warnRetrievalFailed w1)) as [[response | e'] w2] eqn:C.
    + cbn. repeat split; auto. constructor.
    + eauto.
Qed.

(* ------------------------------------------------------------------ *)
(** ** database.ts: what ends up in the store *)

Lemma insertDocuments_outcome
  (rejects : Tables -> Insert -> bool)
  (docs : list DocumentWithChunksInput.t) (db : Database) :
  transaction db = None ->
  match insertDocuments rejects docs db with
  | (Ok ids, db') =>
      transaction db' = None /\
      committed db' =
      addRows (committed db)
        (batchRows (document_id_seq db) (document_chunk_id_seq db) docs) /\
      ids = map DocumentRow.id
              (document (batchRows (document_id_seq db)
                           (document_chunk_id_seq db) docs))
  | (Err _, db') =>
      transaction db' = None /\ committed db' = committed db
  end.
Proof.
  intros Hn. unfold insertDocuments.
  destruct docs as [|doc docs].
  - cbn. rewrite addRows_empty. auto.
  - replace (Z.of_nat (List.length (doc :: docs)) =? 0) with false
      by (symmetry; apply Z.eqb_neq; simpl; lia).
    unfold tryCatch. unfold bind at 1. unfold query_BEGIN. rewrite Hn.
    unfold bind at 1.
    match goal with
    | |- context [forOfSE ?f ?l ?a ?d] =>
        pose proof (insertDocuments_loop rejects l a d _ eq_refl) as L;
        destruct (forOfSE f l a d) as [[ids | e] db']
    end; cbn in L.
    + destruct L as (Hc & Ht & ->). cbn. unfold workingTables. rewrite Ht.
      auto.
    + cbn. auto.
Qed.

Lemma batchRows_ids_from (docs : list DocumentWithChunksInput.t) :
  forall documentId chunkId,
    Forall (fun d => documentId <= DocumentRow.id d)
           (document (batchRows documentId chunkId docs)).
Proof.
  induction docs as [|doc docs IH]; intros documentId chunkId; simpl.
  - constructor.
  - constructor; [simpl; lia|].
    eapply Forall_impl; [|apply IH]. simpl. intros d Hd. lia.
Qed.

Lemma filter_id_none (k : Z) (rows : list DocumentRow.t) :
  Forall (fun d => DocumentRow.id d <> k) rows ->
  filter (fun d => DocumentRow.id d =? k) rows = [].
Proof.
  induction 1 as [|d rows Hd _ IH]; simpl; [reflexivity|].
  destruct (Z.eqb_spec (DocumentRow.id d) k); [contradiction | exact IH].
Qed.

Lemma batchRows_lookup (docs : list DocumentWithChunksInput.t) :
  forall documentId chunkId (pre : list DocumentRow.t),
    Forall (fun d => DocumentRow.id d < documentId) pre ->
    Forall2
      (fun id doc =>
         match filter (fun d => DocumentRow.id d =? id)
                      (pre ++ document (batchRows documentId chunkId docs)) with
         | [] => None
         | row :: _ => Some row
         end
         = Some (DocumentRow.mk id
                   (DocumentInput.content (DocumentWithChunksInput.document doc))
                   (DocumentInput.category (DocumentWithChunksInput.document doc))
                   (DocumentInput.filePath (DocumentWithChunksInput.document doc))))
      (map DocumentRow.id (document (batchRows documentId chunkId docs)))
      docs.
Proof.
  induction docs as [|doc docs IH]; intros documentId chunkId pre Hpre.
  - constructor.
  - cbn [batchRows document map DocumentRow.id]. constructor.
    + rewrite filter_app, filter_id_none.
      * simpl. rewrite Z.eqb_refl. reflexivity.
      * eapply Forall_impl; [|exact Hpre]. simpl. intros d Hd. lia.
    + specialize (IH (documentId + 1)
                    (chunkId + Z.of_nat (List.length
                                           (DocumentWithChunksInput.chunks doc)))
                    (pre ++ [DocumentRow.mk documentId
                               (DocumentInput.content
                                  (DocumentWithChunksInput.document doc))
                               (DocumentInput.category
                                  (DocumentWithChunksInput.document doc))
                               (DocumentInput.filePath
                                  (DocumentWithChunksInput.document doc))])).
      rewrite <- app_assoc in IH. apply IH.
      apply Forall_app. split.
      * eapply Forall_impl; [|exact Hpre]. simpl. intros d Hd. lia.
      * constructor; [simpl; lia | constructor].
Qed.

(** X13 — insert then look up: after a successful [insertDocuments] on a
    database whose stored document ids are all below the next value of the
    id sequence, [getDocumentById] on each returned id gives the document
    that was passed in at that position (content, category, filePath), and
    looking up an id below the old sequence value gives what it gave
    before. *)
Theorem getDocumentById_after_insertDocuments
  (rejects : Tables -> Insert -> bool)
  (docs : list DocumentWithChunksInput.t) (db db' : Database)
  (ids : list Z) :
  transaction db = None ->
  Forall (fun d => DocumentRow.id d < document_id_seq db)
         (document (committed db)) ->
  insertDocuments rejects docs db = (Ok ids, db') ->
  Forall2
    (fun id doc =>
       getDocumentById id db'
       = Some (DocumentRow.mk id
                 (DocumentInput.content (DocumentWithChunksInput.document doc))
                 (DocumentInput.category (DocumentWithChunksInput.document doc))
                 (DocumentInput.filePath (DocumentWithChunksInput.document doc))))
    ids docs
  /\ forall id,
       id < document_id_seq db ->
       getDocumentById id db' = getDocumentById id db.
Proof.
  intros Hn Hfresh H.
  pose proof (insertDocuments_outcome rejects docs db Hn) as O.
  rewrite H in O. destruct O as (_ & Hc & ->).
  unfold getDocumentById. rewrite Hc. cbn [addRows document]. split.
  - apply batchRows_lookup. exact Hfresh.
  - intros id Hid. rewrite filter_app.
    rewrite (filter_id_none id (document (batchRows _ _ docs))).
    + rewrite app_nil_r. reflexivity.
    + eapply Forall_impl; [|apply batchRows_ids_from]. simpl. intros d Hd. lia.
Qed.

Lemma INSERT_document_chunk_autocommit
  (rejects : Tables -> Insert -> bool) (documentId : Z)
  (chunk : DocumentChunkInput.t) (db : Database) :
  query_INSERT_document_chunk rejects false documentId chunk db =
  if rejects (committed db) (INSERT_document_chunk documentId chunk)
  then (Err (Error "insert into document_chunk failed"), db)
  else (Ok (document_chunk_id_seq db),
        mkDatabase
          (mkTables (document (committed db))
             (document_chunk (committed db) ++
              chunkRows documentId (document_chunk_id_seq db) [chunk]))
          (transaction db) (document_id_seq db)
          (document_chunk_id_seq db + 1)).
Proof.
  unfold query_INSERT_document_chunk. cbn.
  destruct (rejects (committed db) (INSERT_document_chunk documentId chunk));
    reflexivity.
Qed.

Lemma insertDocumentChunks_autocommit_loop
  (rejects : Tables -> Insert -> bool) (documentId : Z)
  (chunks : list DocumentChunkInput.t) :
  forall (acc : list Z) (db : Database),
    match forOfSE (fun insertedIds chunk =>
                     bind (query_INSERT_document_chunk rejects false
                             documentId chunk)
                          (fun id => ret (insertedIds ++ [id])))
                  chunks acc db with
    | (Ok ids, db') =>
        committed db' =
        mkTables (document (committed db))
          (document_chunk (committed db) ++
           chunkRows documentId (document_chunk_id_seq db) chunks) /\
        List.length ids = (List.length acc + List.length chunks)%nat
    | (Err _, db') =>
        exists k chunk,
          nth_error chunks k = Some chunk /\
          committed db' =
          mkTables (document (committed db))
            (document_chunk (committed db) ++
             chunkRows documentId (document_chunk_id_seq db) (firstn k chunks)) /\
          rejects (committed db') (INSERT_document_chunk documentId chunk) = true
    end.
Proof.
  induction chunks as [|chunk chunks IH]; intros acc db.
  - simpl. rewrite app_nil_r. destruct (committed db). split; [reflexivity | lia].
  - cbn [forOfSE]. unfold bind at 1. unfold bind at 1.
    rewrite INSERT_document_chunk_autocommit.
    destruct (rejects (committed db) (INSERT_document_chunk documentId chunk))
      eqn:Rj.
    + exists 0%nat, chunk. split; [reflexivity|]. split; [|exact Rj].
      simpl. rewrite app_nil_r. destruct (committed db). reflexivity.
    + unfold ret at 1.
      match goal with
      | |- context [forOfSE ?f chunks ?a ?d] =>
          specialize (IH a d); destruct (forOfSE f chunks a d) as [[ids | e] db']
      end; cbn in IH.
      * destruct IH as [Hc Hl]. split.
        -- rewrite Hc. cbn. rewrite <- app_assoc. reflexivity.
        -- rewrite Hl, List.length_app. simpl. lia.
      * destruct IH as (k & c & Hk & Hc & Hr).
        exists (S k), c. split; [exact Hk|]. split; [|exact Hr].
        rewrite Hc. cbn. rewrite <- app_assoc. reflexivity.
Qed.

(** X14 — called without a client, [insertDocumentChunks] is not atomic:
    every INSERT commits on its own, so when the insert of some chunk is
    rejected the call throws and the chunks before it stay committed; when
    no insert is rejected all the rows are committed and one id per chunk
    is returned. *)
Theorem insertDocumentChunks_without_client_commits_prefix
  (rejects : Tables -> Insert -> bool) (documentId : Z)
  (chunks : list DocumentChunkInput.t) (db : Database) :
  match insertDocumentChunks rejects documentId chunks false db with
  | (Ok ids, db') =>
      committed db' =
      mkTables (document (committed db))
        (document_chunk (committed db) ++
         chunkRows documentId (document_chunk_id_seq db) chunks) /\
      List.length ids = List.length chunks
  | (Err _, db') =>
      exists k chunk,
        nth_error chunks k = Some chunk /\
        committed db' =
        mkTables (document (committed db))
          (document_chunk (committed db) ++
           chunkRows documentId (document_chunk_id_seq db) (firstn k chunks)) /\
        rejects (committed db') (INSERT_document_chunk documentId chunk) = true
  end.
Proof.
  unfold insertDocumentChunks.
  pose proof (insertDocumentChunks_autocommit_loop rejects documentId chunks
                [] db) as L.
  destruct chunks as [|chunk chunks].
  - cbn. rewrite app_nil_r. destruct (committed db). auto.
  - replace (Z.of_nat (List.length (chunk :: chunks)) =? 0) with false
      by (symmetry; apply Z.eqb_neq; simpl; lia).
    exact L.
Qed.

Lemma JOIN_In (t : Tables) (dc : DocumentChunkRow.t) (d : DocumentRow.t) :
  In (dc, d) (JOIN t) <->
  In dc (document_chunk t) /\ In d (document t) /\
  DocumentRow.id d = DocumentChunkRow.documentId dc.
Proof.
  unfold JOIN. rewrite in_flat_map. split.
  - intros (dc' & Hdc & Hin).
    apply in_map_iff in Hin as (d' & [= <- <-] & Hd).
    apply filter_In in Hd as [Hd E]. apply Z.eqb_eq in E. auto.
  - intros (Hdc & Hd & E). exists dc. split; [exact Hdc|].
    apply in_map_iff. exists d. split; [reflexivity|].
    apply filter_In. split; [exact Hd | apply Z.eqb_eq; exact E].
Qed.

(** X15 — [searchByVector] makes nothing up: every result is a committed
    chunk row joined with the committed document row it refers to; its id,
    content, chunk index and offsets are the chunk's, its category and
    filePath are that document's, and its similarity is 1 minus the
    distance of the chunk's embedding to the query embedding. *)
Theorem searchByVector_results_are_stored
  (cosine_distance : vector -> vector -> Q)
  (indexScan : Tables -> vector -> DocumentChunkRow.t -> bool)
  (queryError : Tables -> vector -> Z -> option jsstring -> option error)
  (embedding : vector) (limit : Z)
  (category : option jsstring) (db : Database)
  (results : list SearchResult.t) (r : SearchResult.t) :
  searchByVector cosine_distance indexScan queryError embedding limit category
    db = Ok results ->
  In r results ->
  exists dc d,
    In dc (document_chunk (committed db)) /\
    In d (document (committed db)) /\
    DocumentRow.id d = DocumentChunkRow.documentId dc /\
    SearchResult.id r = DocumentChunkRow.id dc /\
    SearchResult.documentId r = DocumentRow.id d /\
    SearchResult.content r = DocumentChunkRow.content dc /\
    SearchResult.chunkIndex r = DocumentChunkRow.chunkIndex dc /\
    SearchResult.startOffset r = DocumentChunkRow.startOffset dc /\
    SearchResult.endOffset r = DocumentChunkRow.endOffset dc /\
    SearchResult.category r = DocumentRow.category d /\
    SearchResult.filePath r = DocumentRow.filePath d /\
    SearchResult.similarity r
    = (1 - cosine_distance (DocumentChunkRow.embedding dc) embedding)%Q.
Proof.
  intros H Hin.
  destruct (searchByVector_Ok_inv _ _ _ _ _ _ _ _ H) as [He Hl].
  rewrite searchByVector_Ok in H by assumption. injection H as <-.
  apply in_map_iff in Hin as ([dc d] & <- & Hrow).
  apply firstn_In, ORDER_BY_In, filter_In in Hrow as [Hj _].
  apply JOIN_SCAN_In in Hj as [Hj _].
  apply JOIN_In in Hj as (Hdc & Hd & E).
  exists dc, d. cbn. rewrite E. repeat split; auto.
Qed.

(* ------------------------------------------------------------------ *)
(** ** ingest.ts: extractCategory *)

Lemma String_split_head (separator : N) (s : jsstring) :
  exists part parts,
    String_split separator s = part :: parts /\
    ~ In separator part /\
    (s = part /\ parts = [] \/ exists rest, s = part ++ separator :: rest).
Proof.
  induction s as [|c s (part & parts & E & Hp & Hs)]; simpl.
  - exists [], []. split; [reflexivity|]. split; [tauto | left; auto].
  - destruct (N.eqb_spec c separator) as [-> | Hne].
    + exists [], (String_split separator s). split; [reflexivity|].
      split; [tauto|]. right. exists s. reflexivity.
    + rewrite E. exists (c :: part), parts. split; [reflexivity|]. split.
      * simpl. intros [F | F]; [congruence | auto].
      * destruct Hs as [[-> ->] | [rest ->]]; [left; auto|].
        right. exists rest. reflexivity.
Qed.

(** X16 — [extractCategory] returns ["general"] when the directory of the
    path is ["."] or empty; otherwise it returns the part of the directory
    before its first separator (the whole directory if it has none): the
    category contains no separator and the directory starts with it.  A
    directory that starts with a separator therefore gives the empty
    category. *)
Theorem extractCategory_first_component
  (path_dirname : jsstring -> jsstring) (path_sep : N)
  (relativePath : jsstring) :
  let dir := path_dirname relativePath in
  let category := extractCategory path_dirname path_sep relativePath in
  (dir = JSString.lit "." \/ dir = [] -> category = JSString.lit "general")
  /\ (dir <> JSString.lit "." -> dir <> [] ->
      ~ In path_sep category /\
      (dir = category \/ exists rest, dir = category ++ path_sep :: rest))
  /\ (forall rest,
        dir = path_sep :: rest -> dir <> JSString.lit "." -> category = []).
Proof.
  cbv zeta. unfold extractCategory.
  destruct (String_split_head path_sep (path_dirname relativePath))
    as (part & parts & E & Hp & Hs).
  split; [|split].
  - intros [-> | ->]; reflexivity.
  - intros H1 H2.
    destruct (jsstring_eqb (path_dirname relativePath) (JSString.lit ".")) eqn:D1;
      [apply jsstring_eqb_eq in D1; contradiction|].
    destruct (jsstring_eqb (path_dirname relativePath) []) eqn:D2;
      [apply jsstring_eqb_eq in D2; contradiction|].
    cbn [orb]. rewrite E. split; [exact Hp|].
    destruct Hs as [[-> _] | [rest ->]]; [left; reflexivity | right; eauto].
  - intros rest Hd H1. rewrite Hd in *.
    destruct (jsstring_eqb (path_sep :: rest) (JSString.lit ".")) eqn:D1;
      [apply jsstring_eqb_eq in D1; contradiction|].
    cbn. rewrite N.eqb_refl. reflexivity.
Qed.

(* ------------------------------------------------------------------ *)
(** ** ingest.ts: buildDocumentInputs *)

Lemma Map_get_set {V : Type} (m : JSMap V) (key key' : jsstring) (value : V) :
  Map_get (Map_set m key value) key' =
  if jsstring_eqb key key' then Some value else Map_get m key'.
Proof.
  induction m as [|[k v] m IH]; simpl.
  - unfold jsstring_eqb. destruct (list_eq_dec N.eq_dec key key'); reflexivity.
  - destruct (jsstring_eqb k key) eqn:E; simpl.
    + apply jsstring_eqb_eq in E. subst k. 
      destruct (jsstring_eqb key key'); reflexivity.
    + rewrite IH. destruct (jsstring_eqb k key') eqn:E'; [|reflexivity].
      apply jsstring_eqb_eq in E'. subst key'.
      destruct (jsstring_eqb key k) eqn:F; [|reflexivity].
      apply jsstring_eqb_eq in F. subst key.
      rewrite (proj2 (jsstring_eqb_eq k k) eq_refl) in E. discriminate E.
Qed.

Lemma buildDocumentInputs_loop (embeddedChunks : list EmbeddedChunk.t) :
  forall (m : JSMap (list EmbeddedChunk.t)) (key : jsstring),
    Map_get (fold_left buildDocumentInputs_body embeddedChunks m) key =
    let added :=
      filter (fun c =>
                jsstring_eqb (Chunk.filePath (EmbeddedChunk.metadata c)) key)
             embeddedChunks in
    match Map_get m key with
    | Some existing => Some (existing ++ added)
    | None => match added with
              | [] => None
              | _ :: _ => Some added
              end
    end.
Proof.
  induction embeddedChunks as [|c chunks IH]; intros m key; cbn zeta.
  - simpl. destruct (Map_get m key); [rewrite app_nil_r|]; reflexivity.
  - cbn [fold_left filter]. rewrite IH. cbn zeta.
    unfold buildDocumentInputs_body.
    set (fp := Chunk.filePath (EmbeddedChunk.metadata c)).
    destruct (Map_get m fp) as [existing|] eqn:G; rewrite Map_get_set;
      destruct (jsstring_eqb fp key) eqn:E.
    + apply jsstring_eqb_eq in E. subst key. rewrite G, <- app_assoc.
      reflexivity.
    + reflexivity.
    + apply jsstring_eqb_eq in E. subst key. rewrite G. reflexivity.
    + reflexivity.
Qed.

Lemma buildDocumentInputs_groups_by_filePath_aux
  (documents : list Document.t) (embeddedChunks : list EmbeddedChunk.t) :
  buildDocumentInputs documents embeddedChunks =
  filter
    (fun doc => negb (Nat.eqb (List.length (DocumentWithChunksInput.chunks doc)) 0))
    (map (fun document =>
            DocumentWithChunksInput.mk
              (DocumentInput.mk (Document.content document)
                 (Document.category document) (Document.filePath document))
              (map toChunkInput
                 (filter
                    (fun c =>
                       jsstring_eqb (Chunk.filePath (EmbeddedChunk.metadata c))
                         (Document.filePath document))
                    embeddedChunks)))
         documents).
Proof.
  unfold buildDocumentInputs.
  rewrite (filter_ext
             (fun doc =>
                Z.of_nat (List.length (DocumentWithChunksInput.chunks doc)) >? 0)
             (fun doc =>
                negb (Nat.eqb
                        (List.length (DocumentWithChunksInput.chunks doc)) 0)))
    by (intros doc; destruct (DocumentWithChunksInput.chunks doc); reflexivity).
  f_equal. apply map_ext. intros document. f_equal. f_equal.
  rewrite buildDocumentInputs_loop. cbn.
  destruct (filter _ embeddedChunks); reflexivity.
Qed.

(** X17 — [buildDocumentInputs] returns, in the order of the documents, one
    entry for each document that has at least one embedded chunk with its
    [filePath], and none for the others; the chunks of an entry are exactly
    the embedded chunks with the entry's [filePath], in their original
    order, with their content, index, offsets and embedding. *)
Theorem buildDocumentInputs_groups_by_filePath
  (documents : list Document.t) (embeddedChunks : list EmbeddedChunk.t) :
  let ofPath (path : jsstring) :=
    filter (fun c =>
              jsstring_eqb (Chunk.filePath (EmbeddedChunk.metadata c)) path)
           embeddedChunks in
  map DocumentWithChunksInput.document
    (buildDocumentInputs documents embeddedChunks)
  = map (fun document =>
           DocumentInput.mk (Document.content document)
             (Document.category document) (Document.filePath document))
        (filter (fun document =>
                   negb (Nat.eqb
                           (List.length (ofPath (Document.filePath document))) 0))
                documents)
  /\ Forall
       (fun entry =>
          DocumentWithChunksInput.chunks entry <> [] /\
          DocumentWithChunksInput.chunks entry
          = map toChunkInput
              (ofPath (DocumentInput.filePath
                         (DocumentWithChunksInput.document entry))))
       (buildDocumentInputs documents embeddedChunks).
Proof.
  cbv zeta. rewrite buildDocumentInputs_groups_by_filePath_aux. split.
  - induction documents as [|d documents IH]; simpl; [reflexivity|].
    rewrite List.length_map.
    destruct (Nat.eqb _ 0); simpl; [exact IH | f_equal; exact IH].
  - apply Forall_forall. intros entry Hin.
    apply filter_In in Hin as [Hin Hne].
    apply in_map_iff in Hin as (d & <- & _). cbn in *.
    split; [|reflexivity].
    intros E. rewrite E in Hne. discriminate Hne.
Qed.

Lemma filter_partition_Permutation {A : Type} (f : A -> bool) (l : list A) :
  Permutation (filter f l ++ filter (fun x => negb (f x)) l) l.
Proof.
  induction l as [|x l IH]; simpl; [constructor|].
  destruct (f x); simpl.
  - constructor. exact IH.
  - etransitivity; [symmetry; apply Permutation_middle|].
    constructor. exact IH.
Qed.

Lemma groups_Permutation {A : Type} (key : A -> jsstring) (keys : list jsstring) :
  NoDup keys ->
  forall l : list A,
    (forall x, In x l -> In (key x) keys) ->
    Permutation
      (flat_map (fun k => filter (fun x => jsstring_eqb (key x) k) l) keys) l.
Proof.
  induction 1 as [|k keys Hk Hnd IH]; intros l Hl.
  - destruct l as [|x l]; [constructor|]. destruct (Hl x (or_introl eq_refl)).
  - cbn [flat_map].
    set (rest := filter (fun x => negb (jsstring_eqb (key x) k)) l).
    assert (Hrest : forall x, In x rest -> In (key x) keys).
    { intros x Hx. apply filter_In in Hx as [Hx Hne].
      destruct (Hl x Hx) as [E | Hin]; [|exact Hin].
      subst k. unfold jsstring_eqb in Hne.
      destruct (list_eq_dec N.eq_dec (key x) (key x)); [discriminate | congruence]. }
    assert (Hsame :
      flat_map (fun k' => filter (fun x => jsstring_eqb (key x) k') l) keys =
      flat_map (fun k' => filter (fun x => jsstring_eqb (key x) k') rest) keys).
    { rewrite !flat_map_concat_map. f_equal. apply map_ext_in. intros k' Hk'.
      unfold rest. clear - Hk Hk'. induction l as [|x l IHl]; simpl; [reflexivity|].
      destruct (jsstring_eqb (key x) k') eqn:E'.
      - apply jsstring_eqb_eq in E'.
        destruct (jsstring_eqb (key x) k) eqn:E.
        + apply jsstring_eqb_eq in E. subst. contradiction.
        + simpl. apply jsstring_eqb_eq in E'. rewrite E'. f_equal. exact IHl.
      - destruct (jsstring_eqb (key x) k); simpl; [exact IHl|].
        rewrite E'. exact IHl. }
    rewrite Hsame.
    etransitivity; [apply Permutation_app_head, IH, Hrest|].
    apply filter_partition_Permutation.
Qed.

Lemma flat_map_skip_empty (docs : list DocumentWithChunksInput.t) :
  flat_map DocumentWithChunksInput.chunks
    (filter (fun doc =>
               negb (Nat.eqb (List.length (DocumentWithChunksInput.chunks doc)) 0))
            docs)
  = flat_map DocumentWithChunksInput.chunks docs.
Proof.
  induction docs as [|doc docs IH]; simpl; [reflexivity|].
  destruct (DocumentWithChunksInput.chunks doc) eqn:E; simpl;
    [exact IH | rewrite E, IH; reflexivity].
Qed.

(** X18 — when the documents have pairwise different file paths and every
    embedded chunk carries the file path of one of them, the chunks handed
    to the store by [buildDocumentInputs], taken over all documents, are the
    embedded chunks, each exactly once. *)
Theorem buildDocumentInputs_keeps_every_chunk
  (documents : list Document.t) (embeddedChunks : list EmbeddedChunk.t) :
  NoDup (map Document.filePath documents) ->
  (forall c,
     In c embeddedChunks ->
     In (Chunk.filePath (EmbeddedChunk.metadata c))
        (map Document.filePath documents)) ->
  Permutation
    (flat_map DocumentWithChunksInput.chunks
       (buildDocumentInputs documents embeddedChunks))
    (map toChunkInput embeddedChunks).
Proof.
  intros Hnd Hcover.
  rewrite buildDocumentInputs_groups_by_filePath_aux, flat_map_skip_empty.
  pose proof (groups_Permutation
                (fun c => Chunk.filePath (EmbeddedChunk.metadata c))
                (map Document.filePath documents) Hnd embeddedChunks Hcover)
    as P.
  apply (Permutation_map toChunkInput) in P.
  etransitivity; [|exact P].
  clear. induction documents as [|d documents IH]; simpl; [constructor|].
  rewrite map_app. apply Permutation_app_head. exact IH.
Qed.

(* ------------------------------------------------------------------ *)
(** ** ingest.ts: the whole run *)

Lemma chunkDocuments_blank
  (createMarkdownSplitter : ChunkConfig -> result Splitter)
  (config : ChunkConfig) (documents : list Document.t) :
  Forall (fun d => JSString.trim (Document.content d) = []) documents ->
  chunkDocuments createMarkdownSplitter config documents
  = match createMarkdownSplitter config with
    | Ok _ => Ok []
    | Err e => Err e
    end.
Proof.
  intros H. unfold chunkDocuments.
  destruct (createMarkdownSplitter config) as [sp | e]; [|reflexivity].
  cbn [bindR].
  induction H as [|d documents Hd _ IH]; [reflexivity|].
  cbn [forOf]. rewrite chunkDocument_closed_form, Hd. cbn. exact IH.
Qed.

(** X19 — a run of [ingest] over documents that are all empty or white
    space only requests no embedding (the provider state is unchanged) and
    does not touch the database.  It returns the documents, unless at least
    one document was loaded and building the splitter for the chunk
    configuration throws: the splitter is built before the first document
    is looked at, and the run throws that error. *)
Theorem ingest_blank_documents
  (World : Type) (generateEmbedding : jsstring -> jsstring -> SE World vector)
  (createMarkdownSplitter : ChunkConfig -> result Splitter)
  (rejects : Tables -> Insert -> bool)
  (existsSync : jsstring -> bool)
  (loadDocuments : jsstring -> result (list Document.t))
  (docsDirectory : jsstring) (chunkConfig : ChunkConfig)
  (embedConfig : EmbedConfig) (documents : list Document.t)
  (w : World) (db : Database) :
  docsDirectory <> [] ->
  existsSync docsDirectory = true ->
  loadDocuments docsDirectory = Ok documents ->
  Forall (fun d => JSString.trim (Document.content d) = []) documents ->
  ingest generateEmbedding createMarkdownSplitter rejects existsSync
    loadDocuments (Some docsDirectory) chunkConfig embedConfig (w, db)
  = match documents, createMarkdownSplitter chunkConfig with
    | _ :: _, Err e => (Err e, (w, db))
    | _, _ => (Ok documents, (w, db))
    end.
Proof.
  intros Hdir He Hl Hblank. unfold ingest, getDocsDirectory.
  destruct docsDirectory as [|c dir]; [congruence|].
  unfold bind at 1. unfold fromResult at 1. rewrite He. cbn [negb].
  unfold bind at 1. unfold fromResult at 1. rewrite Hl.
  destruct documents as [|d documents]; [reflexivity|].
  replace (Z.of_nat (List.length (d :: documents)) =? 0) with false
    by (symmetry; apply Z.eqb_neq; simpl; lia).
  unfold bind at 1. unfold fromResult at 1.
  rewrite (chunkDocuments_blank _ _ _ Hblank).
  destruct (createMarkdownSplitter chunkConfig); reflexivity.
Qed.

(** X20 — a run of [ingest] started with no transaction open is all or
    nothing for the store: if it throws, at whatever stage (missing
    DOCS_DIRECTORY, reading, splitting, embedding, inserting), the
    committed tables are what they were; if it returns, either nothing was
    written, or the committed tables have gained exactly the rows of
    [buildDocumentInputs] for the loaded documents and the embedded chunks
    of the run.  No transaction is left open. *)
Theorem ingest_store_all_or_nothing
  (World : Type) (generateEmbedding : jsstring -> jsstring -> SE World vector)
  (createMarkdownSplitter : ChunkConfig -> result Splitter)
  (rejects : Tables -> Insert -> bool)
  (existsSync : jsstring -> bool)
  (loadDocuments : jsstring -> result (list Document.t))
  (DOCS_DIRECTORY : option jsstring) (chunkConfig : ChunkConfig)
  (embedConfig : EmbedConfig) (w : World) (db : Database) :
  transaction db = None ->
  match ingest generateEmbedding createMarkdownSplitter rejects existsSync
          loadDocuments DOCS_DIRECTORY chunkConfig embedConfig (w, db) with
  | (Ok documents, (w', db')) =>
      transaction db' = None /\
      (db' = db \/
       exists chunks embeddedChunks,
         chunkDocuments createMarkdownSplitter chunkConfig documents
         = Ok chunks /\
         embedChunks generateEmbedding embedConfig chunks w
         = (Ok embeddedChunks, w') /\
         committed db' =
         addRows (committed db)
           (batchRows (document_id_seq db) (document_chunk_id_seq db)
              (buildDocumentInputs documents embeddedChunks)))
  | (Err _, (_, db')) =>
      transaction db' = None /\ committed db' = committed db
  end.
Proof.
  intros Hn. unfold ingest.
  unfold bind at 1. unfold fromResult at 1.
  destruct (getDocsDirectory DOCS_DIRECTORY) as [docsDir | e]; [|cbn; auto].
  destruct (existsSync docsDir); cbn [negb]; [|cbn; auto].
  unfold bind at 1. unfold fromResult at 1.
  destruct (loadDocuments docsDir) as [documents | e]; [|cbn; auto].
  destruct (Z.of_nat (List.length documents) =? 0); [cbn; auto|].
  unfold bind at 1. unfold fromResult at 1.
  destruct (chunkDocuments createMarkdownSplitter chunkConfig documents)
    as [chunks | e] eqn:C; [|cbn; auto].
  destruct (Z.of_nat (List.length chunks) =? 0); [cbn; auto|].
  unfold bind at 1. unfold onWorld at 1. cbn [fst snd].
  destruct (embedChunks generateEmbedding embedConfig chunks w)
    as [[embeddedChunks | e] w1] eqn:E; [|cbn; auto].
  unfold bind at 1. unfold onDatabase at 1. cbn [fst snd].
  pose proof (insertDocuments_outcome rejects
                (buildDocumentInputs documents embeddedChunks) db Hn) as O.
  destruct (insertDocuments rejects
              (buildDocumentInputs documents embeddedChunks) db)
    as [[ids | e] db'].
  - cbn. destruct O as (Ht & Hc & _). split; [exact Ht|]. right.
    exists chunks, embeddedChunks. auto.
  - cbn. exact O.
Qed.

(* ------------------------------------------------------------------ *)
(** ** database.ts: insert, then search *)

Lemma chunkRows_In (documentId : Z) (chunks : list DocumentChunkInput.t)
  (chunk : DocumentChunkInput.t) :
  In chunk chunks ->
  forall id,
  exists chunkId,
    In (DocumentChunkRow.mk chunkId documentId
          (DocumentChunkInput.content chunk)
          (DocumentChunkInput.chunkIndex chunk)
          (DocumentChunkInput.startOffset chunk)
          (DocumentChunkInput.endOffset chunk)
          (DocumentChunkInput.embedding chunk))
       (chunkRows documentId id chunks).
Proof.
  induction chunks as [|c chunks IH]; intros Hin id; [destruct Hin|].
  destruct Hin as [-> | Hin].
  - exists id. left. reflexivity.
  - destruct (IH Hin (id + 1)) as [k Hk]. exists k. right. exact Hk.
Qed.

Lemma batchRows_In (docs : list DocumentWithChunksInput.t)
  (doc : DocumentWithChunksInput.t) (chunk : DocumentChunkInput.t) :
  In doc docs ->
  In chunk (DocumentWithChunksInput.chunks doc) ->
  forall documentId chunkId,
  exists did cid,
    In (DocumentRow.mk did
          (DocumentInput.content (DocumentWithChunksInput.document doc))
          (DocumentInput.category (DocumentWithChunksInput.document doc))
          (DocumentInput.filePath (DocumentWithChunksInput.document doc)))
       (document (batchRows documentId chunkId docs)) /\
    In (DocumentChunkRow.mk cid did
          (DocumentChunkInput.content chunk)
          (DocumentChunkInput.chunkIndex chunk)
          (DocumentChunkInput.startOffset chunk)
          (DocumentChunkInput.endOffset chunk)
          (DocumentChunkInput.embedding chunk))
       (document_chunk (batchRows documentId chunkId docs)).
Proof.
  induction docs as [|d docs IH]; intros Hdoc Hchunk documentId chunkId;
    [destruct Hdoc|].
  cbn [batchRows document document_chunk].
  destruct Hdoc as [-> | Hdoc].
  - destruct (chunkRows_In documentId _ _ Hchunk chunkId) as [cid Hcid].
    exists documentId, cid. split; [left; reflexivity|].
    apply in_or_app. left. exact Hcid.
  - destruct (IH Hdoc Hchunk (documentId + 1)
                (chunkId + Z.of_nat (List.length
                                       (DocumentWithChunksInput.chunks d))))
      as (did & cid & H1 & H2).
    exists did, cid. split; [right; exact H1|].
    apply in_or_app. right. exact H2.
Qed.

(** X21 — insert, then search: after a successful [insertDocuments],
    every chunk of every inserted document is a committed row that the JOIN
    of the search query pairs with the row of its own document.  A later
    search that returns, whose scan reaches that row and whose category, if
    any, is the document's, has a result with the chunk's content, index
    and offsets, the category and filePath of its document and the
    similarity of its embedding to the query, or else returns [limit]
    results that are all at least as similar: an inserted chunk is missed
    only by the scan or by the limit. *)
Theorem search_after_insertDocuments
  (rejects : Tables -> Insert -> bool)
  (cosine_distance : vector -> vector -> Q)
  (indexScan : Tables -> vector -> DocumentChunkRow.t -> bool)
  (queryError : Tables -> vector -> Z -> option jsstring -> option error)
  (docs : list DocumentWithChunksInput.t) (db db' : Database) (ids : list Z)
  (doc : DocumentWithChunksInput.t) (chunk : DocumentChunkInput.t) :
  transaction db = None ->
  insertDocuments rejects docs db = (Ok ids, db') ->
  In doc docs ->
  In chunk (DocumentWithChunksInput.chunks doc) ->
  exists chunkId documentId,
    let dc :=
      DocumentChunkRow.mk chunkId documentId
        (DocumentChunkInput.content chunk)
        (DocumentChunkInput.chunkIndex chunk)
        (DocumentChunkInput.startOffset chunk)
        (DocumentChunkInput.endOffset chunk)
        (DocumentChunkInput.embedding chunk) in
    let d :=
      DocumentRow.mk documentId
        (DocumentInput.content (DocumentWithChunksInput.document doc))
        (DocumentInput.category (DocumentWithChunksInput.document doc))
        (DocumentInput.filePath (DocumentWithChunksInput.document doc)) in
    In (dc, d) (JOIN (committed db')) /\
    forall embedding limit category results,
      searchByVector cosine_distance indexScan queryError embedding limit
        category db' = Ok results ->
      indexScan (committed db') embedding dc = true ->
      (forall c,
         category = Some c ->
         DocumentInput.category (DocumentWithChunksInput.document doc) = c) ->
      let similarity :=
        (1 - cosine_distance (DocumentChunkInput.embedding chunk) embedding)%Q
      in
      (exists r,
         In r results /\
         SearchResult.content r = DocumentChunkInput.content chunk /\
         SearchResult.chunkIndex r = DocumentChunkInput.chunkIndex chunk /\
         SearchResult.startOffset r = DocumentChunkInput.startOffset chunk /\
         SearchResult.endOffset r = DocumentChunkInput.endOffset chunk /\
         SearchResult.category r
         = DocumentInput.category (DocumentWithChunksInput.document doc) /\
         SearchResult.filePath r
         = DocumentInput.filePath (DocumentWithChunksInput.document doc) /\
         SearchResult.similarity r = similarity)
      \/ (Z.of_nat (List.length results) = limit /\
          Forall (fun r => (similarity <= SearchResult.similarity r)%Q)
                 results).
Proof.
  intros Hn H Hdoc Hchunk.
  pose proof (insertDocuments_outcome rejects docs db Hn) as O.
  rewrite H in O. destruct O as (_ & Hc & _).
  destruct (batchRows_In docs doc chunk Hdoc Hchunk (document_id_seq db)
              (document_chunk_id_seq db)) as (did & cid & Hd & Hk).
  set (d := DocumentRow.mk did
              (DocumentInput.content (DocumentWithChunksInput.document doc))
              (DocumentInput.category (DocumentWithChunksInput.document doc))
              (DocumentInput.filePath (DocumentWithChunksInput.document doc)))
    in *.
  set (dc := DocumentChunkRow.mk cid did (DocumentChunkInput.content chunk)
               (DocumentChunkInput.chunkIndex chunk)
               (DocumentChunkInput.startOffset chunk)
               (DocumentChunkInput.endOffset chunk)
               (DocumentChunkInput.embedding chunk)) in *.
  assert (Hj : In (dc, d) (JOIN (committed db'))).
  { apply JOIN_In. rewrite Hc. cbn [addRows document document_chunk].
    split; [apply in_or_app; right; exact Hk|].
    split; [apply in_or_app; right; exact Hd | reflexivity]. }
  exists cid, did. fold dc d. cbv zeta. split; [exact Hj|].
  intros embedding limit category results S Hs Hcat.
  destruct (searchByVector_results _ _ _ _ _ _ _ _ S) as (_ & _ & _ & Hcomplete).
  destruct (Hcomplete dc d Hj Hs Hcat) as [Hin | [Hlen Hall]].
  - left. exists (SELECT cosine_distance embedding (dc, d)).
    split; [exact Hin|]. cbn. repeat split; reflexivity.
  - right. split; [exact Hlen|]. exact Hall.
Qed.

(* ================================================================== *)
(** * Instances of the further properties *)

Lemma chunkDocument_chunks_trimmed_witness :
  let c := Chunk.mk (JSString.lit "Yo.")
             (Chunk.mkMetadata (JSString.lit "shipping/slips.md") 1 5 8) in
  Chunk.content c <> [] /\
  JSString.trim (Chunk.content c) = Chunk.content c /\
  Chunk.filePath (Chunk.metadata c) = Document.filePath doc_padded.
Proof.
  cbv zeta.
  apply (chunkDocument_chunks_trimmed
           (checkingFactory (fixedSplitter splits_padded)) doc_padded
           (mkChunkConfig 5 0) (Some (fixedSplitter splits_padded))
           [Chunk.mk (JSString.lit "Hi.")
              (Chunk.mkMetadata (JSString.lit "shipping/slips.md") 0 0 3);
            Chunk.mk (JSString.lit "Yo.")
              (Chunk.mkMetadata (JSString.lit "shipping/slips.md") 1 5 8)]).
  - vm_compute. reflexivity.
  - simpl. right. left. reflexivity.
Defined.

Lemma placedInOrder_headings :
  placedInOrder text_headings 0 0 splits_headings [0; 13].
Proof.
  constructor.
  - exists [], ([10%N] ++ JSString.lit "# Intro" ++ [10%N] ++ JSString.lit "more").
    split; vm_compute; reflexivity.
  - lia.
  - constructor.
    + exists (JSString.lit "# Intro" ++ [10%N] ++ JSString.lit "text" ++ [10%N]), [].
      split; vm_compute; reflexivity.
    + vm_compute. discriminate.
    + constructor.
Defined.

Lemma findChunkOffsets_places_ordered_fragments_witness :
  exists o,
    nth_error (findChunkOffsets text_headings splits_headings 0) 1 = Some o /\
    occursAt text_headings
      (JSString.lit "# Intro" ++ [10%N] ++ JSString.lit "more")
      (RawOffsets.startOffset o) /\
    RawOffsets.startOffset o <= 13 /\
    RawOffsets.endOffset o
    = RawOffsets.startOffset o
      + JSString.length (JSString.lit "# Intro" ++ [10%N] ++ JSString.lit "more").
Proof.
  apply (findChunkOffsets_places_ordered_fragments text_headings 0
           splits_headings [0; 13] 1%nat).
  - lia.
  - exact placedInOrder_headings.
  - reflexivity.
  - reflexivity.
Defined.

Lemma placedInOrder_padded :
  placedInOrder (Document.content doc_padded) 0 0
    (filter nonBlank splits_padded) [0; 4].
Proof.
  change (filter nonBlank splits_padded)
    with [JSString.lit "Hi. "; JSString.lit " Yo. "].
  constructor.
  - exists [], (JSString.lit " Yo. "). split; vm_compute; reflexivity.
  - lia.
  - constructor.
    + exists (JSString.lit "Hi. "), []. split; vm_compute; reflexivity.
    + vm_compute. discriminate.
    + constructor.
Defined.

Lemma chunkDocument_exact_for_ordered_splits_witness :
  let c := Chunk.mk (JSString.lit "Yo.")
             (Chunk.mkMetadata (JSString.lit "shipping/slips.md") 1 5 8) in
  JSString.slice (Document.content doc_padded)
    (Chunk.startOffset (Chunk.metadata c)) (Chunk.endOffset (Chunk.metadata c))
  = Chunk.content c.
Proof.
  cbv zeta.
  apply (chunkDocument_exact_for_ordered_splits
           (checkingFactory (fixedSplitter splits_padded)) doc_padded
           (mkChunkConfig 5 0) (fixedSplitter splits_padded) splits_padded
           [0; 4]
           [Chunk.mk (JSString.lit "Hi.")
              (Chunk.mkMetadata (JSString.lit "shipping/slips.md") 0 0 3);
            Chunk.mk (JSString.lit "Yo.")
              (Chunk.mkMetadata (JSString.lit "shipping/slips.md") 1 5 8)]).
  - simpl. lia.
  - reflexivity.
  - exact placedInOrder_padded.
  - vm_compute. reflexivity.
  - simpl. right. left. reflexivity.
Defined.

Lemma parseArgs_agrees_with_getQueryFromArgs_witness :
  parseArgs args_plain = ParsedArgs.mk (getQueryFromArgs args_plain) None.
Proof.
  apply (parseArgs_agrees_with_getQueryFromArgs args_plain).
  repeat constructor.
Defined.

Lemma parseJudgeResponse_scores_in_range_witness :
  let scores := mkJudgeScores 5 3 (JSString.lit "close") in
  1 <= judgedRelevance scores <= 5 /\
  1 <= judgedSufficiency scores <= 5 /\
  JSString.trim (judgedReasoning scores) = judgedReasoning scores /\
  exists parsed,
    (sampleJSON_parse (JSString.trim (JSString.lit " Here it is: {x} Thanks. "))
     = Ok parsed \/
     exists extracted,
       Judge.extractJson
         (JSString.trim (JSString.lit " Here it is: {x} Thanks. "))
       = Some extracted /\
       sampleJSON_parse extracted = Ok parsed) /\
    ((exists items, parsed = JArray items) \/
     (exists properties, parsed = JObject properties)).
Proof.
  cbv zeta.
  apply (parseJudgeResponse_scores_in_range sampleJSON_parse sampleNumber
           (JSString.lit " Here it is: {x} Thanks. ")).
  vm_compute. reflexivity.
Defined.

Lemma runEval_scores_in_range_witness :
  exists evalResult w',
    runEval countingEmbedding sampleDistance sequentialScan dimensionError
      chattyJudge
      (Judge.parseJudgeResponse sampleJSON_parse sampleNumber) silentWarn
      (mkRetrieveConfig 5) (mkEmbedConfig (JSString.lit "titan")) storedDatabase
      (JSString.lit "packing slip") None 0%nat = (Ok evalResult, w') /\
    Forall scoresInRange (EvalResult.chunks evalResult).
Proof.
  eexists. eexists. split; [reflexivity|].
  eapply (runEval_scores_in_range nat countingEmbedding sampleDistance
            sequentialScan dimensionError
            chattyJudge sampleJSON_parse sampleNumber silentWarn
            (mkRetrieveConfig 5) (mkEmbedConfig (JSString.lit "titan"))
            storedDatabase (JSString.lit "packing slip") None 0%nat).
  reflexivity.
Defined.

Lemma generate_without_context_witness :
  generate failingEmbedding sampleDistance sequentialScan dimensionError
    sampleClaude (fun calls => calls)
    (mkRetrieveConfig 5) (mkEmbedConfig (JSString.lit "titan")) storedDatabase
    (JSString.lit "packing slip") 0%nat
  = (Ok (GenerateResult.mk (JSString.lit "packing slip")
           (JSString.lit "I do not know.") [] 0), 2%nat).
Proof.
  exact (generate_without_context nat failingEmbedding sampleDistance
           sequentialScan dimensionError
           sampleClaude (fun calls => calls) (mkRetrieveConfig 5)
           (mkEmbedConfig (JSString.lit "titan")) storedDatabase
           (JSString.lit "packing slip") 0%nat 1%nat
           (Error "AccessDeniedException") eq_refl).
Defined.

Lemma getDocumentById_after_insertDocuments_witness :
  Forall2
    (fun id doc =>
       getDocumentById id
         (snd (insertDocuments schemaRejects [input_good] emptyDatabase))
       = Some (DocumentRow.mk id
                 (DocumentInput.content (DocumentWithChunksInput.document doc))
                 (DocumentInput.category (DocumentWithChunksInput.document doc))
                 (DocumentInput.filePath (DocumentWithChunksInput.document doc))))
    [1] [input_good]
  /\ forall id,
       id < document_id_seq emptyDatabase ->
       getDocumentById id
         (snd (insertDocuments schemaRejects [input_good] emptyDatabase))
       = getDocumentById id emptyDatabase.
Proof.
  apply (getDocumentById_after_insertDocuments schemaRejects [input_good]
           emptyDatabase).
  - reflexivity.
  - constructor.
  - vm_compute. reflexivity.
Defined.

Lemma searchByVector_results_are_stored_witness :
  let r := SearchResult.mk 2 1 (JSString.lit "B.") (JSString.lit "shipping")
             (JSString.lit "shipping/a.md") 1 3 5 1%Q in
  exists dc d,
    In dc (document_chunk (committed storedDatabase)) /\
    In d (document (committed storedDatabase)) /\
    DocumentRow.id d = DocumentChunkRow.documentId dc /\
    SearchResult.id r = DocumentChunkRow.id dc /\
    SearchResult.documentId r = DocumentRow.id d /\
    SearchResult.content r = DocumentChunkRow.content dc /\
    SearchResult.chunkIndex r = DocumentChunkRow.chunkIndex dc /\
    SearchResult.startOffset r = DocumentChunkRow.startOffset dc /\
    SearchResult.endOffset r = DocumentChunkRow.endOffset dc /\
    SearchResult.category r = DocumentRow.category d /\
    SearchResult.filePath r = DocumentRow.filePath d /\
    SearchResult.similarity r
    = (1 - sampleDistance (DocumentChunkRow.embedding dc) (axis 1))%Q.
Proof.
  cbv zeta.
  eapply (searchByVector_results_are_stored sampleDistance oneListScan
            dimensionError (axis 1) 5 (Some (JSString.lit "shipping"))
            storedDatabase).
  - reflexivity.
  - vm_compute. left. reflexivity.
Defined.

Lemma buildDocumentInputs_keeps_every_chunk_witness :
  Permutation
    (flat_map DocumentWithChunksInput.chunks
       (buildDocumentInputs docs_ab [embedded_a0; embedded_b0; embedded_a1]))
    (map toChunkInput [embedded_a0; embedded_b0; embedded_a1]).
Proof.
  apply (buildDocumentInputs_keeps_every_chunk docs_ab
           [embedded_a0; embedded_b0; embedded_a1]).
  - simpl. constructor.
    + simpl. intros [H | []]. discriminate H.
    + constructor; [simpl; tauto | constructor].
  - simpl. intros c [<- | [<- | [<- | []]]]; simpl; auto.
Defined.

(** A blank document with a refused configuration: the run throws. *)
Lemma ingest_blank_documents_witness :
  ingest countingEmbedding (createMarkdownSplitter (fun _ => fixedSplitter []))
    schemaRejects (fun _ => true) (fun _ => Ok [doc_blank])
    (Some (JSString.lit "docs")) (mkChunkConfig 4 4)
    (mkEmbedConfig (JSString.lit "titan")) (0%nat, emptyDatabase)
  = (Err (Error "Cannot have chunkOverlap >= chunkSize"),
     (0%nat, emptyDatabase)).
Proof.
  apply (ingest_blank_documents nat countingEmbedding
           (createMarkdownSplitter (fun _ => fixedSplitter [])) schemaRejects
           (fun _ => true) (fun _ => Ok [doc_blank]) (JSString.lit "docs")
           (mkChunkConfig 4 4) (mkEmbedConfig (JSString.lit "titan"))
           [doc_blank] 0%nat emptyDatabase).
  - discriminate.
  - reflexivity.
  - reflexivity.
  - constructor; [reflexivity | constructor].
Defined.

(** A run that fails at the insert (the provider's embeddings have
    dimension 256, which the schema refuses): the store is left as it
    was. *)
Lemma ingest_store_all_or_nothing_witness :
  match ingest shortEmbedding
          (checkingFactory (fixedSplitter splits_sentences)) schemaRejects
          (fun _ => true) (fun _ => Ok [doc_sentences])
          (Some (JSString.lit "docs")) (mkChunkConfig 4 0)
          (mkEmbedConfig (JSString.lit "titan")) (0%nat, emptyDatabase) with
  | (Ok _, _) => False
  | (Err _, (_, db')) =>
      transaction db' = None /\ committed db' = committed emptyDatabase
  end.
Proof.
  pose proof (ingest_store_all_or_nothing nat shortEmbedding
                (checkingFactory (fixedSplitter splits_sentences))
                schemaRejects (fun _ => true) (fun _ => Ok [doc_sentences])
                (Some (JSString.lit "docs")) (mkChunkConfig 4 0)
                (mkEmbedConfig (JSString.lit "titan")) 0%nat emptyDatabase
                eq_refl) as H.
  destruct (ingest shortEmbedding
              (checkingFactory (fixedSplitter splits_sentences)) schemaRejects
              (fun _ => true) (fun _ => Ok [doc_sentences])
              (Some (JSString.lit "docs")) (mkChunkConfig 4 0)
              (mkEmbedConfig (JSString.lit "titan")) (0%nat, emptyDatabase))
    as [[documents | e] [w' db']] eqn:E.
  - vm_compute in E. discriminate E.
  - exact H.
Defined.

(** The two chunks of [input_axes] are inserted; the scan for [axis 1]
    reaches the second one, which is returned. *)
Lemma search_after_insertDocuments_witness :
  exists results r,
    searchByVector sampleDistance oneListScan dimensionError (axis 1) 5 None
      (snd (insertDocuments schemaRejects [input_axes] emptyDatabase))
    = Ok results /\
    In r results /\
    SearchResult.content r = JSString.lit "B." /\
    SearchResult.filePath r = JSString.lit "shipping/a.md" /\
    SearchResult.similarity r = (1 - sampleDistance (axis 1) (axis 1))%Q.
Proof.
  destruct (search_after_insertDocuments schemaRejects sampleDistance
              oneListScan dimensionError [input_axes] emptyDatabase
              (snd (insertDocuments schemaRejects [input_axes] emptyDatabase))
              [1] input_axes
              (DocumentChunkInput.mk (JSString.lit "B.") 1 3 5 (axis 1)))
    as (chunkId & documentId & _ & Hsearch).
  - reflexivity.
  - vm_compute. reflexivity.
  - left. reflexivity.
  - right. left. reflexivity.
  - pose (results :=
            match searchByVector sampleDistance oneListScan dimensionError
                    (axis 1) 5 None
                    (snd (insertDocuments schemaRejects [input_axes]
                            emptyDatabase)) with
            | Ok rs => rs
            | Err _ => []
            end).
    destruct (Hsearch (axis 1) 5 None results) as [(r & Hr) | [Hlen _]].
    + vm_compute. reflexivity.
    + reflexivity.
    + discriminate.
    + exists results, r. split; [vm_compute; reflexivity|].
      cbn [DocumentChunkInput.content DocumentChunkInput.embedding
           DocumentInput.filePath DocumentWithChunksInput.document input_axes]
        in Hr.
      destruct Hr as (Hin & Hc & _ & _ & _ & _ & Hf & Hsim). auto.
    + vm_compute in Hlen. discriminate Hlen.
Defined.
